(** * Nelson-event backend: locations, users, venues and the access-control chain

    A shallow embedding of the Express/Mongoose backend:
    - [backend/src/location/locationController.js] and [locationModel.js]
    - [backend/src/user/userController.js] and [userModel.js]
    - [backend/src/venue/venueController.js] and [venueModel.js]
    - [backend/middleware/auth.js]
    - the venue router (the middleware chains of the mutating routes)

    A MongoDB collection is a list of documents in natural order.  An async
    controller is a function from the database and the request to the new
    database and the response; a [try]/[catch] is a computation in the
    [result] monad whose thrown error the handler turns into a response.
    The recursive descendant resolver, which the source does not bound,
    takes fuel and returns [None] when it runs out.

    What Mongoose does is taken as follows: ids in requests are strings that
    are cast to ObjectIds (24 hexadecimal digits), a failed cast in a query
    throws a CastError; [create] and [findByIdAndUpdate] with
    [runValidators] run the setters and validators of the schema;
    [undefined] properties of an update are not part of the update; new
    documents get an ObjectId that the collection does not hold.  Numbers
    are integers, strings are kept as UTF-8, and timestamps ([createdAt],
    [updatedAt]) are left out of the documents. *)

From Stdlib Require Import ZArith NArith String Ascii List.
From stdpp Require Import base option list relations numbers strings.

Open Scope string_scope.
Open Scope list_scope.

(** ** Identifiers *)

(** A MongoDB ObjectId is a 12-byte value; it is kept as its numeric value. *)
Definition ObjectId := N.

(** ** Documents of the three collections *)

Inductive Role := Admin | Organizer | Attend.

#[global] Instance Role_eq_dec : EqDecision Role.
Proof. solve_decision. Defined.

(* locationModel.js *)
Record LocationDoc := {
  loc_id : ObjectId;
  loc_name : string;
  loc_code : string;
  loc_parent : option ObjectId
}.

(* userModel.js *)
Record UserDoc := {
  user_id : ObjectId;
  user_name : string;
  user_phone : string;
  user_email : string;
  user_role : Role;
  user_location : ObjectId
}.

(* venueModel.js *)
Record VenueDoc := {
  venue_id : ObjectId;
  venue_placeName : string;
  venue_capacity : Z;
  venue_location : ObjectId;
  venue_createdBy : ObjectId
}.

#[global] Instance LocationDoc_eq_dec : EqDecision LocationDoc.
Proof. solve_decision. Defined.

#[global] Instance UserDoc_eq_dec : EqDecision UserDoc.
Proof. solve_decision. Defined.

#[global] Instance VenueDoc_eq_dec : EqDecision VenueDoc.
Proof. solve_decision. Defined.

Record Db := {
  locations : list LocationDoc;
  users : list UserDoc;
  venues : list VenueDoc
}.

(** ** The Mongoose model interface *)

(** Every document carries its primary key [_id]. *)
Class Document (A : Type) := _id : A → ObjectId.

#[global] Instance LocationDoc_Document : Document LocationDoc := loc_id.
#[global] Instance UserDoc_Document : Document UserDoc := user_id.
#[global] Instance VenueDoc_Document : Document VenueDoc := venue_id.

Section Model.
Context {A : Type} `{Document A}.

(* Model.findById(id) *)
Definition findById (docs : list A) (i : ObjectId) : option A :=
  head (filter (λ d, _id d = i) docs).

(* Model.findByIdAndDelete(id): the removed document, if any, and the
   collection without it *)
Definition findByIdAndDelete (docs : list A) (i : ObjectId) : option A * list A :=
  match findById docs i with
  | Some d => (Some d, filter (λ d, _id d ≠ i) docs)
  | None => (None, docs)
  end.

(** [_id] is the primary key of a collection. *)
Definition unique_ids (docs : list A) : Prop := NoDup (_id <$> docs).

(** An ObjectId that no document of the collection has.  The driver draws a
    new ObjectId from the clock, a random value and a counter; here one id is
    picked that the collection does not hold, and the properties below rely
    on nothing but that ([freshId_fresh]). *)
Definition freshId (docs : list A) : ObjectId :=
  N.succ (foldr N.max 0%N (_id <$> docs)).

End Model.

Arguments findById : simpl never.
Arguments freshId : simpl never.

(** ** JavaScript values of a request *)

(** A property of the parsed JSON body: missing ([undefined]), [null], or
    present with a value of the type the handler expects. *)
Inductive field (A : Type) : Type :=
  | Undefined
  | Null
  | Given (a : A).
Arguments Undefined {A}.
Arguments Null {A}.
Arguments Given {A} a.

(** [!x] is false exactly on truthy values: a non-empty string, a non-zero
    number. *)
Definition truthy_string (s : string) : bool := negb (String.eqb s "").

Definition truthy (f : field string) : bool :=
  match f with Given s => truthy_string s | _ => false end.

Definition truthy_number (f : field Z) : bool :=
  match f with Given n => negb (Z.eqb n 0) | _ => false end.

(** *** The Unicode Character Database

    The tables of version 14.0 that the case conversions of a string use. *)

Module Unicode.

(* UnicodeData.txt, Simple_Uppercase_Mapping: [(c, n, step, u)] stands for the
   [n] code points [c], [c + step], ..., of which [c + i * step] has the
   uppercase [u + i * step] *)
Definition upper_runs : list (N * N * N * N) :=
  [(0x61,26,1,0x41); (0xB5,1,1,0x39C); (0xE0,23,1,0xC0); (0xF8,7,1,0xD8); (0xFF,1,1,0x178);
   (0x101,24,2,0x100); (0x131,1,1,0x49); (0x133,3,2,0x132); (0x13A,8,2,0x139);
   (0x14B,23,2,0x14A); (0x17A,3,2,0x179); (0x17F,1,1,0x53); (0x180,1,1,0x243);
   (0x183,2,2,0x182); (0x188,1,1,0x187); (0x18C,1,1,0x18B); (0x192,1,1,0x191);
   (0x195,1,1,0x1F6); (0x199,1,1,0x198); (0x19A,1,1,0x23D); (0x19E,1,1,0x220);
   (0x1A1,3,2,0x1A0); (0x1A8,1,1,0x1A7); (0x1AD,1,1,0x1AC); (0x1B0,1,1,0x1AF);
   (0x1B4,2,2,0x1B3); (0x1B9,1,1,0x1B8); (0x1BD,1,1,0x1BC); (0x1BF,1,1,0x1F7);
   (0x1C5,1,1,0x1C4); (0x1C6,1,1,0x1C4); (0x1C8,1,1,0x1C7); (0x1C9,1,1,0x1C7);
   (0x1CB,1,1,0x1CA); (0x1CC,1,1,0x1CA); (0x1CE,8,2,0x1CD); (0x1DD,1,1,0x18E);
   (0x1DF,9,2,0x1DE); (0x1F2,1,1,0x1F1); (0x1F3,1,1,0x1F1); (0x1F5,1,1,0x1F4);
   (0x1F9,20,2,0x1F8); (0x223,9,2,0x222); (0x23C,1,1,0x23B); (0x23F,2,1,0x2C7E);
   (0x242,1,1,0x241); (0x247,5,2,0x246); (0x250,1,1,0x2C6F); (0x251,1,1,0x2C6D);
   (0x252,1,1,0x2C70); (0x253,1,1,0x181); (0x254,1,1,0x186); (0x256,2,1,0x189);
   (0x259,1,1,0x18F); (0x25B,1,1,0x190); (0x25C,1,1,0xA7AB); (0x260,1,1,0x193);
   (0x261,1,1,0xA7AC); (0x263,1,1,0x194); (0x265,1,1,0xA78D); (0x266,1,1,0xA7AA);
   (0x268,1,1,0x197); (0x269,1,1,0x196); (0x26A,1,1,0xA7AE); (0x26B,1,1,0x2C62);
   (0x26C,1,1,0xA7AD); (0x26F,1,1,0x19C); (0x271,1,1,0x2C6E); (0x272,1,1,0x19D);
   (0x275,1,1,0x19F); (0x27D,1,1,0x2C64); (0x280,1,1,0x1A6); (0x282,1,1,0xA7C5);
   (0x283,1,1,0x1A9); (0x287,1,1,0xA7B1); (0x288,1,1,0x1AE); (0x289,1,1,0x244);
   (0x28A,2,1,0x1B1); (0x28C,1,1,0x245); (0x292,1,1,0x1B7); (0x29D,1,1,0xA7B2);
   (0x29E,1,1,0xA7B0); (0x345,1,1,0x399); (0x371,2,2,0x370); (0x377,1,1,0x376);
   (0x37B,3,1,0x3FD); (0x3AC,1,1,0x386); (0x3AD,3,1,0x388); (0x3B1,17,1,0x391);
   (0x3C2,1,1,0x3A3); (0x3C3,9,1,0x3A3); (0x3CC,1,1,0x38C); (0x3CD,2,1,0x38E);
   (0x3D0,1,1,0x392); (0x3D1,1,1,0x398); (0x3D5,1,1,0x3A6); (0x3D6,1,1,0x3A0);
   (0x3D7,1,1,0x3CF); (0x3D9,12,2,0x3D8); (0x3F0,1,1,0x39A); (0x3F1,1,1,0x3A1);
   (0x3F2,1,1,0x3F9); (0x3F3,1,1,0x37F); (0x3F5,1,1,0x395); (0x3F8,1,1,0x3F7);
   (0x3FB,1,1,0x3FA); (0x430,32,1,0x410); (0x450,16,1,0x400); (0x461,17,2,0x460);
   (0x48B,27,2,0x48A); (0x4C2,7,2,0x4C1); (0x4CF,1,1,0x4C0); (0x4D1,48,2,0x4D0);
   (0x561,38,1,0x531); (0x10D0,43,1,0x1C90); (0x10FD,3,1,0x1CBD); (0x13F8,6,1,0x13F0);
   (0x1C80,1,1,0x412); (0x1C81,1,1,0x414); (0x1C82,1,1,0x41E); (0x1C83,2,1,0x421);
   (0x1C85,1,1,0x422); (0x1C86,1,1,0x42A); (0x1C87,1,1,0x462); (0x1C88,1,1,0xA64A);
   (0x1D79,1,1,0xA77D); (0x1D7D,1,1,0x2C63); (0x1D8E,1,1,0xA7C6); (0x1E01,75,2,0x1E00);
   (0x1E9B,1,1,0x1E60); (0x1EA1,48,2,0x1EA0); (0x1F00,8,1,0x1F08); (0x1F10,6,1,0x1F18);
   (0x1F20,8,1,0x1F28); (0x1F30,8,1,0x1F38); (0x1F40,6,1,0x1F48); (0x1F51,4,2,0x1F59);
   (0x1F60,8,1,0x1F68); (0x1F70,2,1,0x1FBA); (0x1F72,4,1,0x1FC8); (0x1F76,2,1,0x1FDA);
   (0x1F78,2,1,0x1FF8); (0x1F7A,2,1,0x1FEA); (0x1F7C,2,1,0x1FFA); (0x1FB0,2,1,0x1FB8);
   (0x1FBE,1,1,0x399); (0x1FD0,2,1,0x1FD8); (0x1FE0,2,1,0x1FE8); (0x1FE5,1,1,0x1FEC);
   (0x214E,1,1,0x2132); (0x2170,16,1,0x2160); (0x2184,1,1,0x2183); (0x24D0,26,1,0x24B6);
   (0x2C30,48,1,0x2C00); (0x2C61,1,1,0x2C60); (0x2C65,1,1,0x23A); (0x2C66,1,1,0x23E);
   (0x2C68,3,2,0x2C67); (0x2C73,1,1,0x2C72); (0x2C76,1,1,0x2C75); (0x2C81,50,2,0x2C80);
   (0x2CEC,2,2,0x2CEB); (0x2CF3,1,1,0x2CF2); (0x2D00,38,1,0x10A0); (0x2D27,1,1,0x10C7);
   (0x2D2D,1,1,0x10CD); (0xA641,23,2,0xA640); (0xA681,14,2,0xA680); (0xA723,7,2,0xA722);
   (0xA733,31,2,0xA732); (0xA77A,2,2,0xA779); (0xA77F,5,2,0xA77E); (0xA78C,1,1,0xA78B);
   (0xA791,2,2,0xA790); (0xA794,1,1,0xA7C4); (0xA797,10,2,0xA796); (0xA7B5,8,2,0xA7B4);
   (0xA7C8,2,2,0xA7C7); (0xA7D1,1,1,0xA7D0); (0xA7D7,2,2,0xA7D6); (0xA7F6,1,1,0xA7F5);
   (0xAB53,1,1,0xA7B3); (0xAB70,80,1,0x13A0); (0xFF41,26,1,0xFF21); (0x10428,40,1,0x10400);
   (0x104D8,36,1,0x104B0); (0x10597,11,1,0x10570); (0x105A3,15,1,0x1057C);
   (0x105B3,7,1,0x1058C); (0x105BB,2,1,0x10594); (0x10CC0,51,1,0x10C80);
   (0x118C0,32,1,0x118A0); (0x16E60,32,1,0x16E40); (0x1E922,34,1,0x1E900)]%N.

(* SpecialCasing.txt: the unconditional uppercase mappings to more than one
   code point *)
Definition upper_special : list (N * list N) :=
  [(0xDF,[0x53;0x53]); (0x149,[0x2BC;0x4E]); (0x1F0,[0x4A;0x30C]);
   (0x390,[0x399;0x308;0x301]); (0x3B0,[0x3A5;0x308;0x301]); (0x587,[0x535;0x552]);
   (0x1E96,[0x48;0x331]); (0x1E97,[0x54;0x308]); (0x1E98,[0x57;0x30A]);
   (0x1E99,[0x59;0x30A]); (0x1E9A,[0x41;0x2BE]); (0x1F50,[0x3A5;0x313]);
   (0x1F52,[0x3A5;0x313;0x300]); (0x1F54,[0x3A5;0x313;0x301]); (0x1F56,[0x3A5;0x313;0x342]);
   (0x1F80,[0x1F08;0x399]); (0x1F81,[0x1F09;0x399]); (0x1F82,[0x1F0A;0x399]);
   (0x1F83,[0x1F0B;0x399]); (0x1F84,[0x1F0C;0x399]); (0x1F85,[0x1F0D;0x399]);
   (0x1F86,[0x1F0E;0x399]); (0x1F87,[0x1F0F;0x399]); (0x1F88,[0x1F08;0x399]);
   (0x1F89,[0x1F09;0x399]); (0x1F8A,[0x1F0A;0x399]); (0x1F8B,[0x1F0B;0x399]);
   (0x1F8C,[0x1F0C;0x399]); (0x1F8D,[0x1F0D;0x399]); (0x1F8E,[0x1F0E;0x399]);
   (0x1F8F,[0x1F0F;0x399]); (0x1F90,[0x1F28;0x399]); (0x1F91,[0x1F29;0x399]);
   (0x1F92,[0x1F2A;0x399]); (0x1F93,[0x1F2B;0x399]); (0x1F94,[0x1F2C;0x399]);
   (0x1F95,[0x1F2D;0x399]); (0x1F96,[0x1F2E;0x399]); (0x1F97,[0x1F2F;0x399]);
   (0x1F98,[0x1F28;0x399]); (0x1F99,[0x1F29;0x399]); (0x1F9A,[0x1F2A;0x399]);
   (0x1F9B,[0x1F2B;0x399]); (0x1F9C,[0x1F2C;0x399]); (0x1F9D,[0x1F2D;0x399]);
   (0x1F9E,[0x1F2E;0x399]); (0x1F9F,[0x1F2F;0x399]); (0x1FA0,[0x1F68;0x399]);
   (0x1FA1,[0x1F69;0x399]); (0x1FA2,[0x1F6A;0x399]); (0x1FA3,[0x1F6B;0x399]);
   (0x1FA4,[0x1F6C;0x399]); (0x1FA5,[0x1F6D;0x399]); (0x1FA6,[0x1F6E;0x399]);
   (0x1FA7,[0x1F6F;0x399]); (0x1FA8,[0x1F68;0x399]); (0x1FA9,[0x1F69;0x399]);
   (0x1FAA,[0x1F6A;0x399]); (0x1FAB,[0x1F6B;0x399]); (0x1FAC,[0x1F6C;0x399]);
   (0x1FAD,[0x1F6D;0x399]); (0x1FAE,[0x1F6E;0x399]); (0x1FAF,[0x1F6F;0x399]);
   (0x1FB2,[0x1FBA;0x399]); (0x1FB3,[0x391;0x399]); (0x1FB4,[0x386;0x399]);
   (0x1FB6,[0x391;0x342]); (0x1FB7,[0x391;0x342;0x399]); (0x1FBC,[0x391;0x399]);
   (0x1FC2,[0x1FCA;0x399]); (0x1FC3,[0x397;0x399]); (0x1FC4,[0x389;0x399]);
   (0x1FC6,[0x397;0x342]); (0x1FC7,[0x397;0x342;0x399]); (0x1FCC,[0x397;0x399]);
   (0x1FD2,[0x399;0x308;0x300]); (0x1FD3,[0x399;0x308;0x301]); (0x1FD6,[0x399;0x342]);
   (0x1FD7,[0x399;0x308;0x342]); (0x1FE2,[0x3A5;0x308;0x300]); (0x1FE3,[0x3A5;0x308;0x301]);
   (0x1FE4,[0x3A1;0x313]); (0x1FE6,[0x3A5;0x342]); (0x1FE7,[0x3A5;0x308;0x342]);
   (0x1FF2,[0x1FFA;0x399]); (0x1FF3,[0x3A9;0x399]); (0x1FF4,[0x38F;0x399]);
   (0x1FF6,[0x3A9;0x342]); (0x1FF7,[0x3A9;0x342;0x399]); (0x1FFC,[0x3A9;0x399]);
   (0xFB00,[0x46;0x46]); (0xFB01,[0x46;0x49]); (0xFB02,[0x46;0x4C]);
   (0xFB03,[0x46;0x46;0x49]); (0xFB04,[0x46;0x46;0x4C]); (0xFB05,[0x53;0x54]);
   (0xFB06,[0x53;0x54]); (0xFB13,[0x544;0x546]); (0xFB14,[0x544;0x535]);
   (0xFB15,[0x544;0x53B]); (0xFB16,[0x54E;0x546]); (0xFB17,[0x544;0x53D])]%N.

(* UnicodeData.txt, Simple_Lowercase_Mapping *)
Definition lower_runs : list (N * N * N * N) :=
  [(0x41,26,1,0x61); (0xC0,23,1,0xE0); (0xD8,7,1,0xF8); (0x100,24,2,0x101);
   (0x132,3,2,0x133); (0x139,8,2,0x13A); (0x14A,23,2,0x14B); (0x178,1,1,0xFF);
   (0x179,3,2,0x17A); (0x181,1,1,0x253); (0x182,2,2,0x183); (0x186,1,1,0x254);
   (0x187,1,1,0x188); (0x189,2,1,0x256); (0x18B,1,1,0x18C); (0x18E,1,1,0x1DD);
   (0x18F,1,1,0x259); (0x190,1,1,0x25B); (0x191,1,1,0x192); (0x193,1,1,0x260);
   (0x194,1,1,0x263); (0x196,1,1,0x269); (0x197,1,1,0x268); (0x198,1,1,0x199);
   (0x19C,1,1,0x26F); (0x19D,1,1,0x272); (0x19F,1,1,0x275); (0x1A0,3,2,0x1A1);
   (0x1A6,1,1,0x280); (0x1A7,1,1,0x1A8); (0x1A9,1,1,0x283); (0x1AC,1,1,0x1AD);
   (0x1AE,1,1,0x288); (0x1AF,1,1,0x1B0); (0x1B1,2,1,0x28A); (0x1B3,2,2,0x1B4);
   (0x1B7,1,1,0x292); (0x1B8,1,1,0x1B9); (0x1BC,1,1,0x1BD); (0x1C4,1,1,0x1C6);
   (0x1C5,1,1,0x1C6); (0x1C7,1,1,0x1C9); (0x1C8,1,1,0x1C9); (0x1CA,1,1,0x1CC);
   (0x1CB,9,2,0x1CC); (0x1DE,9,2,0x1DF); (0x1F1,1,1,0x1F3); (0x1F2,2,2,0x1F3);
   (0x1F6,1,1,0x195); (0x1F7,1,1,0x1BF); (0x1F8,20,2,0x1F9); (0x220,1,1,0x19E);
   (0x222,9,2,0x223); (0x23A,1,1,0x2C65); (0x23B,1,1,0x23C); (0x23D,1,1,0x19A);
   (0x23E,1,1,0x2C66); (0x241,1,1,0x242); (0x243,1,1,0x180); (0x244,1,1,0x289);
   (0x245,1,1,0x28C); (0x246,5,2,0x247); (0x370,2,2,0x371); (0x376,1,1,0x377);
   (0x37F,1,1,0x3F3); (0x386,1,1,0x3AC); (0x388,3,1,0x3AD); (0x38C,1,1,0x3CC);
   (0x38E,2,1,0x3CD); (0x391,17,1,0x3B1); (0x3A3,9,1,0x3C3); (0x3CF,1,1,0x3D7);
   (0x3D8,12,2,0x3D9); (0x3F4,1,1,0x3B8); (0x3F7,1,1,0x3F8); (0x3F9,1,1,0x3F2);
   (0x3FA,1,1,0x3FB); (0x3FD,3,1,0x37B); (0x400,16,1,0x450); (0x410,32,1,0x430);
   (0x460,17,2,0x461); (0x48A,27,2,0x48B); (0x4C0,1,1,0x4CF); (0x4C1,7,2,0x4C2);
   (0x4D0,48,2,0x4D1); (0x531,38,1,0x561); (0x10A0,38,1,0x2D00); (0x10C7,1,1,0x2D27);
   (0x10CD,1,1,0x2D2D); (0x13A0,80,1,0xAB70); (0x13F0,6,1,0x13F8); (0x1C90,43,1,0x10D0);
   (0x1CBD,3,1,0x10FD); (0x1E00,75,2,0x1E01); (0x1E9E,1,1,0xDF); (0x1EA0,48,2,0x1EA1);
   (0x1F08,8,1,0x1F00); (0x1F18,6,1,0x1F10); (0x1F28,8,1,0x1F20); (0x1F38,8,1,0x1F30);
   (0x1F48,6,1,0x1F40); (0x1F59,4,2,0x1F51); (0x1F68,8,1,0x1F60); (0x1F88,8,1,0x1F80);
   (0x1F98,8,1,0x1F90); (0x1FA8,8,1,0x1FA0); (0x1FB8,2,1,0x1FB0); (0x1FBA,2,1,0x1F70);
   (0x1FBC,1,1,0x1FB3); (0x1FC8,4,1,0x1F72); (0x1FCC,1,1,0x1FC3); (0x1FD8,2,1,0x1FD0);
   (0x1FDA,2,1,0x1F76); (0x1FE8,2,1,0x1FE0); (0x1FEA,2,1,0x1F7A); (0x1FEC,1,1,0x1FE5);
   (0x1FF8,2,1,0x1F78); (0x1FFA,2,1,0x1F7C); (0x1FFC,1,1,0x1FF3); (0x2126,1,1,0x3C9);
   (0x212A,1,1,0x6B); (0x212B,1,1,0xE5); (0x2132,1,1,0x214E); (0x2160,16,1,0x2170);
   (0x2183,1,1,0x2184); (0x24B6,26,1,0x24D0); (0x2C00,48,1,0x2C30); (0x2C60,1,1,0x2C61);
   (0x2C62,1,1,0x26B); (0x2C63,1,1,0x1D7D); (0x2C64,1,1,0x27D); (0x2C67,3,2,0x2C68);
   (0x2C6D,1,1,0x251); (0x2C6E,1,1,0x271); (0x2C6F,1,1,0x250); (0x2C70,1,1,0x252);
   (0x2C72,1,1,0x2C73); (0x2C75,1,1,0x2C76); (0x2C7E,2,1,0x23F); (0x2C80,50,2,0x2C81);
   (0x2CEB,2,2,0x2CEC); (0x2CF2,1,1,0x2CF3); (0xA640,23,2,0xA641); (0xA680,14,2,0xA681);
   (0xA722,7,2,0xA723); (0xA732,31,2,0xA733); (0xA779,2,2,0xA77A); (0xA77D,1,1,0x1D79);
   (0xA77E,5,2,0xA77F); (0xA78B,1,1,0xA78C); (0xA78D,1,1,0x265); (0xA790,2,2,0xA791);
   (0xA796,10,2,0xA797); (0xA7AA,1,1,0x266); (0xA7AB,1,1,0x25C); (0xA7AC,1,1,0x261);
   (0xA7AD,1,1,0x26C); (0xA7AE,1,1,0x26A); (0xA7B0,1,1,0x29E); (0xA7B1,1,1,0x287);
   (0xA7B2,1,1,0x29D); (0xA7B3,1,1,0xAB53); (0xA7B4,8,2,0xA7B5); (0xA7C4,1,1,0xA794);
   (0xA7C5,1,1,0x282); (0xA7C6,1,1,0x1D8E); (0xA7C7,2,2,0xA7C8); (0xA7D0,1,1,0xA7D1);
   (0xA7D6,2,2,0xA7D7); (0xA7F5,1,1,0xA7F6); (0xFF21,26,1,0xFF41); (0x10400,40,1,0x10428);
   (0x104B0,36,1,0x104D8); (0x10570,11,1,0x10597); (0x1057C,15,1,0x105A3);
   (0x1058C,7,1,0x105B3); (0x10594,2,1,0x105BB); (0x10C80,51,1,0x10CC0);
   (0x118A0,32,1,0x118C0); (0x16E40,32,1,0x16E60); (0x1E900,34,1,0x1E922)]%N.

(* SpecialCasing.txt: the unconditional lowercase mapping to more than one
   code point *)
Definition lower_special : list (N * list N) :=
  [(0x130,[0x69;0x307])]%N.

(* DerivedCoreProperties.txt: the ranges of Case_Ignorable *)
Definition case_ignorable : list (N * N) :=
  [(0x27,0x27); (0x2E,0x2E); (0x3A,0x3A); (0x5E,0x5E); (0x60,0x60); (0xA8,0xA8);
   (0xAD,0xAD); (0xAF,0xAF); (0xB4,0xB4); (0xB7,0xB8); (0x2B0,0x36F); (0x374,0x375);
   (0x37A,0x37A); (0x384,0x385); (0x387,0x387); (0x483,0x489); (0x559,0x559); (0x55F,0x55F);
   (0x591,0x5BD); (0x5BF,0x5BF); (0x5C1,0x5C2); (0x5C4,0x5C5); (0x5C7,0x5C7); (0x5F4,0x5F4);
   (0x600,0x605); (0x610,0x61A); (0x61C,0x61C); (0x640,0x640); (0x64B,0x65F); (0x670,0x670);
   (0x6D6,0x6DD); (0x6DF,0x6E8); (0x6EA,0x6ED); (0x70F,0x70F); (0x711,0x711); (0x730,0x74A);
   (0x7A6,0x7B0); (0x7EB,0x7F5); (0x7FA,0x7FA); (0x7FD,0x7FD); (0x816,0x82D); (0x859,0x85B);
   (0x888,0x888); (0x890,0x891); (0x898,0x89F); (0x8C9,0x902); (0x93A,0x93A); (0x93C,0x93C);
   (0x941,0x948); (0x94D,0x94D); (0x951,0x957); (0x962,0x963); (0x971,0x971); (0x981,0x981);
   (0x9BC,0x9BC); (0x9C1,0x9C4); (0x9CD,0x9CD); (0x9E2,0x9E3); (0x9FE,0x9FE); (0xA01,0xA02);
   (0xA3C,0xA3C); (0xA41,0xA42); (0xA47,0xA48); (0xA4B,0xA4D); (0xA51,0xA51); (0xA70,0xA71);
   (0xA75,0xA75); (0xA81,0xA82); (0xABC,0xABC); (0xAC1,0xAC5); (0xAC7,0xAC8); (0xACD,0xACD);
   (0xAE2,0xAE3); (0xAFA,0xAFF); (0xB01,0xB01); (0xB3C,0xB3C); (0xB3F,0xB3F); (0xB41,0xB44);
   (0xB4D,0xB4D); (0xB55,0xB56); (0xB62,0xB63); (0xB82,0xB82); (0xBC0,0xBC0); (0xBCD,0xBCD);
   (0xC00,0xC00); (0xC04,0xC04); (0xC3C,0xC3C); (0xC3E,0xC40); (0xC46,0xC48); (0xC4A,0xC4D);
   (0xC55,0xC56); (0xC62,0xC63); (0xC81,0xC81); (0xCBC,0xCBC); (0xCBF,0xCBF); (0xCC6,0xCC6);
   (0xCCC,0xCCD); (0xCE2,0xCE3); (0xD00,0xD01); (0xD3B,0xD3C); (0xD41,0xD44); (0xD4D,0xD4D);
   (0xD62,0xD63); (0xD81,0xD81); (0xDCA,0xDCA); (0xDD2,0xDD4); (0xDD6,0xDD6); (0xE31,0xE31);
   (0xE34,0xE3A); (0xE46,0xE4E); (0xEB1,0xEB1); (0xEB4,0xEBC); (0xEC6,0xEC6); (0xEC8,0xECD);
   (0xF18,0xF19); (0xF35,0xF35); (0xF37,0xF37); (0xF39,0xF39); (0xF71,0xF7E); (0xF80,0xF84);
   (0xF86,0xF87); (0xF8D,0xF97); (0xF99,0xFBC); (0xFC6,0xFC6); (0x102D,0x1030);
   (0x1032,0x1037); (0x1039,0x103A); (0x103D,0x103E); (0x1058,0x1059); (0x105E,0x1060);
   (0x1071,0x1074); (0x1082,0x1082); (0x1085,0x1086); (0x108D,0x108D); (0x109D,0x109D);
   (0x10FC,0x10FC); (0x135D,0x135F); (0x1712,0x1714); (0x1732,0x1733); (0x1752,0x1753);
   (0x1772,0x1773); (0x17B4,0x17B5); (0x17B7,0x17BD); (0x17C6,0x17C6); (0x17C9,0x17D3);
   (0x17D7,0x17D7); (0x17DD,0x17DD); (0x180B,0x180F); (0x1843,0x1843); (0x1885,0x1886);
   (0x18A9,0x18A9); (0x1920,0x1922); (0x1927,0x1928); (0x1932,0x1932); (0x1939,0x193B);
   (0x1A17,0x1A18); (0x1A1B,0x1A1B); (0x1A56,0x1A56); (0x1A58,0x1A5E); (0x1A60,0x1A60);
   (0x1A62,0x1A62); (0x1A65,0x1A6C); (0x1A73,0x1A7C); (0x1A7F,0x1A7F); (0x1AA7,0x1AA7);
   (0x1AB0,0x1ACE); (0x1B00,0x1B03); (0x1B34,0x1B34); (0x1B36,0x1B3A); (0x1B3C,0x1B3C);
   (0x1B42,0x1B42); (0x1B6B,0x1B73); (0x1B80,0x1B81); (0x1BA2,0x1BA5); (0x1BA8,0x1BA9);
   (0x1BAB,0x1BAD); (0x1BE6,0x1BE6); (0x1BE8,0x1BE9); (0x1BED,0x1BED); (0x1BEF,0x1BF1);
   (0x1C2C,0x1C33); (0x1C36,0x1C37); (0x1C78,0x1C7D); (0x1CD0,0x1CD2); (0x1CD4,0x1CE0);
   (0x1CE2,0x1CE8); (0x1CED,0x1CED); (0x1CF4,0x1CF4); (0x1CF8,0x1CF9); (0x1D2C,0x1D6A);
   (0x1D78,0x1D78); (0x1D9B,0x1DFF); (0x1FBD,0x1FBD); (0x1FBF,0x1FC1); (0x1FCD,0x1FCF);
   (0x1FDD,0x1FDF); (0x1FED,0x1FEF); (0x1FFD,0x1FFE); (0x200B,0x200F); (0x2018,0x2019);
   (0x2024,0x2024); (0x2027,0x2027); (0x202A,0x202E); (0x2060,0x2064); (0x2066,0x206F);
   (0x2071,0x2071); (0x207F,0x207F); (0x2090,0x209C); (0x20D0,0x20F0); (0x2C7C,0x2C7D);
   (0x2CEF,0x2CF1); (0x2D6F,0x2D6F); (0x2D7F,0x2D7F); (0x2DE0,0x2DFF); (0x2E2F,0x2E2F);
   (0x3005,0x3005); (0x302A,0x302D); (0x3031,0x3035); (0x303B,0x303B); (0x3099,0x309E);
   (0x30FC,0x30FE); (0xA015,0xA015); (0xA4F8,0xA4FD); (0xA60C,0xA60C); (0xA66F,0xA672);
   (0xA674,0xA67D); (0xA67F,0xA67F); (0xA69C,0xA69F); (0xA6F0,0xA6F1); (0xA700,0xA721);
   (0xA770,0xA770); (0xA788,0xA78A); (0xA7F2,0xA7F4); (0xA7F8,0xA7F9); (0xA802,0xA802);
   (0xA806,0xA806); (0xA80B,0xA80B); (0xA825,0xA826); (0xA82C,0xA82C); (0xA8C4,0xA8C5);
   (0xA8E0,0xA8F1); (0xA8FF,0xA8FF); (0xA926,0xA92D); (0xA947,0xA951); (0xA980,0xA982);
   (0xA9B3,0xA9B3); (0xA9B6,0xA9B9); (0xA9BC,0xA9BD); (0xA9CF,0xA9CF); (0xA9E5,0xA9E6);
   (0xAA29,0xAA2E); (0xAA31,0xAA32); (0xAA35,0xAA36); (0xAA43,0xAA43); (0xAA4C,0xAA4C);
   (0xAA70,0xAA70); (0xAA7C,0xAA7C); (0xAAB0,0xAAB0); (0xAAB2,0xAAB4); (0xAAB7,0xAAB8);
   (0xAABE,0xAABF); (0xAAC1,0xAAC1); (0xAADD,0xAADD); (0xAAEC,0xAAED); (0xAAF3,0xAAF4);
   (0xAAF6,0xAAF6); (0xAB5B,0xAB5F); (0xAB69,0xAB6B); (0xABE5,0xABE5); (0xABE8,0xABE8);
   (0xABED,0xABED); (0xFB1E,0xFB1E); (0xFBB2,0xFBC2); (0xFE00,0xFE0F); (0xFE13,0xFE13);
   (0xFE20,0xFE2F); (0xFE52,0xFE52); (0xFE55,0xFE55); (0xFEFF,0xFEFF); (0xFF07,0xFF07);
   (0xFF0E,0xFF0E); (0xFF1A,0xFF1A); (0xFF3E,0xFF3E); (0xFF40,0xFF40); (0xFF70,0xFF70);
   (0xFF9E,0xFF9F); (0xFFE3,0xFFE3); (0xFFF9,0xFFFB); (0x101FD,0x101FD); (0x102E0,0x102E0);
   (0x10376,0x1037A); (0x10780,0x10785); (0x10787,0x107B0); (0x107B2,0x107BA);
   (0x10A01,0x10A03); (0x10A05,0x10A06); (0x10A0C,0x10A0F); (0x10A38,0x10A3A);
   (0x10A3F,0x10A3F); (0x10AE5,0x10AE6); (0x10D24,0x10D27); (0x10EAB,0x10EAC);
   (0x10F46,0x10F50); (0x10F82,0x10F85); (0x11001,0x11001); (0x11038,0x11046);
   (0x11070,0x11070); (0x11073,0x11074); (0x1107F,0x11081); (0x110B3,0x110B6);
   (0x110B9,0x110BA); (0x110BD,0x110BD); (0x110C2,0x110C2); (0x110CD,0x110CD);
   (0x11100,0x11102); (0x11127,0x1112B); (0x1112D,0x11134); (0x11173,0x11173);
   (0x11180,0x11181); (0x111B6,0x111BE); (0x111C9,0x111CC); (0x111CF,0x111CF);
   (0x1122F,0x11231); (0x11234,0x11234); (0x11236,0x11237); (0x1123E,0x1123E);
   (0x112DF,0x112DF); (0x112E3,0x112EA); (0x11300,0x11301); (0x1133B,0x1133C);
   (0x11340,0x11340); (0x11366,0x1136C); (0x11370,0x11374); (0x11438,0x1143F);
   (0x11442,0x11444); (0x11446,0x11446); (0x1145E,0x1145E); (0x114B3,0x114B8);
   (0x114BA,0x114BA); (0x114BF,0x114C0); (0x114C2,0x114C3); (0x115B2,0x115B5);
   (0x115BC,0x115BD); (0x115BF,0x115C0); (0x115DC,0x115DD); (0x11633,0x1163A);
   (0x1163D,0x1163D); (0x1163F,0x11640); (0x116AB,0x116AB); (0x116AD,0x116AD);
   (0x116B0,0x116B5); (0x116B7,0x116B7); (0x1171D,0x1171F); (0x11722,0x11725);
   (0x11727,0x1172B); (0x1182F,0x11837); (0x11839,0x1183A); (0x1193B,0x1193C);
   (0x1193E,0x1193E); (0x11943,0x11943); (0x119D4,0x119D7); (0x119DA,0x119DB);
   (0x119E0,0x119E0); (0x11A01,0x11A0A); (0x11A33,0x11A38); (0x11A3B,0x11A3E);
   (0x11A47,0x11A47); (0x11A51,0x11A56); (0x11A59,0x11A5B); (0x11A8A,0x11A96);
   (0x11A98,0x11A99); (0x11C30,0x11C36); (0x11C38,0x11C3D); (0x11C3F,0x11C3F);
   (0x11C92,0x11CA7); (0x11CAA,0x11CB0); (0x11CB2,0x11CB3); (0x11CB5,0x11CB6);
   (0x11D31,0x11D36); (0x11D3A,0x11D3A); (0x11D3C,0x11D3D); (0x11D3F,0x11D45);
   (0x11D47,0x11D47); (0x11D90,0x11D91); (0x11D95,0x11D95); (0x11D97,0x11D97);
   (0x11EF3,0x11EF4); (0x13430,0x13438); (0x16AF0,0x16AF4); (0x16B30,0x16B36);
   (0x16B40,0x16B43); (0x16F4F,0x16F4F); (0x16F8F,0x16F9F); (0x16FE0,0x16FE1);
   (0x16FE3,0x16FE4); (0x1AFF0,0x1AFF3); (0x1AFF5,0x1AFFB); (0x1AFFD,0x1AFFE);
   (0x1BC9D,0x1BC9E); (0x1BCA0,0x1BCA3); (0x1CF00,0x1CF2D); (0x1CF30,0x1CF46);
   (0x1D167,0x1D169); (0x1D173,0x1D182); (0x1D185,0x1D18B); (0x1D1AA,0x1D1AD);
   (0x1D242,0x1D244); (0x1DA00,0x1DA36); (0x1DA3B,0x1DA6C); (0x1DA75,0x1DA75);
   (0x1DA84,0x1DA84); (0x1DA9B,0x1DA9F); (0x1DAA1,0x1DAAF); (0x1E000,0x1E006);
   (0x1E008,0x1E018); (0x1E01B,0x1E021); (0x1E023,0x1E024); (0x1E026,0x1E02A);
   (0x1E130,0x1E13D); (0x1E2AE,0x1E2AE); (0x1E2EC,0x1E2EF); (0x1E8D0,0x1E8D6);
   (0x1E944,0x1E94B); (0x1F3FB,0x1F3FF); (0xE0001,0xE0001); (0xE0020,0xE007F);
   (0xE0100,0xE01EF)]%N.

(* DerivedCoreProperties.txt: the ranges of Cased, without the code points
   that are Case_Ignorable as well *)
Definition cased_letter : list (N * N) :=
  [(0x41,0x5A); (0x61,0x7A); (0xAA,0xAA); (0xB5,0xB5); (0xBA,0xBA); (0xC0,0xD6);
   (0xD8,0xF6); (0xF8,0x1BA); (0x1BC,0x1BF); (0x1C4,0x293); (0x295,0x2AF); (0x370,0x373);
   (0x376,0x377); (0x37B,0x37D); (0x37F,0x37F); (0x386,0x386); (0x388,0x38A); (0x38C,0x38C);
   (0x38E,0x3A1); (0x3A3,0x3F5); (0x3F7,0x481); (0x48A,0x52F); (0x531,0x556); (0x560,0x588);
   (0x10A0,0x10C5); (0x10C7,0x10C7); (0x10CD,0x10CD); (0x10D0,0x10FA); (0x10FD,0x10FF);
   (0x13A0,0x13F5); (0x13F8,0x13FD); (0x1C80,0x1C88); (0x1C90,0x1CBA); (0x1CBD,0x1CBF);
   (0x1D00,0x1D2B); (0x1D6B,0x1D77); (0x1D79,0x1D9A); (0x1E00,0x1F15); (0x1F18,0x1F1D);
   (0x1F20,0x1F45); (0x1F48,0x1F4D); (0x1F50,0x1F57); (0x1F59,0x1F59); (0x1F5B,0x1F5B);
   (0x1F5D,0x1F5D); (0x1F5F,0x1F7D); (0x1F80,0x1FB4); (0x1FB6,0x1FBC); (0x1FBE,0x1FBE);
   (0x1FC2,0x1FC4); (0x1FC6,0x1FCC); (0x1FD0,0x1FD3); (0x1FD6,0x1FDB); (0x1FE0,0x1FEC);
   (0x1FF2,0x1FF4); (0x1FF6,0x1FFC); (0x2102,0x2102); (0x2107,0x2107); (0x210A,0x2113);
   (0x2115,0x2115); (0x2119,0x211D); (0x2124,0x2124); (0x2126,0x2126); (0x2128,0x2128);
   (0x212A,0x212D); (0x212F,0x2134); (0x2139,0x2139); (0x213C,0x213F); (0x2145,0x2149);
   (0x214E,0x214E); (0x2160,0x217F); (0x2183,0x2184); (0x24B6,0x24E9); (0x2C00,0x2C7B);
   (0x2C7E,0x2CE4); (0x2CEB,0x2CEE); (0x2CF2,0x2CF3); (0x2D00,0x2D25); (0x2D27,0x2D27);
   (0x2D2D,0x2D2D); (0xA640,0xA66D); (0xA680,0xA69B); (0xA722,0xA76F); (0xA771,0xA787);
   (0xA78B,0xA78E); (0xA790,0xA7CA); (0xA7D0,0xA7D1); (0xA7D3,0xA7D3); (0xA7D5,0xA7D9);
   (0xA7F5,0xA7F6); (0xA7FA,0xA7FA); (0xAB30,0xAB5A); (0xAB60,0xAB68); (0xAB70,0xABBF);
   (0xFB00,0xFB06); (0xFB13,0xFB17); (0xFF21,0xFF3A); (0xFF41,0xFF5A); (0x10400,0x1044F);
   (0x104B0,0x104D3); (0x104D8,0x104FB); (0x10570,0x1057A); (0x1057C,0x1058A);
   (0x1058C,0x10592); (0x10594,0x10595); (0x10597,0x105A1); (0x105A3,0x105B1);
   (0x105B3,0x105B9); (0x105BB,0x105BC); (0x10C80,0x10CB2); (0x10CC0,0x10CF2);
   (0x118A0,0x118DF); (0x16E40,0x16E7F); (0x1D400,0x1D454); (0x1D456,0x1D49C);
   (0x1D49E,0x1D49F); (0x1D4A2,0x1D4A2); (0x1D4A5,0x1D4A6); (0x1D4A9,0x1D4AC);
   (0x1D4AE,0x1D4B9); (0x1D4BB,0x1D4BB); (0x1D4BD,0x1D4C3); (0x1D4C5,0x1D505);
   (0x1D507,0x1D50A); (0x1D50D,0x1D514); (0x1D516,0x1D51C); (0x1D51E,0x1D539);
   (0x1D53B,0x1D53E); (0x1D540,0x1D544); (0x1D546,0x1D546); (0x1D54A,0x1D550);
   (0x1D552,0x1D6A5); (0x1D6A8,0x1D6C0); (0x1D6C2,0x1D6DA); (0x1D6DC,0x1D6FA);
   (0x1D6FC,0x1D714); (0x1D716,0x1D734); (0x1D736,0x1D74E); (0x1D750,0x1D76E);
   (0x1D770,0x1D788); (0x1D78A,0x1D7A8); (0x1D7AA,0x1D7C2); (0x1D7C4,0x1D7CB);
   (0x1DF00,0x1DF09); (0x1DF0B,0x1DF1E); (0x1E900,0x1E943); (0x1F130,0x1F149);
   (0x1F150,0x1F169); (0x1F170,0x1F189)]%N.

End Unicode.

(** *** Strings

    A JavaScript string is kept as its UTF-8 form, the form in which it
    arrives in the JSON body (a lone surrogate, which UTF-8 proper leaves
    out, as the three bytes of its value).  [trim], [toUpperCase] and
    [toLowerCase] are the methods of String.prototype that the [trim],
    [uppercase] and [lowercase] options of a schema path call.  They work
    code point by code point: [trim] on the white space and line
    terminators of ECMAScript, the case conversions on the default case
    conversion of Unicode, whose tables (Unicode Character Database 14.0)
    are in [Unicode]. *)

(* a byte 10xxxxxx, which continues a UTF-8 sequence *)
Definition is_continuation (n : N) : bool := ((0x80 <=? n) && (n <? 0xC0))%N.

Definition continues (s : string) : bool :=
  match s with
  | String c _ => is_continuation (N_of_ascii c)
  | EmptyString => false
  end.

(** The UTF-8 sequences of a string, one per code point: a byte that
    continues a sequence belongs to the sequence before it. *)
Fixpoint utf8_split (s : string) : list string :=
  match s with
  | EmptyString => []
  | String c s' =>
      match utf8_split s' with
      | x :: xs =>
          if continues x then String c x :: xs
          else String c EmptyString :: x :: xs
      | [] => [String c EmptyString]
      end
  end.

(** The code point of a UTF-8 sequence; [None] for bytes that are not the
    sequence of a code point. *)
Definition code_point (x : string) : option N :=
  match N_of_ascii <$> list_ascii_of_string x with
  | [a] => if (a <? 0x80)%N then Some a else None
  | [a; b] =>
      let c := ((a - 0xC0) * 0x40 + (b - 0x80))%N in
      if ((0xC0 <=? a) && (a <? 0xE0))%N && is_continuation b && (0x80 <=? c)%N
      then Some c else None
  | [a; b; c] =>
      let v := ((a - 0xE0) * 0x1000 + (b - 0x80) * 0x40 + (c - 0x80))%N in
      if ((0xE0 <=? a) && (a <? 0xF0))%N && is_continuation b && is_continuation c
         && (0x800 <=? v)%N
      then Some v else None
  | [a; b; c; d] =>
      let v := ((a - 0xF0) * 0x40000 + (b - 0x80) * 0x1000 + (c - 0x80) * 0x40
                + (d - 0x80))%N in
      if ((0xF0 <=? a) && (a <? 0xF8))%N && is_continuation b && is_continuation c
         && is_continuation d && ((0x10000 <=? v) && (v <? 0x110000))%N
      then Some v else None
  | _ => None
  end.

(** The UTF-8 sequence of a code point. *)
Definition encode (c : N) : string :=
  string_of_list_ascii (ascii_of_N <$>
    (if c <? 0x80 then [c]
     else if c <? 0x800 then [0xC0 + c / 0x40; 0x80 + c mod 0x40]
     else if c <? 0x10000 then
       [0xE0 + c / 0x1000; 0x80 + c / 0x40 mod 0x40; 0x80 + c mod 0x40]
     else
       [0xF0 + c / 0x40000; 0x80 + c / 0x1000 mod 0x40; 0x80 + c / 0x40 mod 0x40;
        0x80 + c mod 0x40])%N).

Definition join (xs : list string) : string := foldr String.append EmptyString xs.

Definition utf8 (cps : list N) : string := join (encode <$> cps).

(* WhiteSpace and LineTerminator of ECMAScript: TAB, LF, VT, FF, CR, the
   space separators (Zs) of Unicode, LS, PS and the byte order mark *)
Definition white_space : list N :=
  [0x9; 0xA; 0xB; 0xC; 0xD; 0x20; 0xA0; 0x1680; 0x2000; 0x2001; 0x2002; 0x2003;
   0x2004; 0x2005; 0x2006; 0x2007; 0x2008; 0x2009; 0x200A; 0x2028; 0x2029;
   0x202F; 0x205F; 0x3000; 0xFEFF]%N.

Definition is_space (x : string) : bool :=
  match code_point x with
  | Some c => bool_decide (c ∈ white_space)
  | None => false
  end.

Fixpoint drop_spaces (xs : list string) : list string :=
  match xs with
  | x :: xs' => if is_space x then drop_spaces xs' else xs
  | [] => []
  end.

Definition trimStart (s : string) : string := join (drop_spaces (utf8_split s)).

Definition trimEnd (s : string) : string :=
  join (reverse (drop_spaces (reverse (utf8_split s)))).

Definition trim (s : string) : string := trimEnd (trimStart s).

(** The mappings of a table of runs and of special cases; a code point
    outside the table has no mapping. *)
Definition expand (r : N * N * N * N) : list (N * list N) :=
  let '(c, n, step, u) := r in
  (λ i, (c + N.of_nat i * step, [u + N.of_nat i * step])%N) <$> seq 0 (N.to_nat n).

Fixpoint assoc (c : N) (table : list (N * list N)) : option (list N) :=
  match table with
  | (k, v) :: rest => if (k =? c)%N then Some v else assoc c rest
  | [] => None
  end.

Definition upper_table : list (N * list N) :=
  flat_map expand Unicode.upper_runs ++ Unicode.upper_special.

Definition lower_table : list (N * list N) :=
  flat_map expand Unicode.lower_runs ++ Unicode.lower_special.

(* one code point under a case mapping *)
Definition map_case (table : list (N * list N)) (x : string) : string :=
  match code_point x ≫= λ c, assoc c table with
  | Some v => utf8 v
  | None => x
  end.

Definition toUpperCase (s : string) : string :=
  join (map_case upper_table <$> utf8_split s).

Definition in_ranges (ranges : list (N * N)) (x : string) : bool :=
  match code_point x with
  | Some c => existsb (λ r, (fst r <=? c) && (c <=? snd r))%N ranges
  | None => false
  end.

(** Final_Sigma of SpecialCasing.txt: a capital sigma that ends a word is
    lowered to the final form.  [cased_next xs]: the first code point of
    [xs] that is not case-ignorable is a cased letter. *)
Fixpoint cased_next (xs : list string) : bool :=
  match xs with
  | x :: xs' =>
      if in_ranges Unicode.case_ignorable x then cased_next xs'
      else in_ranges Unicode.cased_letter x
  | [] => false
  end.

Definition final_sigma (before after : list string) : bool :=
  cased_next before && negb (cased_next after).

(* [before] holds the code points already passed, the nearest first *)
Fixpoint lower_from (before xs : list string) : list string :=
  match xs with
  | x :: xs' =>
      (if String.eqb x (encode 0x3A3) && final_sigma before xs' then encode 0x3C2
       else map_case lower_table x) :: lower_from (x :: before) xs'
  | [] => []
  end.

Definition toLowerCase (s : string) : string :=
  join (lower_from [] (utf8_split s)).

(** *** What the conversions do to the sequences of a string

    The notions in which the properties of [utf8_split] and of the case
    conversions are stated. *)

(** A UTF-8 sequence as [utf8_split] cuts it: a byte and the bytes that
    continue it. *)
Definition is_unit (x : string) : bool :=
  match x with
  | String _ t => forallb (λ c, is_continuation (N_of_ascii c)) (list_ascii_of_string t)
  | EmptyString => false
  end.

(** A string that [utf8_split] cuts off where it was joined to others. *)
Definition piece (o : string) : Prop := o ≠ "" ∧ continues o = false.

(** A sequence that a case conversion leaves alone. *)
Definition fixed (table : list (N * list N)) (y : string) : Prop :=
  is_unit y = true ∧ map_case table y = y.

(* the check of [piece] and [fixed] on the image of a table entry *)
Definition settled (table : list (N * list N)) (o : string) : bool :=
  negb (String.eqb o "") && negb (continues o)
  && forallb (λ y, is_unit y && String.eqb (map_case table y) y) (utf8_split o).

Definition table_settled (table : list (N * list N)) : bool :=
  forallb (λ e, settled table (utf8 e.2)) table.

(** What a conversion makes of one sequence [x]: [x] itself, left alone, or
    a string that starts a sequence and consists of sequences that are left
    alone. *)
Definition outcome (table : list (N * list N)) (x o : string) : Prop :=
  (o = x ∧ map_case table x = x) ∨ (piece o ∧ Forall (fixed table) (utf8_split o)).

(** *** Casting a request string to an ObjectId

    The cast is Mongoose's, not the repository's: a string of 24 hexadecimal
    digits (either case) denotes the ObjectId with that value, any other
    string fails to cast. *)

Definition hex_digit (c : ascii) : option N :=
  let n := N_of_ascii c in
  if ((48 <=? n) && (n <=? 57))%N then Some (n - 48)%N
  else if ((97 <=? n) && (n <=? 102))%N then Some (n - 87)%N
  else if ((65 <=? n) && (n <=? 70))%N then Some (n - 55)%N
  else None.

Fixpoint hex_value (s : string) (acc : N) : option N :=
  match s with
  | EmptyString => Some acc
  | String c s' => d ← hex_digit c; hex_value s' (16 * acc + d)%N
  end.

Definition castObjectId (s : string) : option ObjectId :=
  if Nat.eqb (String.length s) 24 then hex_value s 0%N else None.

(** *** The email pattern of userModel.js

    [/^\w+([\.-]?\w+)*@\w+([\.-]?\w+)*(\.\w{2,3})+$/], matched with
    Brzozowski derivatives. *)

Inductive regex : Type :=
  | Void
  | Eps
  | Chr (p : ascii → bool)
  | Seq (r s : regex)
  | Alt (r s : regex)
  | Star (r : regex).

Fixpoint nullable (r : regex) : bool :=
  match r with
  | Void => false
  | Eps => true
  | Chr _ => false
  | Seq r s => nullable r && nullable s
  | Alt r s => nullable r || nullable s
  | Star _ => true
  end.

Fixpoint deriv (c : ascii) (r : regex) : regex :=
  match r with
  | Void => Void
  | Eps => Void
  | Chr p => if p c then Eps else Void
  | Seq r s =>
      if nullable r then Alt (Seq (deriv c r) s) (deriv c s)
      else Seq (deriv c r) s
  | Alt r s => Alt (deriv c r) (deriv c s)
  | Star r => Seq (deriv c r) (Star r)
  end.

Fixpoint matches (r : regex) (s : string) : bool :=
  match s with
  | EmptyString => nullable r
  | String c s' => matches (deriv c r) s'
  end.

Definition plus (r : regex) : regex := Seq r (Star r).
Definition opt (r : regex) : regex := Alt Eps r.

(* \w *)
Definition is_word (c : ascii) : bool :=
  let n := N_of_ascii c in
  ((48 <=? n) && (n <=? 57) || (65 <=? n) && (n <=? 90)
   || (97 <=? n) && (n <=? 122) || (n =? 95))%N.

Definition is_char (d : ascii) (c : ascii) : bool := Ascii.eqb c d.

Definition email_pattern : regex :=
  let w := Chr is_word in
  let sep := opt (Alt (Chr (is_char ".")) (Chr (is_char "-"))) in
  let label := Seq (plus w) (Star (Seq sep (plus w))) in
  Seq label
    (Seq (Chr (is_char "@"))
       (Seq label
          (plus (Seq (Chr (is_char ".")) (Seq w (Seq w (opt w))))))).

(** ** Errors thrown inside a handler *)

Inductive JsError : Type :=
  | CastError            (* a value that is no ObjectId in a query *)
  | ValidationError (msg : string)
  | DuplicateKey         (* MongoServerError E11000 *)
  | TypeError.           (* a property read on undefined *)

(* error.code *)
Definition error_code (e : JsError) : option N :=
  match e with DuplicateKey => Some 11000%N | _ => None end.

(* error.name *)
Definition error_name (e : JsError) : string :=
  match e with
  | CastError => "CastError"
  | ValidationError _ => "ValidationError"
  | DuplicateKey => "MongoServerError"
  | TypeError => "TypeError"
  end.

(* error.message.  Mongoose and the driver compose the text from the model,
   the path and the value; the part that does not depend on them is kept.
   The handlers copy the text into the response and never inspect it. *)
Definition error_message (e : JsError) : string :=
  match e with
  | CastError => "Cast to ObjectId failed"
  | ValidationError msg => msg
  | DuplicateKey => "E11000 duplicate key error"
  | TypeError => "Cannot read properties of undefined"
  end.

(** An awaited Mongoose call either returns or throws. *)
Inductive result (A : Type) : Type :=
  | Ok (a : A)
  | Throw (e : JsError).
Arguments Ok {A} a.
Arguments Throw {A} e.

#[global] Instance result_ret : MRet result := λ A a, Ok a.
#[global] Instance result_bind : MBind result :=
  λ A B f m, match m with Ok a => f a | Throw e => Throw e end.

(* the cast of an id in a query filter *)
Definition castQuery (raw : string) : result ObjectId :=
  match castObjectId raw with
  | Some i => Ok i
  | None => Throw CastError
  end.

(** ** Populated documents *)

(* populate(path, 'name code') *)
Record LocationView := {
  lv_id : ObjectId;
  lv_name : string;
  lv_code : string
}.

(* populate(path, 'name email role') *)
Record UserView := {
  uv_id : ObjectId;
  uv_name : string;
  uv_email : string;
  uv_role : Role
}.

(** A populated document keeps the stored document next to the documents its
    references resolve to ([None] for a dangling reference, which Mongoose
    populates with [null]). *)
Record PopulatedLocation := {
  pl_doc : LocationDoc;
  pl_parent : option LocationView
}.

Record PopulatedUser := {
  pu_doc : UserDoc;
  pu_location : option LocationView
}.

Record PopulatedVenue := {
  pv_doc : VenueDoc;
  pv_location : option LocationView;
  pv_createdBy : option UserView
}.

Definition view_location (l : LocationDoc) : LocationView :=
  {| lv_id := loc_id l; lv_name := loc_name l; lv_code := loc_code l |}.

Definition view_user (u : UserDoc) : UserView :=
  {| uv_id := user_id u; uv_name := user_name u;
     uv_email := user_email u; uv_role := user_role u |}.

Definition populate_location (db : Db) (l : LocationDoc) : PopulatedLocation :=
  {| pl_doc := l;
     pl_parent := p ← loc_parent l; view_location <$> findById (locations db) p |}.

Definition populate_user (db : Db) (u : UserDoc) : PopulatedUser :=
  {| pu_doc := u;
     pu_location := view_location <$> findById (locations db) (user_location u) |}.

Definition populate_venue (db : Db) (v : VenueDoc) : PopulatedVenue :=
  {| pv_doc := v;
     pv_location := view_location <$> findById (locations db) (venue_location v);
     pv_createdBy := view_user <$> findById (users db) (venue_createdBy v) |}.

(** ** Requests and responses *)

(* req.body: the properties the handlers destructure *)
Record Body := {
  name : field string;
  code : field string;
  parent : field string;
  phone : field string;
  email : field string;
  role : field string;
  location : field string;
  placeName : field string;
  capacity : field Z
}.

Record Request := {
  x_user_id : option string;       (* req.headers['x-user-id'] *)
  params_id : string;              (* req.params.id *)
  params_locationId : string;      (* req.params.locationId *)
  body : Body;                     (* req.body *)
  user : option PopulatedUser      (* req.user, set by authenticateUser *)
}.

Inductive Payload : Type :=
  | NoData
  | LocationCreated (l : LocationDoc)
  | LocationUpdated (l : PopulatedLocation)
  | LocationDeleted (l : LocationDoc)
  | UserCreated (u : PopulatedUser)
  | UserList (count locationsSearched : nat) (data : list PopulatedUser)
  | VenueSaved (v : PopulatedVenue)
  | VenueDeleted (v : VenueDoc)
  | VenueList (count locationsSearched : nat) (loc : LocationView)
      (data : list PopulatedVenue).

(* res.status(n).json({ success, message, error, ...payload }) *)
Record Response := {
  status : N;
  success : bool;
  message : option string;
  error : option string;
  payload : Payload
}.

Definition fail (st : N) (msg : string) : Response :=
  {| status := st; success := false; message := Some msg; error := None;
     payload := NoData |}.

Definition ok (st : N) (p : Payload) : Response :=
  {| status := st; success := true; message := None; error := None;
     payload := p |}.

Definition ok_message (st : N) (msg : string) (p : Payload) : Response :=
  {| status := st; success := true; message := Some msg; error := None;
     payload := p |}.

(** *** Responses of the read handlers and of the user updates

    The JSON of these handlers has the common properties of [Response] and
    the data below. *)

Inductive Listing : Type :=
  | NoListing
  | OneLocation (l : PopulatedLocation)
  | LocationList (count : nat) (data : list PopulatedLocation)
  | OneUser (u : PopulatedUser)
  | DeletedUser (u : UserDoc)
  | UsersList (count : nat) (data : list PopulatedUser)
  | OneVenue (v : PopulatedVenue)
  | VenuesList (count : nat) (data : list PopulatedVenue)
  | OrganizerVenues (count : nat) (organizer : ObjectId * string * string)
      (data : list PopulatedVenue).

Record Reply := {
  reply_head : Response;
  listing : Listing
}.

Definition reply_fail (st : N) (msg : string) : Reply :=
  {| reply_head := fail st msg; listing := NoListing |}.

Definition reply_ok (st : N) (l : Listing) : Reply :=
  {| reply_head := ok st NoData; listing := l |}.

Definition reply_ok_message (st : N) (msg : string) (l : Listing) : Reply :=
  {| reply_head := ok_message st msg NoData; listing := l |}.

(** ** Schema paths: setters, casts and validators *)

(** A required String path on [create]: the setter runs, then [required]
    rejects a missing or empty value. *)
Definition required_string (msg : string) (setter : string → string)
    (f : field string) : result string :=
  match f with
  | Given s =>
      let v := setter s in
      if truthy_string v then Ok v else Throw (ValidationError msg)
  | _ => Throw (ValidationError msg)
  end.

(** A required String path in the [$set] of an update with
    [runValidators]: an [undefined] property is not part of the update. *)
Definition updated_string (msg : string) (setter : string → string)
    (f : field string) : result (option string) :=
  match f with
  | Undefined => Ok None
  | Null => Throw (ValidationError msg)
  | Given s =>
      let v := setter s in
      if truthy_string v then Ok (Some v) else Throw (ValidationError msg)
  end.

(** An ObjectId path of a new document: a value that does not cast makes the
    document invalid. *)
Definition required_ref (msg : string) (f : field string) : result ObjectId :=
  match f with
  | Given s =>
      match castObjectId s with
      | Some i => Ok i
      | None => Throw (ValidationError "Cast to ObjectId failed")
      end
  | _ => Throw (ValidationError msg)
  end.

Definition optional_ref (f : field string) : result (option ObjectId) :=
  match f with
  | Given s =>
      match castObjectId s with
      | Some i => Ok (Some i)
      | None => Throw (ValidationError "Cast to ObjectId failed")
      end
  | _ => Ok None
  end.

(** An ObjectId path in the [$set] of an update: the cast of the update
    throws a CastError. *)
Definition updated_required_ref (msg : string) (f : field string)
    : result (option ObjectId) :=
  match f with
  | Undefined => Ok None
  | Null => Throw (ValidationError msg)
  | Given s => i ← castQuery s; Ok (Some i)
  end.

Definition updated_optional_ref (f : field string)
    : result (option (option ObjectId)) :=
  match f with
  | Undefined => Ok None
  | Null => Ok (Some None)
  | Given s => i ← castQuery s; Ok (Some (Some i))
  end.

(* capacity: Number, required, min 1 *)
Definition required_capacity (f : field Z) : result Z :=
  match f with
  | Given n =>
      if (1 <=? n)%Z then Ok n
      else Throw (ValidationError "Capacity must be at least 1")
  | _ => Throw (ValidationError "Venue capacity is required")
  end.

Definition updated_capacity (f : field Z) : result (option Z) :=
  match f with
  | Undefined => Ok None
  | Null => Throw (ValidationError "Venue capacity is required")
  | Given n =>
      if (1 <=? n)%Z then Ok (Some n)
      else Throw (ValidationError "Capacity must be at least 1")
  end.

(* role: enum ['Admin', 'Organizer', 'Attend'] *)
Definition role_name (r : Role) : string :=
  match r with
  | Admin => "Admin"
  | Organizer => "Organizer"
  | Attend => "Attend"
  end.

Definition required_role (f : field string) : result Role :=
  match f with
  | Given s =>
      if String.eqb s "Admin" then Ok Admin
      else if String.eqb s "Organizer" then Ok Organizer
      else if String.eqb s "Attend" then Ok Attend
      else Throw (ValidationError "Role must be either Admin, Organizer, or Attend")
  | _ => Throw (ValidationError "User role is required")
  end.

(* email: required, unique, lowercase, trim, match *)
Definition required_email (f : field string) : result string :=
  e ← required_string "Email is required" (λ s, toLowerCase (trim s)) f;
  if matches email_pattern e then Ok e
  else Throw (ValidationError "Please provide a valid email address").

(** Replacing the document with a given [_id]. *)
Definition replace_doc {A} `{Document A} (d' : A) (docs : list A) : list A :=
  (λ d, if decide (_id d = _id d') then d' else d) <$> docs.

Definition set_locations (db : Db) (locs : list LocationDoc) : Db :=
  {| locations := locs; users := users db; venues := venues db |}.

Definition set_users (db : Db) (us : list UserDoc) : Db :=
  {| locations := locations db; users := us; venues := venues db |}.

Definition set_venues (db : Db) (vs : list VenueDoc) : Db :=
  {| locations := locations db; users := users db; venues := vs |}.

(** ** The Location model (locationModel.js) *)

Module Location.

(* Location.find({ parent: p }) *)
Definition find_parent (locs : list LocationDoc) (p : ObjectId) : list LocationDoc :=
  filter (λ l, loc_parent l = Some p) locs.

(* Location.countDocuments({ parent: p }) *)
Definition countDocuments_parent (locs : list LocationDoc) (p : ObjectId) : nat :=
  length (find_parent locs p).

(* the unique index on code *)
Definition code_taken (locs : list LocationDoc) (c : string) : bool :=
  existsb (λ l, String.eqb (loc_code l) c) locs.

(* Location.create({ name, code, parent }) *)
Definition create (locs : list LocationDoc) (f_name f_code f_parent : field string)
    : result (LocationDoc * list LocationDoc) :=
  n ← required_string "Location name is required" trim f_name;
  c ← required_string "Location code is required" (λ s, toUpperCase (trim s)) f_code;
  p ← optional_ref f_parent;
  if code_taken locs c then Throw DuplicateKey
  else
    let l := {| loc_id := freshId locs; loc_name := n; loc_code := c;
                loc_parent := p |} in
    Ok (l, locs ++ [l]).

(* Location.findByIdAndUpdate(id, { name, code, parent },
                              { new: true, runValidators: true }) *)
Definition findByIdAndUpdate (locs : list LocationDoc) (raw_id : string)
    (f_name f_code f_parent : field string)
    : result (option LocationDoc * list LocationDoc) :=
  i ← castQuery raw_id;
  p ← updated_optional_ref f_parent;
  n ← updated_string "Location name is required" trim f_name;
  c ← updated_string "Location code is required" (λ s, toUpperCase (trim s)) f_code;
  match findById locs i with
  | None => Ok (None, locs)
  | Some l =>
      let l' := {| loc_id := loc_id l;
                   loc_name := default (loc_name l) n;
                   loc_code := default (loc_code l) c;
                   loc_parent := default (loc_parent l) p |} in
      if code_taken (filter (λ d, loc_id d ≠ i) locs) (loc_code l')
      then Throw DuplicateKey
      else Ok (Some l', replace_doc l' locs)
  end.

End Location.

(** ** The User model (userModel.js) *)

Module User.

(* the unique index on email *)
Definition email_taken (us : list UserDoc) (e : string) : bool :=
  existsb (λ u, String.eqb (user_email u) e) us.

(* User.create({ name, phone, email, role, location }) *)
Definition create (us : list UserDoc)
    (f_name f_phone f_email f_role f_location : field string)
    : result (UserDoc * list UserDoc) :=
  n ← required_string "User name is required" trim f_name;
  ph ← required_string "Phone number is required" trim f_phone;
  e ← required_email f_email;
  r ← required_role f_role;
  loc ← required_ref "Location is required" f_location;
  if email_taken us e then Throw DuplicateKey
  else
    let u := {| user_id := freshId us; user_name := n; user_phone := ph;
                user_email := e; user_role := r; user_location := loc |} in
    Ok (u, us ++ [u]).

(* the email path in the [$set] of an update *)
Definition updated_email (f : field string) : result (option string) :=
  match f with
  | Undefined => Ok None
  | Null => Throw (ValidationError "Email is required")
  | Given _ => e ← required_email f; Ok (Some e)
  end.

(* the role path in the [$set] of an update *)
Definition updated_role (f : field string) : result (option Role) :=
  match f with
  | Undefined => Ok None
  | Null => Throw (ValidationError "User role is required")
  | Given _ => r ← required_role f; Ok (Some r)
  end.

(* User.findByIdAndUpdate(id, { name, phone, email, role, location },
                          { new: true, runValidators: true }) *)
Definition findByIdAndUpdate (us : list UserDoc) (raw_id : string)
    (f_name f_phone f_email f_role f_location : field string)
    : result (option UserDoc * list UserDoc) :=
  i ← castQuery raw_id;
  loc ← updated_required_ref "Location is required" f_location;
  n ← updated_string "User name is required" trim f_name;
  ph ← updated_string "Phone number is required" trim f_phone;
  e ← updated_email f_email;
  r ← updated_role f_role;
  match findById us i with
  | None => Ok (None, us)
  | Some u =>
      let u' := {| user_id := user_id u;
                   user_name := default (user_name u) n;
                   user_phone := default (user_phone u) ph;
                   user_email := default (user_email u) e;
                   user_role := default (user_role u) r;
                   user_location := default (user_location u) loc |} in
      if email_taken (filter (λ d, user_id d ≠ i) us) (user_email u')
      then Throw DuplicateKey
      else Ok (Some u', replace_doc u' us)
  end.

End User.

(** ** The Venue model (venueModel.js) *)

Module Venue.

(* Venue.create({ placeName, capacity, location, createdBy }) *)
Definition create (vs : list VenueDoc) (f_placeName : field string)
    (f_capacity : field Z) (f_location : field string) (creator : ObjectId)
    : result (VenueDoc * list VenueDoc) :=
  pn ← required_string "Venue place name is required" trim f_placeName;
  cap ← required_capacity f_capacity;
  loc ← required_ref "Location is required" f_location;
  let v := {| venue_id := freshId vs; venue_placeName := pn;
              venue_capacity := cap; venue_location := loc;
              venue_createdBy := creator |} in
  Ok (v, vs ++ [v]).

(** The update object of [findByIdAndUpdate]: one property per path of
    the schema, [Undefined] for a path the update does not mention. *)
Record Update := {
  set_placeName : field string;
  set_capacity : field Z;
  set_location : field string;
  set_createdBy : field string
}.

(* Venue.findByIdAndUpdate(id, update, { new: true, runValidators: true }) *)
Definition findByIdAndUpdate (vs : list VenueDoc) (raw_id : string)
    (upd : Update) : result (option VenueDoc * list VenueDoc) :=
  i ← castQuery raw_id;
  loc ← updated_required_ref "Location is required" (set_location upd);
  by_ ← updated_required_ref "Creator is required" (set_createdBy upd);
  pn ← updated_string "Venue place name is required" trim (set_placeName upd);
  cap ← updated_capacity (set_capacity upd);
  match findById vs i with
  | None => Ok (None, vs)
  | Some v =>
      let v' := {| venue_id := venue_id v;
                   venue_placeName := default (venue_placeName v) pn;
                   venue_capacity := default (venue_capacity v) cap;
                   venue_location := default (venue_location v) loc;
                   venue_createdBy := default (venue_createdBy v) by_ |} in
      Ok (Some v', replace_doc v' vs)
  end.

End Venue.

(** ** Middleware (backend/middleware/auth.js) *)

(** A middleware either calls [next()] with the request it was given,
    possibly extended, or ends the request with a response. *)
Inductive Step : Type :=
  | Next (req : Request)
  | Respond (res : Response).

Definition set_user (req : Request) (u : PopulatedUser) : Request :=
  {| x_user_id := x_user_id req; params_id := params_id req;
     params_locationId := params_locationId req; body := body req;
     user := Some u |}.

(* roles.join(', ') *)
Fixpoint join_roles (roles : list Role) : string :=
  match roles with
  | [] => ""
  | [r] => role_name r
  | r :: rest => role_name r +:+ ", " +:+ join_roles rest
  end.

Module Auth.

Definition authenticateUser (db : Db) (req : Request) : Step :=
  match x_user_id req with
  | None =>
      Respond (fail 401 "Authentication required. Please provide x-user-id header")
  | Some userId =>
      if negb (truthy_string userId) then
        Respond (fail 401 "Authentication required. Please provide x-user-id header")
      else
        match castQuery userId with
        | Throw e =>
            Respond {| status := 401; success := false;
                       message := Some "Authentication failed";
                       error := Some (error_message e); payload := NoData |}
        | Ok i =>
            match findById (users db) i with
            | None => Respond (fail 401 "Invalid user ID")
            | Some u => Next (set_user req (populate_user db u))
            end
        end
  end.

Definition requireRole (roles : list Role) (req : Request) : Step :=
  match user req with
  | None => Respond (fail 401 "Authentication required")
  | Some u =>
      if negb (bool_decide (user_role (pu_doc u) ∈ roles)) then
        Respond (fail 403 ("Access denied. Required role(s): " +:+ join_roles roles))
      else Next req
  end.

(* venue.createdBy.toString() !== req.user._id.toString(): the hexadecimal
   form of an ObjectId determines it, so the strings differ exactly when the
   ids do *)
Definition checkVenueOwnership (db : Db) (req : Request) : Step :=
  match user req with
  | None => Respond (fail 401 "Authentication required")
  | Some u =>
      if bool_decide (user_role (pu_doc u) = Admin) then Next req
      else
        let venueId := params_id req in
        if negb (truthy_string venueId) then
          Respond (fail 400 "Venue ID is required")
        else
          match castQuery venueId with
          | Throw e =>
              Respond {| status := 500; success := false;
                         message := Some "Authorization check failed";
                         error := Some (error_message e); payload := NoData |}
          | Ok i =>
              match findById (venues db) i with
              | None => Respond (fail 404 "Venue not found")
              | Some venue =>
                  if bool_decide (venue_createdBy venue ≠ user_id (pu_doc u)) then
                    Respond (fail 403 "Access denied. You can only modify venues you created")
                  else Next req
              end
          end
  end.

End Auth.

(** ** locationController.js *)

Module LocationController.

Definition createLocation (db : Db) (req : Request) : Db * Response :=
  let b := body req in
  let attempt : result (Db * Response) :=
    if negb (truthy (name b)) || negb (truthy (code b)) then
      Ok (db, fail 400 "Name and code are required")
    else
      let create : result (Db * Response) :=
        '(l, locs') ← Location.create (locations db) (name b) (code b) (parent b);
        Ok (set_locations db locs', ok 201 (LocationCreated l)) in
      match parent b with
      | Given raw =>
          if truthy_string raw then
            i ← castQuery raw;
            match findById (locations db) i with
            | None => Ok (db, fail 404 "Parent location not found")
            | Some _ => create
            end
          else create
      | _ => create
      end in
  match attempt with
  | Ok r => r
  | Throw e =>
      if bool_decide (error_code e = Some 11000%N) then
        (db, fail 400 "Location code already exists")
      else (db, fail 500 (error_message e))
  end.

Definition updateLocation (db : Db) (req : Request) : Db * Response :=
  let b := body req in
  let attempt : result (Db * Response) :=
    let update : result (Db * Response) :=
      '(found, locs') ← Location.findByIdAndUpdate (locations db) (params_id req)
                          (name b) (code b) (parent b);
      match found with
      | None => Ok (db, fail 404 "Location not found")
      | Some l =>
          let db' := set_locations db locs' in
          Ok (db', ok 200 (LocationUpdated (populate_location db' l)))
      end in
    match parent b with
    | Given raw =>
        if truthy_string raw then
          if String.eqb raw (params_id req) then
            Ok (db, fail 400 "Location cannot be its own parent")
          else
            i ← castQuery raw;
            match findById (locations db) i with
            | None => Ok (db, fail 404 "Parent location not found")
            | Some _ => update
            end
        else update
    | _ => update
    end in
  match attempt with
  | Ok r => r
  | Throw e =>
      if bool_decide (error_code e = Some 11000%N) then
        (db, fail 400 "Location code already exists")
      else (db, fail 500 (error_message e))
  end.

Definition deleteLocation (db : Db) (req : Request) : Db * Response :=
  let attempt : result (Db * Response) :=
    i ← castQuery (params_id req);
    let childrenCount := Location.countDocuments_parent (locations db) i in
    if Nat.ltb 0 childrenCount then
      Ok (db, fail 400 "Cannot delete location with child locations")
    else
      match findByIdAndDelete (locations db) i with
      | (None, _) => Ok (db, fail 404 "Location not found")
      | (Some l, locs') =>
          Ok (set_locations db locs',
              ok_message 200 "Location deleted successfully" (LocationDeleted l))
      end in
  match attempt with
  | Ok r => r
  | Throw e => (db, fail 500 (error_message e))
  end.

(* Location.find().populate('parent', 'name code') *)
Definition getAllLocations (db : Db) : Reply :=
  let found := locations db in
  reply_ok 200 (LocationList (length found) (populate_location db <$> found)).

Definition getLocationById (db : Db) (req : Request) : Reply :=
  match castQuery (params_id req) with
  | Throw e => reply_fail 500 (error_message e)
  | Ok i =>
      match findById (locations db) i with
      | None => reply_fail 404 "Location not found"
      | Some l => reply_ok 200 (OneLocation (populate_location db l))
      end
  end.

(** [parentId] is [req.params.parentId]; the query [{ parent: null }]
    selects the locations without a parent. *)
Definition getLocationsByParent (db : Db) (parentId : string) : Reply :=
  let query : result (list LocationDoc) :=
    if String.eqb parentId "root" || String.eqb parentId "null" then
      Ok (filter (λ l, loc_parent l = None) (locations db))
    else
      p ← castQuery parentId;
      Ok (Location.find_parent (locations db) p) in
  match query with
  | Throw e => reply_fail 500 (error_message e)
  | Ok found =>
      reply_ok 200 (LocationList (length found) (populate_location db <$> found))
  end.

End LocationController.

(** The [for (const child of children)] loop of the resolver: every
    iteration awaits the recursive call and appends its result. *)
Fixpoint for_children (rec : ObjectId → option (list ObjectId))
    (children : list ObjectId) (allLocationIds : list ObjectId)
    : option (list ObjectId) :=
  match children with
  | [] => Some allLocationIds
  | child :: rest =>
      childIds ← rec child;
      for_children rec rest (allLocationIds ++ childIds)
  end.

(** ** userController.js *)

Module UserController.

Definition createUser (db : Db) (req : Request) : Db * Response :=
  let b := body req in
  let attempt : result (Db * Response) :=
    if negb (truthy (name b)) || negb (truthy (phone b)) || negb (truthy (email b))
       || negb (truthy (role b)) || negb (truthy (location b)) then
      Ok (db, fail 400 "All fields are required: name, phone, email, role, and location")
    else
      '(u, us') ← User.create (users db) (name b) (phone b) (email b) (role b)
                    (location b);
      let db' := set_users db us' in
      Ok (db', ok 201 (UserCreated (populate_user db' u))) in
  match attempt with
  | Ok r => r
  | Throw e =>
      if bool_decide (error_code e = Some 11000%N) then
        (db, fail 400 "Email already exists")
      else if String.eqb (error_name e) "ValidationError" then
        (db, fail 400 (error_message e))
      else (db, fail 500 (error_message e))
  end.

Fixpoint getAllChildLocationIds (fuel : nat) (locs : list LocationDoc)
    (locationId : ObjectId) : option (list ObjectId) :=
  match fuel with
  | O => None
  | S fuel' =>
      let children := loc_id <$> Location.find_parent locs locationId in
      if Nat.eqb (length children) 0 then Some [locationId]
      else for_children (getAllChildLocationIds fuel' locs) children [locationId]
  end.

(** The first query of the resolver casts [req.params.locationId]; the
    resolver is entered with the cast id. *)
Definition getUsersByLocation (fuel : nat) (db : Db) (req : Request)
    : option Response :=
  match castQuery (params_locationId req) with
  | Throw e => Some (fail 500 (error_message e))
  | Ok i =>
      allLocationIds ← getAllChildLocationIds fuel (locations db) i;
      let found := filter (λ u, user_location u ∈ allLocationIds) (users db) in
      Some (ok 200 (UserList (length found) (length allLocationIds)
                      (populate_user db <$> found)))
  end.

Definition getAllUsers (db : Db) : Reply :=
  let found := users db in
  reply_ok 200 (UsersList (length found) (populate_user db <$> found)).

Definition getUserById (db : Db) (req : Request) : Reply :=
  match castQuery (params_id req) with
  | Throw e => reply_fail 500 (error_message e)
  | Ok i =>
      match findById (users db) i with
      | None => reply_fail 404 "User not found"
      | Some u => reply_ok 200 (OneUser (populate_user db u))
      end
  end.

(** [r] is [req.params.role]; [validRoles.includes(role)] compares it with
    the three names. *)
Definition getUsersByRole (db : Db) (r : string) : Reply :=
  let validRoles := ["Admin"; "Organizer"; "Attend"] in
  if negb (bool_decide (r ∈ validRoles)) then
    reply_fail 400 "Invalid role. Must be Admin, Organizer, or Attend"
  else
    let found := filter (λ u, role_name (user_role u) = r) (users db) in
    reply_ok 200 (UsersList (length found) (populate_user db <$> found)).

Definition updateUser (db : Db) (req : Request) : Db * Reply :=
  let b := body req in
  let attempt : result (Db * Reply) :=
    '(found, us') ← User.findByIdAndUpdate (users db) (params_id req)
                      (name b) (phone b) (email b) (role b) (location b);
    match found with
    | None => Ok (db, reply_fail 404 "User not found")
    | Some u =>
        let db' := set_users db us' in
        Ok (db', reply_ok 200 (OneUser (populate_user db' u)))
    end in
  match attempt with
  | Ok r => r
  | Throw e =>
      if bool_decide (error_code e = Some 11000%N) then
        (db, reply_fail 400 "Email already exists")
      else if String.eqb (error_name e) "ValidationError" then
        (db, reply_fail 400 (error_message e))
      else (db, reply_fail 500 (error_message e))
  end.

Definition deleteUser (db : Db) (req : Request) : Db * Reply :=
  let attempt : result (Db * Reply) :=
    i ← castQuery (params_id req);
    match findByIdAndDelete (users db) i with
    | (None, _) => Ok (db, reply_fail 404 "User not found")
    | (Some u, us') =>
        Ok (set_users db us',
            reply_ok_message 200 "User deleted successfully" (DeletedUser u))
    end in
  match attempt with
  | Ok r => r
  | Throw e => (db, reply_fail 500 (error_message e))
  end.

End UserController.

(** ** venueController.js *)

Module VenueController.

Definition createVenue (db : Db) (req : Request) : Db * Response :=
  let b := body req in
  let required := "All fields are required: placeName, capacity, and location" in
  let attempt : result (Db * Response) :=
    if negb (truthy (placeName b)) || negb (truthy_number (capacity b))
       || negb (truthy (location b)) then
      Ok (db, fail 400 required)
    else
      match location b with
      | Given raw =>
          i ← castQuery raw;
          match findById (locations db) i with
          | None => Ok (db, fail 404 "Location not found")
          | Some _ =>
              match user req with
              | None => Throw TypeError
              | Some u =>
                  '(v, vs') ← Venue.create (venues db) (placeName b) (capacity b)
                                (location b) (user_id (pu_doc u));
                  let db' := set_venues db vs' in
                  Ok (db', ok 201 (VenueSaved (populate_venue db' v)))
              end
          end
      | _ => Ok (db, fail 400 required)
      end in
  match attempt with
  | Ok r => r
  | Throw e =>
      if String.eqb (error_name e) "ValidationError" then
        (db, fail 400 (error_message e))
      else (db, fail 500 (error_message e))
  end.

Fixpoint getAllChildLocationIds (fuel : nat) (locs : list LocationDoc)
    (locationId : ObjectId) : option (list ObjectId) :=
  match fuel with
  | O => None
  | S fuel' =>
      let children := loc_id <$> Location.find_parent locs locationId in
      if Nat.eqb (length children) 0 then Some [locationId]
      else for_children (getAllChildLocationIds fuel' locs) children [locationId]
  end.

Definition getVenuesByLocation (fuel : nat) (db : Db) (req : Request)
    : option Response :=
  match castQuery (params_locationId req) with
  | Throw e => Some (fail 500 (error_message e))
  | Ok i =>
      match findById (locations db) i with
      | None => Some (fail 404 "Location not found")
      | Some l =>
          allLocationIds ← getAllChildLocationIds fuel (locations db) i;
          let found := filter (λ v, venue_location v ∈ allLocationIds) (venues db) in
          Some (ok 200 (VenueList (length found) (length allLocationIds)
                          (view_location l) (populate_venue db <$> found)))
      end
  end.

Definition updateVenue (db : Db) (req : Request) : Db * Response :=
  let b := body req in
  let attempt : result (Db * Response) :=
    let update : result (Db * Response) :=
      '(found, vs') ← Venue.findByIdAndUpdate (venues db) (params_id req)
                        {| Venue.set_placeName := placeName b;
                           Venue.set_capacity := capacity b;
                           Venue.set_location := location b;
                           Venue.set_createdBy := Undefined |};
      match found with
      | None => Ok (db, fail 404 "Venue not found")
      | Some v =>
          let db' := set_venues db vs' in
          Ok (db', ok 200 (VenueSaved (populate_venue db' v)))
      end in
    match location b with
    | Given raw =>
        if truthy_string raw then
          i ← castQuery raw;
          match findById (locations db) i with
          | None => Ok (db, fail 404 "Location not found")
          | Some _ => update
          end
        else update
    | _ => update
    end in
  match attempt with
  | Ok r => r
  | Throw e =>
      if String.eqb (error_name e) "ValidationError" then
        (db, fail 400 (error_message e))
      else (db, fail 500 (error_message e))
  end.

Definition deleteVenue (db : Db) (req : Request) : Db * Response :=
  let attempt : result (Db * Response) :=
    i ← castQuery (params_id req);
    match findByIdAndDelete (venues db) i with
    | (None, _) => Ok (db, fail 404 "Venue not found")
    | (Some v, vs') =>
        Ok (set_venues db vs',
            ok_message 200 "Venue deleted successfully" (VenueDeleted v))
    end in
  match attempt with
  | Ok r => r
  | Throw e => (db, fail 500 (error_message e))
  end.

(** Organizers see the venues they created, Admins and Attendees see all. *)
Definition getAllVenues (db : Db) (req : Request) : Reply :=
  match user req with
  | None => reply_fail 500 (error_message TypeError)
  | Some u =>
      let found :=
        if bool_decide (user_role (pu_doc u) = Organizer) then
          filter (λ v, venue_createdBy v = user_id (pu_doc u)) (venues db)
        else venues db in
      reply_ok 200 (VenuesList (length found) (populate_venue db <$> found))
  end.

Definition getVenueById (db : Db) (req : Request) : Reply :=
  match castQuery (params_id req) with
  | Throw e => reply_fail 500 (error_message e)
  | Ok i =>
      match findById (venues db) i with
      | None => reply_fail 404 "Venue not found"
      | Some v => reply_ok 200 (OneVenue (populate_venue db v))
      end
  end.

(** [organizerId] is [req.params.organizerId]. *)
Definition getVenuesByOrganizer (db : Db) (organizerId : string) : Reply :=
  match castQuery organizerId with
  | Throw e => reply_fail 500 (error_message e)
  | Ok i =>
      match findById (users db) i with
      | None => reply_fail 404 "Organizer not found"
      | Some organizer =>
          if negb (bool_decide (user_role organizer = Organizer)) then
            reply_fail 400 "User is not an organizer"
          else
            let found := filter (λ v, venue_createdBy v = i) (venues db) in
            reply_ok 200
              (OrganizerVenues (length found)
                 (user_id organizer, user_name organizer, user_email organizer)
                 (populate_venue db <$> found))
      end
  end.

End VenueController.

(** ** The venue router: middleware chains of the mutating routes *)

Module VenueRoutes.

(** Express runs the handlers of a route in order until one responds. *)
Definition chain (s : Step) (db : Db) (k : Request → Db * Response)
    : Db * Response :=
  match s with
  | Next req => k req
  | Respond res => (db, res)
  end.

(* router.post('/', authenticateUser, requireRole('Admin', 'Organizer'),
               createVenue) *)
Definition post_root (db : Db) (req : Request) : Db * Response :=
  chain (Auth.authenticateUser db req) db (λ req1,
  chain (Auth.requireRole [Admin; Organizer] req1) db (λ req2,
  VenueController.createVenue db req2)).

(* router.put('/:id', authenticateUser, checkVenueOwnership, updateVenue) *)
Definition put_id (db : Db) (req : Request) : Db * Response :=
  chain (Auth.authenticateUser db req) db (λ req1,
  chain (Auth.checkVenueOwnership db req1) db (λ req2,
  VenueController.updateVenue db req2)).

(* router.delete('/:id', authenticateUser, checkVenueOwnership, deleteVenue) *)
Definition delete_id (db : Db) (req : Request) : Db * Response :=
  chain (Auth.authenticateUser db req) db (λ req1,
  chain (Auth.checkVenueOwnership db req1) db (λ req2,
  VenueController.deleteVenue db req2)).

(** The read routes answer with a [Reply]; a middleware that responds gives
    its response without data. *)
Definition chain_read (s : Step) (k : Request → Reply) : Reply :=
  match s with
  | Next req => k req
  | Respond res => {| reply_head := res; listing := NoListing |}
  end.

(* router.get('/', authenticateUser, getAllVenues) *)
Definition get_root (db : Db) (req : Request) : Reply :=
  chain_read (Auth.authenticateUser db req) (VenueController.getAllVenues db).

(* router.get('/organizer/:organizerId', authenticateUser, getVenuesByOrganizer) *)
Definition get_organizer (db : Db) (req : Request) (organizerId : string) : Reply :=
  chain_read (Auth.authenticateUser db req)
    (λ _, VenueController.getVenuesByOrganizer db organizerId).

(* router.get('/:id', authenticateUser, getVenueById) *)
Definition get_id (db : Db) (req : Request) : Reply :=
  chain_read (Auth.authenticateUser db req) (VenueController.getVenueById db).

End VenueRoutes.

(** ** The parent-pointer graph *)

(** [parent_of locs c p]: some stored location with id [c] has parent [p]. *)
Definition parent_of (locs : list LocationDoc) (c p : ObjectId) : Prop :=
  ∃ l, l ∈ locs ∧ loc_id l = c ∧ loc_parent l = Some p.

(** No location is its own ancestor. *)
Definition acyclic (locs : list LocationDoc) : Prop :=
  ∀ x, ¬ tc (parent_of locs) x x.

(** [x] is the root or its parent chain reaches the root. *)
Definition in_subtree (locs : list LocationDoc) (rootId x : ObjectId) : Prop :=
  x = rootId ∨ tc (parent_of locs) x rootId.

(** A decision procedure for acyclicity: from every location, following the
    parent pointers leaves the store or reaches a root within [fuel] steps. *)
Fixpoint climb (fuel : nat) (locs : list LocationDoc) (x : ObjectId) : bool :=
  match fuel with
  | O => false
  | S fuel' =>
      match findById locs x with
      | None => true
      | Some l =>
          match loc_parent l with
          | None => true
          | Some p => climb fuel' locs p
          end
      end
  end.

Definition acyclicb (locs : list LocationDoc) : bool :=
  forallb (λ l, climb (S (length locs)) locs (loc_id l)) locs.

(** ** A sample database *)

(** Rwanda <- Kigali <- Kicukiro, and a second root. *)
Definition rwanda : LocationDoc :=
  {| loc_id := 1%N; loc_name := "Rwanda"; loc_code := "RW"; loc_parent := None |}.
Definition kigali : LocationDoc :=
  {| loc_id := 2%N; loc_name := "Kigali"; loc_code := "KGL"; loc_parent := Some 1%N |}.
Definition kicukiro : LocationDoc :=
  {| loc_id := 3%N; loc_name := "Kicukiro"; loc_code := "KCK"; loc_parent := Some 2%N |}.
Definition uganda : LocationDoc :=
  {| loc_id := 4%N; loc_name := "Uganda"; loc_code := "UG"; loc_parent := None |}.

Definition rwanda_locs : list LocationDoc := [rwanda; kigali; kicukiro; uganda].

Definition ada : UserDoc :=
  {| user_id := 1%N; user_name := "Ada"; user_phone := "0781";
     user_email := "ada@nelson.rw"; user_role := Admin; user_location := 1%N |}.
Definition ben : UserDoc :=
  {| user_id := 2%N; user_name := "Ben"; user_phone := "0782";
     user_email := "ben@nelson.rw"; user_role := Organizer; user_location := 2%N |}.
Definition cy : UserDoc :=
  {| user_id := 3%N; user_name := "Cy"; user_phone := "0783";
     user_email := "cy@nelson.rw"; user_role := Attend; user_location := 3%N |}.
Definition di : UserDoc :=
  {| user_id := 4%N; user_name := "Di"; user_phone := "0784";
     user_email := "di@nelson.rw"; user_role := Organizer; user_location := 4%N |}.

Definition sample_users : list UserDoc := [ada; ben; cy; di].

Definition arena : VenueDoc :=
  {| venue_id := 1%N; venue_placeName := "Arena"; venue_capacity := 500%Z;
     venue_location := 1%N; venue_createdBy := 2%N |}.
Definition hall : VenueDoc :=
  {| venue_id := 2%N; venue_placeName := "Hall"; venue_capacity := 80%Z;
     venue_location := 3%N; venue_createdBy := 4%N |}.
Definition club : VenueDoc :=
  {| venue_id := 3%N; venue_placeName := "Club"; venue_capacity := 40%Z;
     venue_location := 4%N; venue_createdBy := 2%N |}.

Definition sample_venues : list VenueDoc := [arena; hall; club].

Definition sample_db : Db :=
  {| locations := rwanda_locs; users := sample_users; venues := sample_venues |}.

(** A store with one location, whose id has a hexadecimal letter. *)
Definition huye : LocationDoc :=
  {| loc_id := 10%N; loc_name := "Huye"; loc_code := "HUY"; loc_parent := None |}.

Definition huye_db : Db := {| locations := [huye]; users := []; venues := [] |}.

(* the 24-digit hexadecimal form of small ObjectIds *)
Definition hex1 : string := "000000000000000000000001".
Definition hex2 : string := "000000000000000000000002".
Definition hex3 : string := "000000000000000000000003".
Definition hex4 : string := "000000000000000000000004".
Definition hex5 : string := "000000000000000000000005".
Definition hex9 : string := "000000000000000000000009".

Definition empty_body : Body :=
  {| name := Undefined; code := Undefined; parent := Undefined; phone := Undefined;
     email := Undefined; role := Undefined; location := Undefined;
     placeName := Undefined; capacity := Undefined |}.

(** A request with the given caller header, path parameter (used for both
    [:id] and [:locationId]) and body. *)
Definition request (caller : option string) (param : string) (b : Body) : Request :=
  {| x_user_id := caller; params_id := param; params_locationId := param;
     body := b; user := None |}.

Definition venue_body (pn : field string) (cap : field Z) (loc : field string) : Body :=
  {| name := Undefined; code := Undefined; parent := Undefined; phone := Undefined;
     email := Undefined; role := Undefined; location := loc;
     placeName := pn; capacity := cap |}.

Definition location_body (n c p : field string) : Body :=
  {| name := n; code := c; parent := p; phone := Undefined;
     email := Undefined; role := Undefined; location := Undefined;
     placeName := Undefined; capacity := Undefined |}.

Definition user_body (n ph e r loc : string) : Body :=
  {| name := Given n; code := Undefined; parent := Undefined; phone := Given ph;
     email := Given e; role := Given r; location := Given loc;
     placeName := Undefined; capacity := Undefined |}.

(** ** Bodies that pass the checks of [updateVenue] *)

(** Every property is left out or valid: a place name that is not blank, a
    capacity of at least 1, the id of a stored location. *)
Definition valid_venue_update (db : Db) (b : Body) : Prop :=
  (placeName b = Undefined ∨ ∃ pn, placeName b = Given pn ∧ trim pn ≠ "") ∧
  (capacity b = Undefined ∨ ∃ cap, capacity b = Given cap ∧ (1 ≤ cap)%Z) ∧
  (location b = Undefined ∨
   ∃ raw l, location b = Given raw ∧ castObjectId raw = Some (loc_id l) ∧
            l ∈ locations db).

(** ** Invariants of the store *)

(** Every parent pointer refers to a stored location. *)
Definition parents_exist (locs : list LocationDoc) : Prop :=
  ∀ l p, l ∈ locs → loc_parent l = Some p → p ∈ loc_id <$> locs.

(** The unique index on [code]. *)
Definition unique_codes (locs : list LocationDoc) : Prop :=
  NoDup (loc_code <$> locs).

(** The unique index on [email]. *)
Definition unique_emails (us : list UserDoc) : Prop :=
  NoDup (user_email <$> us).

(** The validators of venueModel.js: a place name that is not empty, a
    capacity of at least 1. *)
Definition valid_venue (v : VenueDoc) : Prop :=
  venue_placeName v ≠ "" ∧ (1 ≤ venue_capacity v)%Z.

(** The validators of userModel.js: a name and a phone that are not empty,
    an email that matches the pattern. *)
Definition valid_user (u : UserDoc) : Prop :=
  user_name u ≠ "" ∧ user_phone u ≠ "" ∧ matches email_pattern (user_email u) = true.

(** * Properties *)

(** ** Collections keyed by [_id] *)

Section ModelFacts.
Context {A : Type} `{Document A}.

Lemma findById_Some (docs : list A) i d :
  findById docs i = Some d → d ∈ docs ∧ _id d = i.
Proof.
  unfold findById. intros Hd. apply head_Some_elem_of in Hd.
  by apply list_elem_of_filter in Hd as [? ?].
Qed.

Lemma findById_None (docs : list A) i :
  findById docs i = None ↔ i ∉ _id <$> docs.
Proof.
  unfold findById. rewrite head_None. split.
  - intros Hnil (d & -> & Hd)%list_elem_of_fmap.
    assert (d ∈ filter (λ d', _id d' = _id d) docs) as Hin
      by (by apply list_elem_of_filter).
    rewrite Hnil in Hin. by apply elem_of_nil in Hin.
  - intros Hnot. destruct (filter _ docs) as [|d rest] eqn:E; [done|].
    exfalso. apply Hnot.
    assert (d ∈ filter (λ d', _id d' = i) docs) as Hin
      by (rewrite E; apply list_elem_of_here).
    apply list_elem_of_filter in Hin as [<- Hin]. by apply list_elem_of_fmap_2.
Qed.

Lemma findById_unique (docs : list A) i d :
  unique_ids docs → d ∈ docs → _id d = i → findById docs i = Some d.
Proof.
  unfold unique_ids, findById. induction docs as [|e docs IH]; intros Hnd Hd Hi.
  - by apply elem_of_nil in Hd.
  - rewrite fmap_cons in Hnd. apply NoDup_cons in Hnd as [Hne Hnd].
    rewrite filter_cons. apply elem_of_cons in Hd as [->|Hd].
    + by rewrite decide_True.
    + rewrite decide_False; [by apply IH|].
      intros He. apply Hne. rewrite He, <- Hi. by apply list_elem_of_fmap_2.
Qed.

Lemma freshId_above (docs : list A) d :
  d ∈ docs → (_id d < freshId docs)%N.
Proof.
  unfold freshId. induction docs as [|e docs IH]; intros Hd.
  - by apply elem_of_nil in Hd.
  - rewrite fmap_cons. simpl. apply elem_of_cons in Hd as [->|Hd].
    + lia.
    + specialize (IH Hd). lia.
Qed.

Lemma freshId_fresh (docs : list A) : findById docs (freshId docs) = None.
Proof.
  apply findById_None. intros (d & Heq & Hd)%list_elem_of_fmap.
  apply freshId_above in Hd. lia.
Qed.

End ModelFacts.

(** ** The parent-pointer graph *)

Section ParentGraph.
Variable locs : list LocationDoc.
Hypothesis Huniq : unique_ids locs.

Lemma parent_of_functional c p p' :
  parent_of locs c p → parent_of locs c p' → p = p'.
Proof.
  intros (l & Hl & Hc & Hp) (l' & Hl' & Hc' & Hp').
  pose proof (findById_unique locs c l Huniq Hl Hc) as E.
  pose proof (findById_unique locs c l' Huniq Hl' Hc') as E'.
  congruence.
Qed.

(** Two parent chains from the same location lie on one line. *)
Lemma parent_chain_linear x a b :
  rtc (parent_of locs) x a → rtc (parent_of locs) x b →
  rtc (parent_of locs) a b ∨ rtc (parent_of locs) b a.
Proof.
  intros Ha. revert b. induction Ha as [x|x y a Hxy Hya IH]; intros b Hb.
  - by left.
  - destruct Hb as [|x y' b Hxy' Hyb].
    + right. by eapply rtc_l.
    + rewrite <- (parent_of_functional _ _ _ Hxy Hxy') in Hyb. by apply IH.
Qed.

(** Everything reachable from a location on a cycle is on the cycle. *)
Lemma cycle_absorbs x y :
  tc (parent_of locs) x x → rtc (parent_of locs) x y → tc (parent_of locs) y y.
Proof.
  intros Hx Hxy. induction Hxy as [x|x x' y Hstep Hrest IH]; [done|].
  apply IH. inversion Hx as [? ? Hxx|? z ? Hxz Hzx]; subst.
  - rewrite (parent_of_functional _ _ _ Hstep Hxx). by apply tc_once.
  - rewrite (parent_of_functional _ _ _ Hstep Hxz).
    eapply tc_r; [exact Hzx|]. by rewrite <- (parent_of_functional _ _ _ Hstep Hxz).
Qed.

End ParentGraph.



Example resolve_rwanda :
  VenueController.getAllChildLocationIds 4 rwanda_locs 1%N = Some [1; 2; 3]%N.
Proof. vm_compute. reflexivity. Qed.
Section AcyclicityCheck.
Variable locs : list LocationDoc.
Hypothesis Huniq : unique_ids locs.

Lemma parent_of_findById c p :
  parent_of locs c p ↔ ∃ l, findById locs c = Some l ∧ loc_parent l = Some p.
Proof.
  split.
  - intros (l & Hl & Hc & Hp). exists l. split; [|done].
    by apply findById_unique.
  - intros (l & Hf & Hp). apply findById_Some in Hf as [Hl Hc]. by exists l.
Qed.

Lemma climb_loops n x :
  (∀ y, rtc (parent_of locs) x y → ∃ z, parent_of locs y z) →
  climb n locs x = false.
Proof.
  revert x. induction n as [|n IH]; intros x Hx; [done|].
  destruct (Hx x (rtc_refl _ _)) as [z Hz].
  pose proof Hz as Hstep.
  apply parent_of_findById in Hz as (l & Hf & Hp).
  simpl. rewrite Hf, Hp. apply IH. intros y Hy. apply Hx. by eapply rtc_l.
Qed.

Lemma acyclicb_sound : acyclicb locs = true → acyclic locs.
Proof.
  unfold acyclicb. rewrite forallb_forall. intros Hall x Hx.
  assert (∃ z, parent_of locs x z) as [z (l & Hl & Hc & Hp)]
    by (inversion Hx; eauto).
  apply list_elem_of_In in Hl. specialize (Hall l Hl).
  rewrite Hc, climb_loops in Hall; [done|].
  intros y Hy. pose proof (cycle_absorbs locs Huniq x y Hx Hy) as Hyy.
  inversion Hyy; eauto.
Qed.

End AcyclicityCheck.

(** ** The descendant resolver *)

Lemma Forall2_elem_l {A B} (P : A → B → Prop) l k x :
  Forall2 P l k → x ∈ l → ∃ y, y ∈ k ∧ P x y.
Proof.
  induction 1 as [|a b l k Hab _ IH]; intros Hx.
  - by apply elem_of_nil in Hx.
  - apply elem_of_cons in Hx as [->|Hx].
    + exists b. split; [apply list_elem_of_here|done].
    + destruct (IH Hx) as (y & Hy & HP). exists y. split; [by apply list_elem_of_further|done].
Qed.

Lemma Forall2_elem_r {A B} (P : A → B → Prop) l k y :
  Forall2 P l k → y ∈ k → ∃ x, x ∈ l ∧ P x y.
Proof.
  induction 1 as [|a b l k Hab _ IH]; intros Hy.
  - by apply elem_of_nil in Hy.
  - apply elem_of_cons in Hy as [->|Hy].
    + exists a. split; [apply list_elem_of_here|done].
    + destruct (IH Hy) as (x & Hx & HP). exists x. split; [by apply list_elem_of_further|done].
Qed.

Lemma for_children_Some rec cs acc r :
  for_children rec cs acc = Some r ↔
  ∃ rs, Forall2 (λ c ids, rec c = Some ids) cs rs ∧ r = acc ++ mjoin rs.
Proof.
  revert acc. induction cs as [|c cs IH]; intros acc; simpl.
  - split.
    + intros [= <-]. exists []. split; [constructor|]. by rewrite app_nil_r.
    + intros (rs & Hrs & ->). inversion Hrs. by rewrite app_nil_r.
  - destruct (rec c) as [ids|] eqn:Hc; simpl.
    + rewrite IH. split.
      * intros (rs & Hrs & ->). exists (ids :: rs). split; [by constructor|].
        by rewrite <- app_assoc.
      * intros (rs & Hrs & ->). inversion Hrs as [|? ids' ? rs' Hc' Hrs']; subst.
        exists rs'. split; [done|]. simpl.
        rewrite Hc in Hc'. injection Hc' as <-. by rewrite <- app_assoc.
    + split; [done|]. intros (rs & Hrs & _).
      inversion Hrs as [|? ? ? ? Hc' _]; subst. congruence.
Qed.

Lemma for_children_total rec cs acc :
  (∀ c, c ∈ cs → is_Some (rec c)) → is_Some (for_children rec cs acc).
Proof.
  revert acc. induction cs as [|c cs IH]; intros acc Hcs; simpl; [by eexists|].
  destruct (Hcs c) as [ids Hids]; [apply list_elem_of_here|].
  rewrite Hids. simpl. apply IH. intros c' Hc'. apply Hcs. by apply list_elem_of_further.
Qed.

Section Resolver.
Variable locs : list LocationDoc.

Local Abbreviation resolve := (VenueController.getAllChildLocationIds).
Local Abbreviation children_of i := (loc_id <$> Location.find_parent locs i).

Lemma children_of_spec c i : c ∈ children_of i ↔ parent_of locs c i.
Proof.
  rewrite list_elem_of_fmap. unfold parent_of, Location.find_parent. split.
  - intros (l & -> & Hl). apply list_elem_of_filter in Hl as [Hp Hl]. by exists l.
  - intros (l & Hl & Hc & Hp). exists l. split; [done|].
    by apply list_elem_of_filter.
Qed.

Lemma children_of_in_store c i : c ∈ children_of i → c ∈ loc_id <$> locs.
Proof.
  intros (l & -> & Hl)%list_elem_of_fmap.
  apply list_elem_of_filter in Hl as [_ Hl]. by apply list_elem_of_fmap_2.
Qed.

(** The early return on [children.length === 0] agrees with the loop. *)
Lemma resolve_unfold fuel i :
  resolve (S fuel) locs i = for_children (resolve fuel locs) (children_of i) [i].
Proof. simpl. by destruct (children_of i). Qed.

Lemma resolve_fuel_mono (fuel fuel' : nat) i ids :
  (fuel ≤ fuel')%nat → resolve fuel locs i = Some ids → resolve fuel' locs i = Some ids.
Proof.
  revert fuel' i ids. induction fuel as [|fuel IH]; intros fuel' i ids Hle; [done|].
  destruct fuel' as [|fuel']; [lia|].
  rewrite !resolve_unfold, !for_children_Some.
  intros (rs & Hrs & ->). exists rs. split; [|done].
  eapply Forall2_impl; [exact Hrs|]. intros c r Hc. simpl in *.
  eapply IH; [|exact Hc]. lia.
Qed.

(** Membership: the result holds the locations whose chain reaches [i]. *)
Lemma resolve_elem fuel i ids x :
  resolve fuel locs i = Some ids → x ∈ ids ↔ rtc (parent_of locs) x i.
Proof.
  revert i ids x. induction fuel as [|fuel IH]; intros i ids x; [done|].
  rewrite resolve_unfold, for_children_Some. intros (rs & Hrs & ->).
  rewrite elem_of_app, list_elem_of_singleton, list_elem_of_join. split.
  - intros [->|(r & Hx & Hr)]; [done|].
    destruct (Forall2_elem_r _ _ _ _ Hrs Hr) as (c & Hc & Hres).
    apply children_of_spec in Hc.
    eapply rtc_r; [|exact Hc]. by apply (IH c r).
  - intros [->|(c & Hxc & Hc)]%rtc_inv_r; [by left|]. right.
    apply children_of_spec in Hc.
    destruct (Forall2_elem_l _ _ _ _ Hrs Hc) as (r & Hr & Hres).
    exists r. split; [|done]. by apply (IH c r).
Qed.

End Resolver.

Section ResolverOnTrees.
Variable locs : list LocationDoc.
Hypothesis Huniq : unique_ids locs.
Hypothesis Hacyc : acyclic locs.

Local Abbreviation resolve := (VenueController.getAllChildLocationIds).
Local Abbreviation children_of i := (loc_id <$> Location.find_parent locs i).

(** Termination: [path] holds the stored locations already entered on the
    way down to [i]; on an acyclic store they are pairwise distinct, so the
    recursion is no deeper than the store is large. *)
Lemma resolve_total_path (fuel : nat) i (path : list ObjectId) :
  NoDup path →
  (∀ v, v ∈ path → v ∈ loc_id <$> locs) →
  (∀ v, v ∈ path → rtc (parent_of locs) i v) →
  (length locs < length path + fuel)%nat →
  is_Some (resolve fuel locs i).
Proof.
  revert i path. induction fuel as [|fuel IH]; intros i path Hnd Hin Hanc Hlen.
  - exfalso. pose proof (submseteq_length _ _ (NoDup_submseteq _ _ Hnd Hin)) as Hle.
    rewrite length_fmap in Hle. lia.
  - rewrite resolve_unfold. apply for_children_total. intros c Hc.
    pose proof (children_of_in_store locs c i Hc) as Hstore.
    apply children_of_spec in Hc.
    apply (IH c (c :: path)).
    + apply NoDup_cons. split; [|done]. intros Hcp.
      apply (Hacyc c). eapply tc_rtc_r; [by apply tc_once|]. by apply Hanc.
    + intros v [->|Hv]%elem_of_cons; [done|]. by apply Hin.
    + intros v [->|Hv]%elem_of_cons; [done|].
      eapply rtc_l; [exact Hc|]. by apply Hanc.
    + simpl. lia.
Qed.

Lemma resolve_total i : is_Some (resolve (S (length locs)) locs i).
Proof.
  apply (resolve_total_path _ i []).
  - constructor.
  - intros v Hv. by apply elem_of_nil in Hv.
  - intros v Hv. by apply elem_of_nil in Hv.
  - simpl. lia.
Qed.

Lemma children_of_NoDup i : NoDup (children_of i).
Proof.
  eapply sublist_NoDup; [exact Huniq|].
  apply fmap_sublist, sublist_filter.
Qed.

(** Two children of [i] have disjoint subtrees. *)
Lemma subtrees_disjoint i c1 c2 x :
  parent_of locs c1 i → parent_of locs c2 i →
  rtc (parent_of locs) x c1 → rtc (parent_of locs) x c2 → c1 = c2.
Proof.
  assert (∀ a b, parent_of locs a i → parent_of locs b i →
            rtc (parent_of locs) a b → a = b) as Hline.
  { intros a b Ha Hb [->|(p & Hap & Hpb)]%rtc_inv; [done|].
    rewrite (parent_of_functional locs Huniq _ _ _ Hap Ha) in Hpb.
    exfalso. apply (Hacyc i). eapply tc_rtc_l; [exact Hpb|]. by apply tc_once. }
  intros H1 H2 Hx1 Hx2.
  destruct (parent_chain_linear locs Huniq x c1 c2 Hx1 Hx2) as [H12|H21].
  - by apply Hline.
  - symmetry. by apply Hline.
Qed.

Lemma NoDup_subtrees i (cs : list ObjectId) (rs : list (list ObjectId)) :
  NoDup cs →
  (∀ c, c ∈ cs → parent_of locs c i) →
  Forall2 (λ c r, NoDup r ∧ ∀ x, x ∈ r → rtc (parent_of locs) x c) cs rs →
  NoDup (mjoin rs).
Proof.
  intros Hnd Hcs Hrs. induction Hrs as [|c r cs rs [Hr Hrc] Hrs IH]; simpl.
  - constructor.
  - apply NoDup_cons in Hnd as [Hc Hnd]. apply NoDup_app. split_and!.
    + done.
    + intros x Hx (r' & Hx' & Hr')%list_elem_of_join.
      destruct (Forall2_elem_r _ _ _ _ Hrs Hr') as (c' & Hc' & _ & Hrc').
      assert (c = c') as ->; [|done].
      apply (subtrees_disjoint i c c' x).
      * apply Hcs, list_elem_of_here.
      * by apply Hcs, list_elem_of_further.
      * by apply Hrc.
      * by apply Hrc'.
    + apply IH; [done|]. intros c' Hc'. by apply Hcs, list_elem_of_further.
Qed.

Lemma resolve_NoDup (fuel : nat) i ids :
  resolve fuel locs i = Some ids → NoDup ids.
Proof.
  revert i ids. induction fuel as [|fuel IH]; intros i ids; [done|].
  rewrite resolve_unfold, for_children_Some. intros (rs & Hrs & ->).
  simpl. apply NoDup_cons. split.
  - intros (r & Hi & Hr)%list_elem_of_join.
    destruct (Forall2_elem_r _ _ _ _ Hrs Hr) as (c & Hc & Hres).
    apply children_of_spec in Hc. apply (Hacyc i).
    eapply tc_rtc_l; [|by apply tc_once].
    by apply (resolve_elem locs fuel c r i).
  - apply (NoDup_subtrees i (children_of i)).
    + apply children_of_NoDup.
    + intros c Hc. by apply children_of_spec.
    + eapply Forall2_impl; [exact Hrs|]. intros c r Hres. simpl in Hres. split.
      * by apply (IH c).
      * intros x Hx. by apply (resolve_elem locs fuel c r x).
Qed.

End ResolverOnTrees.

Lemma resolve_exact (locs : list LocationDoc) (rootId : ObjectId) :
  unique_ids locs → acyclic locs →
  ∃ ids,
    (∀ fuel : nat, (length locs < fuel)%nat →
       VenueController.getAllChildLocationIds fuel locs rootId = Some ids) ∧
    NoDup ids ∧
    ∀ x, x ∈ ids ↔ in_subtree locs rootId x.
Proof.
  intros Huniq Hacyc.
  destruct (resolve_total locs Hacyc rootId) as [ids Hids].
  exists ids. split_and!.
  - intros fuel Hfuel. eapply resolve_fuel_mono; [|exact Hids]. lia.
  - by eapply resolve_NoDup.
  - intros x. unfold in_subtree. rewrite <- rtc_tc. by eapply resolve_elem.
Qed.

(** The two copies of the resolver are the same function. *)
Lemma resolvers_agree (fuel : nat) locs i :
  UserController.getAllChildLocationIds fuel locs i
  = VenueController.getAllChildLocationIds fuel locs i.
Proof. reflexivity. Qed.

(** The resolved ids are ids of stored locations, one for each location of
    the subtree. *)
Lemma subtree_members_length (locs : list LocationDoc) rootId (ids : list ObjectId) :
  unique_ids locs → rootId ∈ loc_id <$> locs → NoDup ids →
  (∀ x, x ∈ ids ↔ in_subtree locs rootId x) →
  length (filter (λ l, loc_id l ∈ ids) locs) = length ids.
Proof.
  intros Huniq Hroot Hnd Hids.
  rewrite <- (length_fmap loc_id). apply Permutation_length, NoDup_Permutation.
  - eapply sublist_NoDup; [exact Huniq|]. apply fmap_sublist, sublist_filter.
  - done.
  - intros x. rewrite list_elem_of_fmap. split.
    + intros (l & -> & Hl). by apply list_elem_of_filter in Hl as [? _].
    + intros Hx.
      assert (x ∈ loc_id <$> locs) as (l & -> & Hl)%list_elem_of_fmap.
      { apply Hids in Hx as [->|Htc]; [done|].
        assert (∃ y, parent_of locs x y) as (y & l & Hl & <- & _)
          by (inversion Htc; eauto).
        by apply list_elem_of_fmap_2. }
      exists l. split; [done|]. by apply list_elem_of_filter.
Qed.

(** C1.  On a store with unique ids and an acyclic parent graph, and for a
    root that is stored, the descendant resolver of either controller returns
    (with fuel above the size of the store) a list without duplicates whose
    members are exactly the root and the locations whose parent chain reaches
    the root. *)
Theorem getAllChildLocationIds_exact (locs : list LocationDoc) (rootId : ObjectId) :
  unique_ids locs → acyclic locs → rootId ∈ loc_id <$> locs →
  ∃ ids,
    (∀ fuel : nat, (length locs < fuel)%nat →
       VenueController.getAllChildLocationIds fuel locs rootId = Some ids ∧
       UserController.getAllChildLocationIds fuel locs rootId = Some ids) ∧
    NoDup ids ∧
    ∀ x, x ∈ ids ↔ in_subtree locs rootId x.
Proof.
  intros Huniq Hacyc _.
  destruct (resolve_exact locs rootId Huniq Hacyc) as (ids & Hres & Hnd & Hin).
  exists ids. split_and!; [|done..].
  intros fuel Hfuel. split; [exact (Hres fuel Hfuel)|].
  rewrite <- (Hres fuel Hfuel). apply resolvers_agree.
Qed.

Lemma rwanda_locs_unique : unique_ids rwanda_locs.
Proof. apply (bool_decide_unpack _). vm_compute. exact I. Defined.

Lemma rwanda_locs_acyclic : acyclic rwanda_locs.
Proof. apply acyclicb_sound; [exact rwanda_locs_unique|]. vm_compute. reflexivity. Defined.

Lemma getAllChildLocationIds_exact_witness :
  ∃ ids,
    (∀ fuel : nat, (length rwanda_locs < fuel)%nat →
       VenueController.getAllChildLocationIds fuel rwanda_locs 1%N = Some ids ∧
       UserController.getAllChildLocationIds fuel rwanda_locs 1%N = Some ids) ∧
    NoDup ids ∧
    ∀ x, x ∈ ids ↔ in_subtree rwanda_locs 1%N x.
Proof.
  apply (getAllChildLocationIds_exact rwanda_locs 1%N).
  - exact rwanda_locs_unique.
  - exact rwanda_locs_acyclic.
  - apply (bool_decide_unpack _). vm_compute. exact I.
Defined.

(** ** Requests *)

Lemma castObjectId_truthy raw i :
  castObjectId raw = Some i → truthy_string raw = true.
Proof. destruct raw; [discriminate|done]. Qed.

Lemma castQuery_Some raw i : castObjectId raw = Some i → castQuery raw = Ok i.
Proof. unfold castQuery. by intros ->. Qed.

Lemma truthy_string_true s : s ≠ "" → truthy_string s = true.
Proof. by destruct s. Qed.

Lemma findById_elem {A} `{Document A} (docs : list A) d :
  d ∈ docs → is_Some (findById docs (_id d)).
Proof.
  intros Hd. destruct (findById docs (_id d)) eqn:E; [by eexists|].
  apply findById_None in E. exfalso. apply E. by apply list_elem_of_fmap_2.
Qed.

(** ** Identity resolution *)

Lemma authenticateUser_resolved (db : Db) (req : Request) raw i u :
  x_user_id req = Some raw → castObjectId raw = Some i →
  findById (users db) i = Some u →
  Auth.authenticateUser db req = Next (set_user req (populate_user db u)).
Proof.
  intros Hraw Hcast Hu. unfold Auth.authenticateUser.
  by rewrite Hraw, (castObjectId_truthy _ _ Hcast), (castQuery_Some _ _ Hcast), Hu.
Qed.

(** C7.  On an authenticated route, a request without the [x-user-id]
    header, or whose header names no stored user, ends with status 401;
    otherwise the next handler runs on a request whose [user] is the stored
    user the header resolves to, with its location populated (the name and
    code of the stored location the user refers to, [null] when the
    reference dangles), and whose other properties are those of the request
    received. *)
Theorem authenticateUser_spec (db : Db) (req : Request) :
  ((x_user_id req = None ∨
    ∃ raw, x_user_id req = Some raw ∧
           ∀ u, u ∈ users db → castObjectId raw ≠ Some (user_id u)) →
   ∃ res, Auth.authenticateUser db req = Respond res ∧ status res = 401%N) ∧
  (∀ raw i u,
     x_user_id req = Some raw → castObjectId raw = Some i →
     findById (users db) i = Some u →
     ∃ req' pu,
       Auth.authenticateUser db req = Next req' ∧
       user req' = Some pu ∧ pu_doc pu = u ∧
       (∀ l, findById (locations db) (user_location u) = Some l →
             pu_location pu
             = Some {| lv_id := loc_id l; lv_name := loc_name l;
                       lv_code := loc_code l |}) ∧
       (findById (locations db) (user_location u) = None → pu_location pu = None) ∧
       x_user_id req' = x_user_id req ∧ params_id req' = params_id req ∧
       params_locationId req' = params_locationId req ∧ body req' = body req).
Proof.
  unfold Auth.authenticateUser. split.
  - intros [->|(raw & -> & Hnone)]; [by eexists|].
    destruct (truthy_string raw); simpl; [|by eexists].
    unfold castQuery. destruct (castObjectId raw) as [i|] eqn:Hcast; [|by eexists].
    destruct (findById (users db) i) as [u|] eqn:Hu; [|by eexists].
    apply findById_Some in Hu as [Hin Hid]. exfalso.
    apply (Hnone u Hin). rewrite <- Hid. reflexivity.
  - intros raw i u Hraw Hcast Hu.
    fold (Auth.authenticateUser db req).
    rewrite (authenticateUser_resolved db req raw i u Hraw Hcast Hu).
    eexists _, _. split; [reflexivity|]. simpl. split_and!; try reflexivity.
    + intros l Hl. simpl. by rewrite Hl.
    + intros Hl. simpl. by rewrite Hl.
Qed.

Lemma authenticateUser_spec_witness :
  (∃ res, Auth.authenticateUser sample_db (request (Some hex9) hex1 empty_body)
          = Respond res ∧ status res = 401%N) ∧
  (∃ req' pu,
     Auth.authenticateUser sample_db (request (Some hex2) hex1 empty_body) = Next req' ∧
     user req' = Some pu ∧ pu_doc pu = ben ∧
     (∀ l, findById (locations sample_db) (user_location ben) = Some l →
           pu_location pu
           = Some {| lv_id := loc_id l; lv_name := loc_name l;
                     lv_code := loc_code l |}) ∧
     (findById (locations sample_db) (user_location ben) = None →
      pu_location pu = None) ∧
     x_user_id req' = Some hex2 ∧ params_id req' = hex1 ∧
     params_locationId req' = hex1 ∧ body req' = empty_body).
Proof.
  split.
  - apply (proj1 (authenticateUser_spec sample_db (request (Some hex9) hex1 empty_body))).
    right. exists hex9. split; [reflexivity|].
    apply (Forall_forall (λ u, castObjectId hex9 ≠ Some (user_id u)) sample_users).
    apply (bool_decide_unpack _). vm_compute. exact I.
  - apply (proj2 (authenticateUser_spec sample_db (request (Some hex2) hex1 empty_body))
             hex2 2%N ben); reflexivity.
Defined.

(** ** Deleting a location *)

(** C8.  For a stored location [L]: when some location has parent [L] the
    delete request ends with status 400 and the store is unchanged; when no
    location has parent [L] it ends with status 200 and the store loses
    exactly the location with the id of [L]. *)
Theorem deleteLocation_children (db : Db) (req : Request) (L : LocationDoc) :
  L ∈ locations db →
  castObjectId (params_id req) = Some (loc_id L) →
  ((∃ c, c ∈ locations db ∧ loc_parent c = Some (loc_id L)) →
   ∃ res, LocationController.deleteLocation db req = (db, res) ∧
          status res = 400%N ∧
          message res = Some "Cannot delete location with child locations") ∧
  ((∀ c, c ∈ locations db → loc_parent c ≠ Some (loc_id L)) →
   ∃ db' res, LocationController.deleteLocation db req = (db', res) ∧
          status res = 200%N ∧ success res = true ∧
          (L ∉ locations db') ∧
          (∀ d, d ∈ locations db' ↔ d ∈ locations db ∧ loc_id d ≠ loc_id L) ∧
          users db' = users db ∧ venues db' = venues db).
Proof.
  intros HL Hcast. unfold LocationController.deleteLocation.
  rewrite (castQuery_Some _ _ Hcast). simpl.
  unfold Location.countDocuments_parent, Location.find_parent. split.
  - intros (c & Hc & Hp).
    assert (c ∈ filter (λ l, loc_parent l = Some (loc_id L)) (locations db)) as Hin
      by (by apply list_elem_of_filter).
    destruct (filter _ (locations db)) as [|c' rest]; [by apply elem_of_nil in Hin|].
    simpl. by eexists.
  - intros Hnone.
    assert (filter (λ l, loc_parent l = Some (loc_id L)) (locations db) = []) as ->.
    { destruct (filter _ (locations db)) as [|c rest] eqn:E; [done|]. exfalso.
      assert (c ∈ filter (λ l, loc_parent l = Some (loc_id L)) (locations db)) as Hin
        by (rewrite E; apply list_elem_of_here).
      apply list_elem_of_filter in Hin as [Hp Hin]. by apply (Hnone c). }
    simpl. unfold findByIdAndDelete.
    destruct (findById (locations db) (loc_id L)) as [d|] eqn:Hd.
    + do 2 eexists. split_and!; try done.
      * simpl. rewrite list_elem_of_filter. intros [Hne _]. by apply Hne.
      * intros d'. simpl. rewrite list_elem_of_filter. tauto.
    + apply findById_None in Hd. exfalso. apply Hd.
      by apply (list_elem_of_fmap_2 loc_id).
Qed.

Lemma deleteLocation_children_witness :
  (∃ res, LocationController.deleteLocation sample_db (request None hex2 empty_body)
          = (sample_db, res) ∧ status res = 400%N ∧
          message res = Some "Cannot delete location with child locations") ∧
  (∃ db' res, LocationController.deleteLocation sample_db (request None hex3 empty_body)
          = (db', res) ∧ status res = 200%N ∧ success res = true ∧
          (kicukiro ∉ locations db') ∧
          (∀ d, d ∈ locations db' ↔ d ∈ locations sample_db ∧ loc_id d ≠ 3%N) ∧
          users db' = users sample_db ∧ venues db' = venues sample_db).
Proof.
  split.
  - apply (proj1 (deleteLocation_children sample_db (request None hex2 empty_body)
                    kigali
                    ltac:(apply (bool_decide_unpack _); vm_compute; exact I)
                    eq_refl)).
    exists kicukiro.
    split; [|reflexivity]. apply (bool_decide_unpack _). vm_compute. exact I.
  - apply (proj2 (deleteLocation_children sample_db (request None hex3 empty_body)
                    kicukiro
                    ltac:(apply (bool_decide_unpack _); vm_compute; exact I)
                    eq_refl)).
    apply (Forall_forall (λ c, loc_parent c ≠ Some 3%N) rwanda_locs).
    apply (bool_decide_unpack _). vm_compute. exact I.
Defined.

(** ** Queries by location *)

Lemma pv_doc_populate (db : Db) (vs : list VenueDoc) :
  pv_doc <$> (populate_venue db <$> vs) = vs.
Proof. induction vs as [|v vs IH]; [done|]. rewrite !fmap_cons. by f_equal. Qed.

Lemma pu_doc_populate (db : Db) (us : list UserDoc) :
  pu_doc <$> (populate_user db <$> us) = us.
Proof. induction us as [|u us IH]; [done|]. rewrite !fmap_cons. by f_equal. Qed.

(** C2.  On an acyclic store that holds [L], the venues-by-location query
    answers 200 and its data are exactly the stored venues whose location
    lies in the subtree of [L] (the root [L] and all its transitive
    children), each once and in the order of the store; [count] is their
    number and [locationsSearched] is the number of locations of that
    subtree. *)
Theorem getVenuesByLocation_subtree (db : Db) (req : Request) (L : LocationDoc) :
  unique_ids (locations db) → acyclic (locations db) → L ∈ locations db →
  castObjectId (params_locationId req) = Some (loc_id L) →
  ∃ ids,
    NoDup ids ∧
    (∀ x, x ∈ ids ↔ in_subtree (locations db) (loc_id L) x) ∧
    ∀ fuel : nat, (length (locations db) < fuel)%nat →
      ∃ res count locationsSearched data,
        VenueController.getVenuesByLocation fuel db req = Some res ∧
        status res = 200%N ∧ success res = true ∧
        payload res
        = VenueList count locationsSearched
            {| lv_id := loc_id L; lv_name := loc_name L; lv_code := loc_code L |}
            data ∧
        pv_doc <$> data = filter (λ v, venue_location v ∈ ids) (venues db) ∧
        (∀ v, v ∈ pv_doc <$> data ↔
              v ∈ venues db ∧
              in_subtree (locations db) (loc_id L) (venue_location v)) ∧
        count = length data ∧
        locationsSearched = length ids ∧
        locationsSearched = length (filter (λ l, loc_id l ∈ ids) (locations db)).
Proof.
  intros Huniq Hacyc HL Hcast.
  destruct (resolve_exact (locations db) (loc_id L) Huniq Hacyc)
    as (ids & Hres & Hnd & Hin).
  exists ids. split_and!; [done..|]. intros fuel Hfuel.
  unfold VenueController.getVenuesByLocation.
  rewrite (castQuery_Some _ _ Hcast).
  assert (findById (locations db) (loc_id L) = Some L) as ->
    by (by apply findById_unique).
  rewrite (Hres fuel Hfuel).
  set (found := filter (λ v, venue_location v ∈ ids) (venues db)).
  exists (ok 200 (VenueList (length found) (length ids) (view_location L)
                    (populate_venue db <$> found))),
    (length found), (length ids), (populate_venue db <$> found).
  split_and!; try reflexivity.
  - apply pv_doc_populate.
  - intros v. rewrite pv_doc_populate. unfold found.
    rewrite list_elem_of_filter, Hin. tauto.
  - by rewrite length_fmap.
  - rewrite (subtree_members_length _ (loc_id L)); [done..| |done|done].
    by apply (list_elem_of_fmap_2 loc_id).
Qed.

Lemma getVenuesByLocation_subtree_witness :
  ∃ ids,
    NoDup ids ∧
    (∀ x, x ∈ ids ↔ in_subtree rwanda_locs 1%N x) ∧
    ∀ fuel : nat, (4 < fuel)%nat →
      ∃ res count locationsSearched data,
        VenueController.getVenuesByLocation fuel sample_db
          (request None hex1 empty_body) = Some res ∧
        status res = 200%N ∧ success res = true ∧
        payload res
        = VenueList count locationsSearched
            {| lv_id := 1%N; lv_name := "Rwanda"; lv_code := "RW" |} data ∧
        pv_doc <$> data = filter (λ v, venue_location v ∈ ids) sample_venues ∧
        (∀ v, v ∈ pv_doc <$> data ↔
              v ∈ sample_venues ∧ in_subtree rwanda_locs 1%N (venue_location v)) ∧
        count = length data ∧
        locationsSearched = length ids ∧
        locationsSearched = length (filter (λ l, loc_id l ∈ ids) rwanda_locs).
Proof.
  apply (getVenuesByLocation_subtree sample_db (request None hex1 empty_body) rwanda).
  - exact rwanda_locs_unique.
  - exact rwanda_locs_acyclic.
  - apply (bool_decide_unpack _). vm_compute. exact I.
  - reflexivity.
Defined.

(** The query of the example of the specification. *)
Example getVenuesByLocation_rwanda :
  ∃ res data,
    VenueController.getVenuesByLocation 5 sample_db (request None hex1 empty_body)
    = Some res ∧
    status res = 200%N ∧
    payload res
    = VenueList 2 3 {| lv_id := 1%N; lv_name := "Rwanda"; lv_code := "RW" |} data ∧
    pv_doc <$> data = [arena; hall].
Proof. eexists _, _. vm_compute. split_and!; reflexivity. Qed.

(** C10 fails for a path value that is no ObjectId: no location has it as id
    or as parent, yet the users-by-location query fails with status 500 (the
    cast of the first query of the resolver throws), and the venue query
    answers 500 as well, not 404. *)
Lemma getUsersByLocation_malformed_id :
  let req := request None "abc" empty_body in
  castObjectId (params_locationId req) = None ∧
  (∃ res, UserController.getUsersByLocation 5 sample_db req = Some res ∧
          status res = 500%N ∧ status res ≠ 200%N) ∧
  (∃ res, VenueController.getVenuesByLocation 5 sample_db req = Some res ∧
          status res = 500%N ∧ status res ≠ 404%N).
Proof.
  intros req. split; [reflexivity|].
  split; eexists; (split; [reflexivity|]); (split; [reflexivity|discriminate]).
Qed.

(** C10, as the code has it.  For a well-formed id [L] that no stored
    location has and that is the parent of no stored location, the
    users-by-location query does not check that [L] exists: it answers 200
    with [locationsSearched] 1 and the users whose location is [L] (none
    when no user reference dangles), where the venue query answers 404 for
    the same [L].  For a path value that is no ObjectId both queries answer
    500. *)
Theorem getUsersByLocation_unknown (db : Db) (req : Request) :
  (∀ L, castObjectId (params_locationId req) = Some L →
     L ∉ loc_id <$> locations db →
     (∀ l, l ∈ locations db → loc_parent l ≠ Some L) →
     ∀ fuel : nat, (0 < fuel)%nat →
       (∃ res count locationsSearched data,
          UserController.getUsersByLocation fuel db req = Some res ∧
          status res = 200%N ∧ success res = true ∧
          payload res = UserList count locationsSearched data ∧
          locationsSearched = 1%nat ∧
          pu_doc <$> data = filter (λ u, user_location u = L) (users db) ∧
          count = length data ∧
          ((∀ u, u ∈ users db → user_location u ∈ loc_id <$> locations db) →
           data = [])) ∧
       (∃ res, VenueController.getVenuesByLocation fuel db req = Some res ∧
               status res = 404%N ∧ success res = false ∧
               message res = Some "Location not found")) ∧
  (castObjectId (params_locationId req) = None →
   ∀ fuel : nat,
     (∃ res, UserController.getUsersByLocation fuel db req = Some res ∧
             status res = 500%N ∧ success res = false) ∧
     (∃ res, VenueController.getVenuesByLocation fuel db req = Some res ∧
             status res = 500%N ∧ success res = false)).
Proof.
  split.
  - intros L Hcast Hnot Hleaf fuel Hfuel.
    set (found := filter (λ u, user_location u = L) (users db)).
    assert (found = filter (λ u, user_location u ∈ [L]) (users db)) as Hfound.
    { unfold found. apply list_filter_iff. intros u.
      symmetry. apply list_elem_of_singleton. }
    split.
    + exists (ok 200 (UserList (length found) 1 (populate_user db <$> found))),
        (length found), 1%nat, (populate_user db <$> found).
      split_and!; try reflexivity.
      * unfold UserController.getUsersByLocation. rewrite (castQuery_Some _ _ Hcast).
        destruct fuel as [|fuel]; [lia|]. simpl.
        assert (Location.find_parent (locations db) L = []) as ->.
        { unfold Location.find_parent.
          destruct (filter _ (locations db)) as [|c rest] eqn:E; [done|]. exfalso.
          assert (c ∈ filter (λ l, loc_parent l = Some L) (locations db)) as Hin
            by (rewrite E; apply list_elem_of_here).
          apply list_elem_of_filter in Hin as [Hp Hin]. by apply (Hleaf c). }
        simpl. by rewrite <- Hfound.
      * apply pu_doc_populate.
      * by rewrite length_fmap.
      * intros Hrefs.
        assert (found = []) as ->; [|done]. unfold found.
        destruct (filter _ (users db)) as [|u rest] eqn:E; [done|]. exfalso.
        assert (u ∈ filter (λ u, user_location u = L) (users db)) as Hin
          by (rewrite E; apply list_elem_of_here).
        apply list_elem_of_filter in Hin as [Hu Hin]. apply Hnot.
        rewrite <- Hu. by apply Hrefs.
    + exists (fail 404 "Location not found"). split_and!; try reflexivity.
      unfold VenueController.getVenuesByLocation. rewrite (castQuery_Some _ _ Hcast).
      assert (findById (locations db) L = None) as -> by (by apply findById_None).
      done.
  - intros Hcast fuel.
    unfold UserController.getUsersByLocation, VenueController.getVenuesByLocation,
      castQuery.
    rewrite Hcast. split; by eexists.
Qed.

Lemma getUsersByLocation_unknown_witness :
  ((∃ res count locationsSearched data,
      UserController.getUsersByLocation 1 sample_db (request None hex9 empty_body)
      = Some res ∧
      status res = 200%N ∧ success res = true ∧
      payload res = UserList count locationsSearched data ∧
      locationsSearched = 1%nat ∧
      pu_doc <$> data = filter (λ u, user_location u = 9%N) sample_users ∧
      count = length data ∧
      ((∀ u, u ∈ sample_users → user_location u ∈ loc_id <$> rwanda_locs) →
       data = [])) ∧
   (∃ res, VenueController.getVenuesByLocation 1 sample_db
             (request None hex9 empty_body) = Some res ∧
           status res = 404%N ∧ success res = false ∧
           message res = Some "Location not found")) ∧
  ((∃ res, UserController.getUsersByLocation 1 sample_db (request None "abc" empty_body)
           = Some res ∧ status res = 500%N ∧ success res = false) ∧
   (∃ res, VenueController.getVenuesByLocation 1 sample_db
             (request None "abc" empty_body) = Some res ∧
           status res = 500%N ∧ success res = false)).
Proof.
  split.
  - apply (proj1 (getUsersByLocation_unknown sample_db (request None hex9 empty_body))
             9%N).
    + reflexivity.
    + apply (bool_decide_unpack _). vm_compute. exact I.
    + apply (Forall_forall (λ l, loc_parent l ≠ Some 9%N) rwanda_locs).
      apply (bool_decide_unpack _). vm_compute. exact I.
    + lia.
  - apply (proj2 (getUsersByLocation_unknown sample_db (request None "abc" empty_body))).
    reflexivity.
Defined.

(** ** Ownership of venues *)

Lemma findById_replace_doc {A} `{Document A} (d' : A) (docs : list A) j :
  findById (replace_doc d' docs) j
  = (λ d, if decide (_id d = _id d') then d' else d) <$> findById docs j.
Proof.
  unfold findById, replace_doc. induction docs as [|d docs IH]; [done|].
  rewrite fmap_cons, !filter_cons.
  destruct (decide (_id d = _id d')) as [E|E].
  - destruct (decide (_id d' = j)), (decide (_id d = j)); try congruence.
    simpl. by rewrite decide_True.
  - destruct (decide (_id d = j)); [|exact IH].
    simpl. by rewrite decide_False.
Qed.

Lemma findById_snoc_fresh {A} `{Document A} (docs : list A) (d : A) j :
  _id d = freshId docs →
  findById (docs ++ [d]) j
  = if decide (j = freshId docs) then Some d else findById docs j.
Proof.
  intros Hd. unfold findById. rewrite filter_app, head_app.
  destruct (decide (j = freshId docs)) as [->|Hj].
  - fold (findById docs (freshId docs)). rewrite freshId_fresh.
    rewrite filter_cons, decide_True; done.
  - destruct (head (filter _ docs)); [done|].
    rewrite filter_cons, decide_False; [done|]. congruence.
Qed.

(** An update that does not mention [createdBy] leaves the creator of every
    venue as it was. *)
Lemma Venue_update_createdBy vs raw upd found vs' :
  Venue.set_createdBy upd = Undefined →
  Venue.findByIdAndUpdate vs raw upd = Ok (found, vs') →
  (∀ j, venue_createdBy <$> findById vs' j = venue_createdBy <$> findById vs j) ∧
  (∀ v', found = Some v' →
     ∃ i v, castObjectId raw = Some i ∧ findById vs i = Some v ∧
            venue_id v' = venue_id v ∧ venue_createdBy v' = venue_createdBy v).
Proof.
  intros Hby. unfold Venue.findByIdAndUpdate, castQuery. rewrite Hby.
  destruct (castObjectId raw) as [i|] eqn:Hcast; [|done]. simpl.
  destruct (updated_required_ref _ _) as [loc|]; [|done]. simpl.
  destruct (updated_string _ _ _) as [pn|]; [|done]. simpl.
  destruct (updated_capacity _) as [cap|]; [|done]. simpl.
  destruct (findById vs i) as [v|] eqn:Hv.
  - intros [= <- <-]. split.
    + intros j. rewrite findById_replace_doc.
      destruct (findById vs j) as [w|] eqn:Hw; [|done]. simpl.
      case_decide as E; [|done]. simpl. f_equal.
      pose proof (findById_Some _ _ _ Hv) as [_ Hvi].
      pose proof (findById_Some _ _ _ Hw) as [_ Hwj].
      change (venue_id w = venue_id v) in E. change (venue_id v = i) in Hvi.
      change (venue_id w = j) in Hwj.
      assert (j = i) as -> by congruence. congruence.
    + intros v' [= <-]. by exists i, v.
  - intros [= <- <-]. split; [done|]. by intros v' [=].
Qed.

Lemma updateVenue_cases (db : Db) (req : Request) :
  (∃ res, VenueController.updateVenue db req = (db, res) ∧ payload res = NoData) ∨
  (∃ v' vs',
     Venue.findByIdAndUpdate (venues db) (params_id req)
       {| Venue.set_placeName := placeName (body req);
          Venue.set_capacity := capacity (body req);
          Venue.set_location := location (body req);
          Venue.set_createdBy := Undefined |} = Ok (Some v', vs') ∧
     VenueController.updateVenue db req
     = (set_venues db vs',
        ok 200 (VenueSaved (populate_venue (set_venues db vs') v')))).
Proof.
  unfold VenueController.updateVenue.
  destruct (Venue.findByIdAndUpdate _ _ _) as [[[v'|] vs']|e] eqn:Hupd; simpl.
  - destruct (location (body req)) as [| |raw]; simpl; [right; eauto..|].
    destruct (truthy_string raw); [|right; eauto].
    destruct (castQuery raw) as [i|e]; simpl.
    + destruct (findById (locations db) i); [right; eauto|left; eauto].
    + left. destruct (String.eqb _ _); eauto.
  - left. destruct (location (body req)) as [| |raw]; simpl; [eauto..|].
    destruct (truthy_string raw); [|eauto].
    destruct (castQuery raw) as [i|e]; simpl.
    + destruct (findById (locations db) i); eauto.
    + destruct (String.eqb _ _); eauto.
  - left. destruct (location (body req)) as [| |raw]; simpl;
      [destruct (String.eqb _ _); eauto..|].
    destruct (truthy_string raw); [|destruct (String.eqb _ _); eauto].
    destruct (castQuery raw) as [i|e']; simpl.
    + destruct (findById (locations db) i); [|eauto].
      destruct (String.eqb _ _); eauto.
    + destruct (String.eqb _ _); eauto.
Qed.

Lemma Venue_create_Ok vs f_pn f_cap f_loc creator v vs' :
  Venue.create vs f_pn f_cap f_loc creator = Ok (v, vs') →
  venue_id v = freshId vs ∧ venue_createdBy v = creator ∧ vs' = vs ++ [v].
Proof.
  unfold Venue.create.
  destruct (required_string _ _ _) as [pn|]; [|done]. simpl.
  destruct (required_capacity _) as [cap|]; [|done]. simpl.
  destruct (required_ref _ _) as [loc|]; [|done]. simpl.
  by intros [= <- <-].
Qed.

Lemma createVenue_cases (db : Db) (req : Request) :
  (∃ res, VenueController.createVenue db req = (db, res) ∧ payload res = NoData) ∨
  (∃ u v vs',
     user req = Some u ∧
     Venue.create (venues db) (placeName (body req)) (capacity (body req))
       (location (body req)) (user_id (pu_doc u)) = Ok (v, vs') ∧
     VenueController.createVenue db req
     = (set_venues db vs',
        ok 201 (VenueSaved (populate_venue (set_venues db vs') v)))).
Proof.
  unfold VenueController.createVenue.
  destruct (negb (truthy (placeName (body req))) || _ || _); [left; eauto|].
  destruct (location (body req)) as [| |raw]; [left; eauto..|].
  destruct (castQuery raw) as [i|e]; simpl;
    [|left; destruct (String.eqb _ _); eauto].
  destruct (findById (locations db) i); [|left; eauto].
  destruct (user req) as [u|]; simpl; [|left; eauto].
  destruct (Venue.create _ _ _ _ _) as [[v vs']|e] eqn:Hc; simpl.
  - right. exists u, v, vs'. split_and!; [done|exact Hc|done].
  - left. destruct (String.eqb _ _); eauto.
Qed.

(** C9.  An update of a venue never changes [createdBy]: after
    [updateVenue], with any body, every venue has the creator it had before,
    and the venue returned is the stored one with its creator unchanged.
    The creator is set by [createVenue], from the authenticated caller. *)
Theorem updateVenue_keeps_createdBy (db : Db) (req : Request) :
  (∀ j, venue_createdBy <$> findById (venues (VenueController.updateVenue db req).1) j
        = venue_createdBy <$> findById (venues db) j) ∧
  (∀ pv, payload (VenueController.updateVenue db req).2 = VenueSaved pv →
     ∃ i v, castObjectId (params_id req) = Some i ∧
            findById (venues db) i = Some v ∧
            venue_id (pv_doc pv) = venue_id v ∧
            venue_createdBy (pv_doc pv) = venue_createdBy v) ∧
  (∀ u pv, user req = Some u →
     payload (VenueController.createVenue db req).2 = VenueSaved pv →
     venue_createdBy (pv_doc pv) = user_id (pu_doc u) ∧
     findById (venues db) (venue_id (pv_doc pv)) = None ∧
     findById (venues (VenueController.createVenue db req).1) (venue_id (pv_doc pv))
     = Some (pv_doc pv)).
Proof.
  split_and!.
  - intros j.
    destruct (updateVenue_cases db req) as [(res & -> & _)|(v' & vs' & Hupd & ->)];
      [done|].
    edestruct Venue_update_createdBy as [Hall _]; [|exact Hupd|]; [done|].
    apply Hall.
  - intros pv.
    destruct (updateVenue_cases db req) as [(res & -> & Hno)|(v' & vs' & Hupd & ->)].
    + simpl. by rewrite Hno.
    + simpl. intros [= <-]. simpl.
      edestruct Venue_update_createdBy as [_ Hone]; [|exact Hupd|]; [done|].
      by apply Hone.
  - intros u pv Hu.
    destruct (createVenue_cases db req)
      as [(res & -> & Hno)|(u' & v & vs' & Hu' & Hcreate & ->)].
    + simpl. by rewrite Hno.
    + simpl. intros [= <-]. simpl.
      apply Venue_create_Ok in Hcreate as (Hid & Hby & ->).
      rewrite Hu in Hu'. injection Hu' as <-. split_and!.
      * done.
      * rewrite Hid. apply freshId_fresh.
      * rewrite findById_snoc_fresh by done. by rewrite Hid, decide_True.
Qed.

Lemma updateVenue_keeps_createdBy_witness :
  (let req := request (Some hex1) hex2
                (venue_body (Given "Hall B") (Given 90%Z) (Given hex4)) in
   ∃ pv, payload (VenueController.updateVenue sample_db req).2 = VenueSaved pv ∧
         venue_placeName (pv_doc pv) = "Hall B" ∧
         ∃ i v, castObjectId (params_id req) = Some i ∧
                findById (venues sample_db) i = Some v ∧
                venue_id (pv_doc pv) = venue_id v ∧
                venue_createdBy (pv_doc pv) = venue_createdBy v) ∧
  (let req := set_user
                (request (Some hex2) ""
                   (venue_body (Given "Stadium") (Given 100%Z) (Given hex2)))
                (populate_user sample_db ben) in
   ∃ pv, payload (VenueController.createVenue sample_db req).2 = VenueSaved pv ∧
         venue_createdBy (pv_doc pv) = user_id ben ∧
         findById (venues sample_db) (venue_id (pv_doc pv)) = None ∧
         findById (venues (VenueController.createVenue sample_db req).1)
           (venue_id (pv_doc pv)) = Some (pv_doc pv)).
Proof.
  split.
  - intros req. eexists. split; [reflexivity|]. split; [reflexivity|].
    apply (proj1 (proj2 (updateVenue_keeps_createdBy sample_db req))). reflexivity.
  - intros req. eexists. split; [reflexivity|].
    apply (proj2 (proj2 (updateVenue_keeps_createdBy sample_db req))
             (populate_user sample_db ben)); reflexivity.
Defined.

(** ** Creating a venue *)

(** C5.  For a venue creation by an authenticated caller: a caller with role
    Attend is answered 403 by the role gate, so that the controller does not
    run and nothing is stored; for a caller with role Admin or Organizer and
    a body with a place name that is not blank, a capacity of at least 1 and
    the id of a stored location, the answer is 201 and the store holds one
    venue more: a new venue with the trimmed place name, the capacity and
    the location of the body and the caller as creator, which is also the
    venue in the answer. *)
Theorem post_venue_by_role (db : Db) (req : Request) raw (u : UserDoc) :
  x_user_id req = Some raw → castObjectId raw = Some (user_id u) →
  findById (users db) (user_id u) = Some u →
  (user_role u = Attend →
   ∃ res, VenueRoutes.post_root db req = (db, res) ∧ status res = 403%N ∧
          Auth.requireRole [Admin; Organizer] (set_user req (populate_user db u))
          = Respond res) ∧
  (user_role u = Admin ∨ user_role u = Organizer →
   ∀ pn cap rawloc l,
     placeName (body req) = Given pn → trim pn ≠ "" →
     capacity (body req) = Given cap → (1 ≤ cap)%Z →
     location (body req) = Given rawloc →
     castObjectId rawloc = Some (loc_id l) → l ∈ locations db →
     ∃ db' res v pv,
       VenueRoutes.post_root db req = (db', res) ∧
       status res = 201%N ∧ success res = true ∧
       payload res = VenueSaved pv ∧ pv_doc pv = v ∧
       venues db' = venues db ++ [v] ∧
       findById (venues db) (venue_id v) = None ∧
       findById (venues db') (venue_id v) = Some v ∧
       venue_placeName v = trim pn ∧ venue_capacity v = cap ∧
       venue_location v = loc_id l ∧ venue_createdBy v = user_id u ∧
       locations db' = locations db ∧ users db' = users db).
Proof.
  intros Hraw Hcast Hu. unfold VenueRoutes.post_root.
  rewrite (authenticateUser_resolved db req raw _ u Hraw Hcast Hu). simpl. split.
  - intros Hrole. unfold Auth.requireRole. simpl. rewrite Hrole. simpl. by eexists.
  - intros Hrole pn cap rawloc l Hpn Htrim Hcap Hone Hloc Hlcast Hl.
    assert (Auth.requireRole [Admin; Organizer] (set_user req (populate_user db u))
            = Next (set_user req (populate_user db u))) as ->.
    { unfold Auth.requireRole. simpl. by destruct Hrole as [-> | ->]. }
    simpl. unfold VenueController.createVenue. simpl.
    rewrite Hpn, Hcap, Hloc. simpl.
    assert (truthy_string pn = true) as ->.
    { apply truthy_string_true. by intros ->. }
    assert (negb (cap =? 0)%Z = true) as -> by lia.
    rewrite (castObjectId_truthy _ _ Hlcast), (castQuery_Some _ _ Hlcast). simpl.
    destruct (findById_elem (locations db) l Hl) as [l' Hl'].
    change (_id l) with (loc_id l) in Hl'. rewrite Hl'.
    unfold Venue.create. simpl.
    rewrite (truthy_string_true _ Htrim). simpl.
    assert ((1 <=? cap)%Z = true) as -> by lia. simpl.
    rewrite Hlcast. simpl.
    eexists _, _, _, _. split; [reflexivity|]. simpl.
    split_and!; try reflexivity.
    + apply freshId_fresh.
    + rewrite findById_snoc_fresh by done. by rewrite decide_True.
Qed.

Lemma post_venue_by_role_witness :
  (∃ res, VenueRoutes.post_root sample_db
            (request (Some hex3) "" (venue_body (Given "Stadium") (Given 100%Z) (Given hex2)))
          = (sample_db, res) ∧ status res = 403%N ∧
          Auth.requireRole [Admin; Organizer]
            (set_user (request (Some hex3) ""
                         (venue_body (Given "Stadium") (Given 100%Z) (Given hex2)))
               (populate_user sample_db cy))
          = Respond res) ∧
  (∃ db' res v pv,
     VenueRoutes.post_root sample_db
       (request (Some hex2) "" (venue_body (Given " Stadium ") (Given 100%Z) (Given hex2)))
     = (db', res) ∧
     status res = 201%N ∧ success res = true ∧
     payload res = VenueSaved pv ∧ pv_doc pv = v ∧
     venues db' = sample_venues ++ [v] ∧
     findById sample_venues (venue_id v) = None ∧
     findById (venues db') (venue_id v) = Some v ∧
     venue_placeName v = "Stadium" ∧ venue_capacity v = 100%Z ∧
     venue_location v = 2%N ∧ venue_createdBy v = 2%N ∧
     locations db' = rwanda_locs ∧ users db' = sample_users).
Proof.
  split.
  - apply (proj1 (post_venue_by_role sample_db
                    (request (Some hex3) ""
                       (venue_body (Given "Stadium") (Given 100%Z) (Given hex2)))
                    hex3 cy eq_refl eq_refl eq_refl)).
    reflexivity.
  - apply (proj2 (post_venue_by_role sample_db
                    (request (Some hex2) ""
                       (venue_body (Given " Stadium ") (Given 100%Z) (Given hex2)))
                    hex2 ben eq_refl eq_refl eq_refl)
             (or_intror eq_refl) " Stadium " 100%Z hex2 kigali).
    + reflexivity.
    + vm_compute. discriminate.
    + reflexivity.
    + lia.
    + reflexivity.
    + reflexivity.
    + apply (bool_decide_unpack _). vm_compute. exact I.
Defined.

(** ** Creating a user *)

(** C4 fails: a user is created with a location id that no stored location
    has. *)
Lemma createUser_dangling_location :
  let req := request None "" (user_body "Eve" "0785" "Eve@Nelson.rw" "Attend" hex9) in
  let out := UserController.createUser sample_db req in
  findById (locations sample_db) 9%N = None ∧
  status out.2 = 201%N ∧ status out.2 ≠ 404%N ∧
  users out.1
  = sample_users ++ [ {| user_id := 5%N; user_name := "Eve"; user_phone := "0785";
                         user_email := "eve@nelson.rw"; user_role := Attend;
                         user_location := 9%N |} ].
Proof. vm_compute. split_and!; [reflexivity..|discriminate|reflexivity]. Qed.

Lemma required_role_name r : required_role (Given (role_name r)) = Ok r.
Proof. by destruct r. Qed.

Lemma trim_nonempty s : trim s ≠ "" → s ≠ "".
Proof. by intros H ->. Qed.

Lemma matches_nonempty s : matches email_pattern s = true → s ≠ "".
Proof. by intros H ->. Qed.

(** C4, as the code has it.  [createUser] does not look the location up: it
    never answers 404, and with a name and a phone that are not blank, a
    well-formed unused email, a role of the enumeration and a location that
    is a well-formed ObjectId, the answer is 201 and the store holds one
    user more, with that location id, whether or not a location with that
    id is stored; in the answer the location of the user is populated with
    the stored location, or is [null] when there is none. *)
Theorem createUser_no_location_check (db : Db) (req : Request) :
  status (UserController.createUser db req).2 ≠ 404%N ∧
  (∀ n ph e r raw i,
     name (body req) = Given n → trim n ≠ "" →
     phone (body req) = Given ph → trim ph ≠ "" →
     email (body req) = Given e →
     matches email_pattern (toLowerCase (trim e)) = true →
     User.email_taken (users db) (toLowerCase (trim e)) = false →
     role (body req) = Given (role_name r) →
     location (body req) = Given raw → castObjectId raw = Some i →
     ∃ db' res u pu,
       UserController.createUser db req = (db', res) ∧
       status res = 201%N ∧ success res = true ∧
       payload res = UserCreated pu ∧ pu_doc pu = u ∧
       users db' = users db ++ [u] ∧
       findById (users db) (user_id u) = None ∧
       findById (users db') (user_id u) = Some u ∧
       user_name u = trim n ∧ user_phone u = trim ph ∧
       user_email u = toLowerCase (trim e) ∧ user_role u = r ∧
       user_location u = i ∧
       (i ∉ loc_id <$> locations db → pu_location pu = None) ∧
       (∀ l, findById (locations db) i = Some l →
             pu_location pu
             = Some {| lv_id := loc_id l; lv_name := loc_name l;
                       lv_code := loc_code l |}) ∧
       locations db' = locations db ∧ venues db' = venues db).
Proof.
  split.
  - unfold UserController.createUser.
    destruct (negb (truthy (name (body req))) || _ || _ || _ || _); [done|].
    destruct (User.create _ _ _ _ _ _) as [[u us']|e]; simpl; [done|].
    destruct (bool_decide _); [done|]. by destruct (String.eqb _ _).
  - intros n ph e r raw i Hn Htn Hph Htph He Hmatch Hfree Hr Hraw Hcast.
    unfold UserController.createUser. rewrite Hn, Hph, He, Hraw. simpl.
    pose proof (matches_nonempty _ Hmatch) as Hlow.
    assert (e ≠ "") as Hne by (by intros ->).
    rewrite (truthy_string_true _ (trim_nonempty _ Htn)),
      (truthy_string_true _ (trim_nonempty _ Htph)),
      (truthy_string_true _ Hne), (castObjectId_truthy _ _ Hcast).
    assert (truthy (role (body req)) = true) as ->
      by (rewrite Hr; by destruct r).
    simpl. unfold User.create, required_email. simpl.
    rewrite (truthy_string_true _ Htn), (truthy_string_true _ Htph),
      (truthy_string_true _ Hlow). simpl.
    rewrite Hmatch. simpl. rewrite Hr, required_role_name. simpl.
    rewrite Hcast. simpl. rewrite Hfree.
    eexists _, _, _, _. split; [reflexivity|]. simpl.
    split_and!; try reflexivity.
    + apply freshId_fresh.
    + rewrite findById_snoc_fresh by done. by rewrite decide_True.
    + intros Hnot. apply findById_None in Hnot.
      change (findById (locations db) i = None) in Hnot. simpl. by rewrite Hnot.
    + intros l Hl. simpl. by rewrite Hl.
Qed.

Lemma createUser_no_location_check_witness :
  ∃ db' res u pu,
    UserController.createUser sample_db
      (request None "" (user_body " Eve " "0785" "Eve@Nelson.rw" "Attend" hex9))
    = (db', res) ∧
    status res = 201%N ∧ success res = true ∧
    payload res = UserCreated pu ∧ pu_doc pu = u ∧
    users db' = sample_users ++ [u] ∧
    findById sample_users (user_id u) = None ∧
    findById (users db') (user_id u) = Some u ∧
    user_name u = "Eve" ∧ user_phone u = "0785" ∧
    user_email u = "eve@nelson.rw" ∧ user_role u = Attend ∧
    user_location u = 9%N ∧
    (9%N ∉ loc_id <$> rwanda_locs → pu_location pu = None) ∧
    (∀ l, findById rwanda_locs 9%N = Some l →
          pu_location pu
          = Some {| lv_id := loc_id l; lv_name := loc_name l;
                    lv_code := loc_code l |}) ∧
    locations db' = rwanda_locs ∧ venues db' = sample_venues.
Proof.
  apply (proj2 (createUser_no_location_check sample_db
                  (request None "" (user_body " Eve " "0785" "Eve@Nelson.rw" "Attend" hex9)))
           " Eve " "0785" "Eve@Nelson.rw" Attend hex9 9%N);
    try reflexivity; vm_compute; discriminate.
Defined.

(** ** The ownership gate *)

(** C6 fails for an Admin on a missing venue: the request passes the gate
    and is answered 404 by the controller. *)
Lemma admin_delete_missing_venue :
  let req := request (Some hex1) hex9 empty_body in
  (∃ req1 pu, Auth.authenticateUser sample_db req = Next req1 ∧
              user req1 = Some pu ∧ user_role (pu_doc pu) = Admin) ∧
  findById (venues sample_db) 9%N = None ∧
  status (VenueRoutes.delete_id sample_db req).2 = 404%N ∧
  status (VenueRoutes.delete_id sample_db req).2 ≠ 200%N.
Proof.
  intros req. split_and!; [|reflexivity|reflexivity|discriminate].
  eexists _, _. split_and!; reflexivity.
Qed.

Lemma checkVenueOwnership_admin (db : Db) (req : Request) (u : PopulatedUser) :
  user req = Some u → user_role (pu_doc u) = Admin →
  Auth.checkVenueOwnership db req = Next req.
Proof.
  intros Hu Hrole. unfold Auth.checkVenueOwnership.
  by rewrite Hu, bool_decide_eq_true_2.
Qed.

Lemma checkVenueOwnership_other (db : Db) (req : Request) (u : PopulatedUser) i :
  user req = Some u → user_role (pu_doc u) ≠ Admin →
  castObjectId (params_id req) = Some i →
  Auth.checkVenueOwnership db req
  = match findById (venues db) i with
    | None => Respond (fail 404 "Venue not found")
    | Some venue =>
        if bool_decide (venue_createdBy venue ≠ user_id (pu_doc u)) then
          Respond (fail 403 "Access denied. You can only modify venues you created")
        else Next req
    end.
Proof.
  intros Hu Hrole Hcast. unfold Auth.checkVenueOwnership.
  rewrite Hu, bool_decide_eq_false_2 by done.
  by rewrite (castObjectId_truthy _ _ Hcast), (castQuery_Some _ _ Hcast).
Qed.

Lemma checkVenueOwnership_pass (db : Db) (req : Request) (u : PopulatedUser) i v :
  user req = Some u → castObjectId (params_id req) = Some i →
  findById (venues db) i = Some v →
  user_role (pu_doc u) = Admin ∨ venue_createdBy v = user_id (pu_doc u) →
  Auth.checkVenueOwnership db req = Next req.
Proof.
  intros Hu Hcast Hv Hown.
  destruct (decide (user_role (pu_doc u) = Admin)) as [Hadmin|Hother].
  - by eapply checkVenueOwnership_admin.
  - destruct Hown as [?|Hown]; [done|].
    rewrite (checkVenueOwnership_other db req u i Hu Hother Hcast), Hv.
    by rewrite bool_decide_eq_false_2 by (by intros ?).
Qed.

Lemma deleteVenue_found (db : Db) (req : Request) i (found : option VenueDoc) :
  castObjectId (params_id req) = Some i → findById (venues db) i = found →
  VenueController.deleteVenue db req
  = match found with
    | Some v =>
        (set_venues db (filter (λ d, venue_id d ≠ i) (venues db)),
         ok_message 200 "Venue deleted successfully" (VenueDeleted v))
    | None => (db, fail 404 "Venue not found")
    end.
Proof.
  intros Hcast Hv. unfold VenueController.deleteVenue, findByIdAndDelete.
  rewrite (castQuery_Some _ _ Hcast). simpl. rewrite Hv. by destruct found.
Qed.

(** [updateVenue] on a body that passes its checks: 404 when the path id
    names no stored venue, else the stored venue is replaced by one that
    takes the properties the body gives and keeps the others. *)
Lemma updateVenue_valid (db : Db) (req : Request) i (found : option VenueDoc) :
  castObjectId (params_id req) = Some i → findById (venues db) i = found →
  valid_venue_update db (body req) →
  match found with
  | None => VenueController.updateVenue db req = (db, fail 404 "Venue not found")
  | Some v =>
      ∃ v',
        VenueController.updateVenue db req
        = (set_venues db (replace_doc v' (venues db)),
           ok 200 (VenueSaved
                     (populate_venue (set_venues db (replace_doc v' (venues db))) v'))) ∧
        venue_id v' = venue_id v ∧ venue_createdBy v' = venue_createdBy v ∧
        venue_placeName v'
        = match placeName (body req) with
          | Given pn => trim pn
          | _ => venue_placeName v
          end ∧
        venue_capacity v'
        = match capacity (body req) with
          | Given cap => cap
          | _ => venue_capacity v
          end ∧
        venue_location v'
        = match location (body req) with
          | Given raw => default (venue_location v) (castObjectId raw)
          | _ => venue_location v
          end
  end.
Proof.
  intros Hcast Hv (Hpn & Hcap & Hloc).
  unfold VenueController.updateVenue, Venue.findByIdAndUpdate.
  rewrite (castQuery_Some _ _ Hcast). cbn [Venue.set_placeName Venue.set_capacity
    Venue.set_location Venue.set_createdBy].
  destruct Hpn as [Epn|(pn & Epn & Hpn)], Hcap as [Ecap|(cap & Ecap & Hcap)];
    rewrite Epn, Ecap;
    (destruct Hloc as [Eloc|(raw & l & Eloc & Hlcast & Hl)]; rewrite Eloc;
     [|rewrite (castObjectId_truthy _ _ Hlcast); simpl;
       rewrite (castQuery_Some _ _ Hlcast); simpl;
       destruct (findById_elem (locations db) l Hl) as [l' Hl'];
       change (_id l) with (loc_id l) in Hl'; rewrite Hl', Hlcast]);
    simpl;
    try rewrite (truthy_string_true _ Hpn);
    try (assert ((1 <=? cap)%Z = true) as -> by lia);
    simpl; rewrite Hv; destruct found as [v|]; try done;
    (eexists; split; [reflexivity|done]).
Qed.

(** C6, as the code has it.  For a venue update or delete by an
    authenticated caller: an Admin passes the ownership gate
    unconditionally, the controller then decides; a caller who is not Admin
    is answered 404 when the path id is a well-formed id of no stored venue,
    and 403 when the venue is stored with another creator, and nothing
    changes; the creator of the venue and any Admin pass the gate on a
    stored venue, after which the delete is answered 200 and the venue is
    gone from the store, and the update is answered 200 with the venue
    stored with the properties of the body when each of them is left out or
    valid; for an Admin on a well-formed id of no stored venue the delete is
    answered 404, and so is the update when each property of the body is
    left out or valid. *)
Theorem venue_ownership_gate (db : Db) (req : Request) raw (u : UserDoc) :
  x_user_id req = Some raw → castObjectId raw = Some (user_id u) →
  findById (users db) (user_id u) = Some u →
  let req1 := set_user req (populate_user db u) in
  (user_role u = Admin →
   Auth.checkVenueOwnership db req1 = Next req1 ∧
   VenueRoutes.put_id db req = VenueController.updateVenue db req1 ∧
   VenueRoutes.delete_id db req = VenueController.deleteVenue db req1) ∧
  (∀ i, user_role u ≠ Admin → castObjectId (params_id req) = Some i →
     findById (venues db) i = None →
     ∃ res res',
       VenueRoutes.put_id db req = (db, res) ∧ status res = 404%N ∧
       VenueRoutes.delete_id db req = (db, res') ∧ status res' = 404%N) ∧
  (∀ i v, user_role u ≠ Admin → castObjectId (params_id req) = Some i →
     findById (venues db) i = Some v → venue_createdBy v ≠ user_id u →
     ∃ res res',
       VenueRoutes.put_id db req = (db, res) ∧ status res = 403%N ∧
       VenueRoutes.delete_id db req = (db, res') ∧ status res' = 403%N) ∧
  (∀ i v, castObjectId (params_id req) = Some i →
     findById (venues db) i = Some v →
     user_role u = Admin ∨ venue_createdBy v = user_id u →
     Auth.checkVenueOwnership db req1 = Next req1 ∧
     (∃ db' res,
        VenueRoutes.delete_id db req = (db', res) ∧
        status res = 200%N ∧ success res = true ∧ payload res = VenueDeleted v ∧
        findById (venues db') i = None ∧
        (∀ w, w ∈ venues db' ↔ w ∈ venues db ∧ venue_id w ≠ i) ∧
        locations db' = locations db ∧ users db' = users db) ∧
     (valid_venue_update db (body req) →
      ∃ db' res pv,
        VenueRoutes.put_id db req = (db', res) ∧
        status res = 200%N ∧ success res = true ∧ payload res = VenueSaved pv ∧
        findById (venues db') i = Some (pv_doc pv) ∧
        venue_id (pv_doc pv) = i ∧
        venue_createdBy (pv_doc pv) = venue_createdBy v ∧
        (∀ pn, placeName (body req) = Given pn →
               venue_placeName (pv_doc pv) = trim pn) ∧
        (placeName (body req) = Undefined →
         venue_placeName (pv_doc pv) = venue_placeName v) ∧
        (∀ cap, capacity (body req) = Given cap → venue_capacity (pv_doc pv) = cap) ∧
        (capacity (body req) = Undefined →
         venue_capacity (pv_doc pv) = venue_capacity v) ∧
        (∀ rawl j, location (body req) = Given rawl → castObjectId rawl = Some j →
                   venue_location (pv_doc pv) = j) ∧
        (location (body req) = Undefined →
         venue_location (pv_doc pv) = venue_location v) ∧
        locations db' = locations db ∧ users db' = users db)) ∧
  (∀ i, user_role u = Admin → castObjectId (params_id req) = Some i →
     findById (venues db) i = None →
     (∃ res, VenueRoutes.delete_id db req = (db, res) ∧ status res = 404%N) ∧
     (valid_venue_update db (body req) →
      ∃ res, VenueRoutes.put_id db req = (db, res) ∧ status res = 404%N)).
Proof.
  intros Hraw Hcast Hu req1.
  unfold VenueRoutes.put_id, VenueRoutes.delete_id.
  rewrite (authenticateUser_resolved db req raw _ u Hraw Hcast Hu).
  fold req1. simpl. split_and!.
  - intros Hrole.
    by rewrite (checkVenueOwnership_admin db req1 (populate_user db u) eq_refl Hrole).
  - intros i Hrole Hi Hv.
    rewrite (checkVenueOwnership_other db req1 (populate_user db u) i eq_refl Hrole Hi).
    rewrite Hv. by eexists _, _.
  - intros i v Hrole Hi Hv Hby.
    rewrite (checkVenueOwnership_other db req1 (populate_user db u) i eq_refl Hrole Hi).
    rewrite Hv. simpl. rewrite bool_decide_eq_true_2 by done. by eexists _, _.
  - intros i v Hi Hv Hown.
    rewrite (checkVenueOwnership_pass db req1 (populate_user db u) i v eq_refl Hi Hv Hown).
    simpl. split_and!; [done| |].
    + rewrite (deleteVenue_found db req1 i (Some v) Hi Hv).
      eexists _, _. split; [reflexivity|]. simpl. split_and!; try reflexivity.
      * apply findById_None. intros (w & Hw & Hin)%list_elem_of_fmap.
        apply list_elem_of_filter in Hin as [Hne _]. by apply Hne.
      * intros w. rewrite list_elem_of_filter. tauto.
    + intros Hvalid.
      destruct (updateVenue_valid db req1 i (Some v) Hi Hv Hvalid)
        as (v' & -> & Hid & Hby & Hpn & Hcap & Hloc).
      apply findById_Some in Hv as Hvi. destruct Hvi as [_ Hvi].
      change (venue_id v = i) in Hvi.
      simpl in Hpn, Hcap, Hloc.
      eexists _, _, _. split; [reflexivity|]. simpl.
      split_and!; try reflexivity; simpl.
      * rewrite findById_replace_doc, Hv. simpl.
        rewrite decide_True by (by change (venue_id v = venue_id v')). done.
      * congruence.
      * done.
      * intros pn E. by rewrite E in Hpn.
      * intros E. by rewrite E in Hpn.
      * intros cap E. by rewrite E in Hcap.
      * intros E. by rewrite E in Hcap.
      * intros rawl j E Hj. by rewrite E, Hj in Hloc.
      * intros E. by rewrite E in Hloc.
  - intros i Hrole Hi Hv.
    rewrite (checkVenueOwnership_admin db req1 (populate_user db u) eq_refl Hrole).
    simpl. split.
    + rewrite (deleteVenue_found db req1 i None Hi Hv). by eexists.
    + intros Hvalid.
      rewrite (updateVenue_valid db req1 i None Hi Hv Hvalid). by eexists.
Qed.

Lemma venue_ownership_gate_witness :
  VenueRoutes.delete_id sample_db (request (Some hex1) hex9 empty_body)
  = VenueController.deleteVenue sample_db
      (set_user (request (Some hex1) hex9 empty_body) (populate_user sample_db ada)) ∧
  (∃ res res',
     VenueRoutes.put_id sample_db (request (Some hex2) hex9 empty_body)
     = (sample_db, res) ∧ status res = 404%N ∧
     VenueRoutes.delete_id sample_db (request (Some hex2) hex9 empty_body)
     = (sample_db, res') ∧ status res' = 404%N) ∧
  (∃ res res',
     VenueRoutes.put_id sample_db (request (Some hex2) hex2 empty_body)
     = (sample_db, res) ∧ status res = 403%N ∧
     VenueRoutes.delete_id sample_db (request (Some hex2) hex2 empty_body)
     = (sample_db, res') ∧ status res' = 403%N) ∧
  (∃ db' res,
     VenueRoutes.delete_id sample_db (request (Some hex2) hex1 empty_body)
     = (db', res) ∧
     status res = 200%N ∧ success res = true ∧ payload res = VenueDeleted arena ∧
     findById (venues db') 1%N = None ∧
     (∀ w, w ∈ venues db' ↔ w ∈ sample_venues ∧ venue_id w ≠ 1%N) ∧
     locations db' = rwanda_locs ∧ users db' = sample_users) ∧
  (let req := request (Some hex2) hex1
                (venue_body (Given "Arena 2") (Given 600%Z) (Given hex3)) in
   ∃ db' res pv,
     VenueRoutes.put_id sample_db req = (db', res) ∧
     status res = 200%N ∧ success res = true ∧ payload res = VenueSaved pv ∧
     findById (venues db') 1%N = Some (pv_doc pv) ∧
     venue_id (pv_doc pv) = 1%N ∧
     venue_createdBy (pv_doc pv) = venue_createdBy arena ∧
     (∀ pn, placeName (body req) = Given pn →
            venue_placeName (pv_doc pv) = trim pn) ∧
     (placeName (body req) = Undefined →
      venue_placeName (pv_doc pv) = venue_placeName arena) ∧
     (∀ cap, capacity (body req) = Given cap → venue_capacity (pv_doc pv) = cap) ∧
     (capacity (body req) = Undefined →
      venue_capacity (pv_doc pv) = venue_capacity arena) ∧
     (∀ rawl j, location (body req) = Given rawl → castObjectId rawl = Some j →
                venue_location (pv_doc pv) = j) ∧
     (location (body req) = Undefined →
      venue_location (pv_doc pv) = venue_location arena) ∧
     locations db' = rwanda_locs ∧ users db' = sample_users) ∧
  (∃ res, VenueRoutes.delete_id sample_db (request (Some hex1) hex9 empty_body)
          = (sample_db, res) ∧ status res = 404%N).
Proof.
  split_and!.
  - destruct (venue_ownership_gate sample_db (request (Some hex1) hex9 empty_body)
                hex1 ada eq_refl eq_refl eq_refl) as (Hadmin & _).
    by apply Hadmin.
  - destruct (venue_ownership_gate sample_db (request (Some hex2) hex9 empty_body)
                hex2 ben eq_refl eq_refl eq_refl) as (_ & Hmissing & _).
    apply (Hmissing 9%N); [discriminate|reflexivity|reflexivity].
  - destruct (venue_ownership_gate sample_db (request (Some hex2) hex2 empty_body)
                hex2 ben eq_refl eq_refl eq_refl) as (_ & _ & Hother & _).
    apply (Hother 2%N hall); [discriminate|reflexivity|reflexivity|discriminate].
  - destruct (venue_ownership_gate sample_db (request (Some hex2) hex1 empty_body)
                hex2 ben eq_refl eq_refl eq_refl) as (_ & _ & _ & Hown & _).
    destruct (Hown 1%N arena eq_refl eq_refl (or_intror eq_refl)) as (_ & Hdel & _).
    exact Hdel.
  - intros req.
    destruct (venue_ownership_gate sample_db req hex2 ben eq_refl eq_refl eq_refl)
      as (_ & _ & _ & Hown & _).
    destruct (Hown 1%N arena eq_refl eq_refl (or_intror eq_refl)) as (_ & _ & Hput).
    apply Hput. split_and!.
    + right. exists "Arena 2". split; [reflexivity|]. vm_compute. discriminate.
    + right. exists 600%Z. split; [reflexivity|lia].
    + right. exists hex3, kicukiro. split_and!; [reflexivity..|].
      apply (bool_decide_unpack _). vm_compute. exact I.
  - destruct (venue_ownership_gate sample_db (request (Some hex1) hex9 empty_body)
                hex1 ada eq_refl eq_refl eq_refl) as (_ & _ & _ & _ & Hgone).
    destruct (Hgone 9%N eq_refl eq_refl eq_refl) as [Hdel _]. exact Hdel.
Defined.

(** * Further properties of the code *)

(** ** The descendant resolver on any store *)

Lemma for_children_None rec cs acc c :
  c ∈ cs → rec c = None → for_children rec cs acc = None.
Proof.
  revert acc. induction cs as [|c' cs IH]; intros acc Hc Hrec.
  - by apply elem_of_nil in Hc.
  - simpl. apply elem_of_cons in Hc as [<-|Hc]; [by rewrite Hrec|].
    destruct (rec c'); [|done]. simpl. by apply IH.
Qed.

Lemma resolve_root_first (fuel : nat) locs i ids :
  VenueController.getAllChildLocationIds fuel locs i = Some ids →
  ∃ rest, ids = i :: rest.
Proof.
  destruct fuel as [|fuel]; [done|].
  rewrite resolve_unfold, for_children_Some. intros (rs & _ & ->). by eexists.
Qed.

(** The list the resolver returns starts with the id it was asked for, and
    all its other members are ids of stored locations whose parent is a
    member too; this holds on every store, and whether or not the id asked
    for is stored. *)
Theorem getAllChildLocationIds_shape (fuel : nat) (locs : list LocationDoc) i ids :
  VenueController.getAllChildLocationIds fuel locs i = Some ids →
  ∃ rest, ids = i :: rest ∧
    ∀ x, x ∈ rest →
      ∃ l p, l ∈ locs ∧ loc_id l = x ∧ loc_parent l = Some p ∧ p ∈ ids.
Proof.
  intros Hres. pose proof Hres as Hmem.
  destruct fuel as [|fuel]; [done|].
  rewrite resolve_unfold, for_children_Some in Hres.
  destruct Hres as (rs & Hrs & ->). exists (mjoin rs). split; [done|].
  intros x (r & Hx & Hr)%list_elem_of_join.
  destruct (Forall2_elem_r _ _ _ _ Hrs Hr) as (c & Hc & Hres).
  apply children_of_spec in Hc.
  apply (resolve_elem locs fuel c r x Hres) in Hx.
  apply rtc_inv in Hx as [->|(p & Hxp & Hpc)].
  - destruct Hc as (l & Hl & Hid & Hp). exists l, i. split_and!; [done..|].
    apply list_elem_of_here.
  - destruct Hxp as (l & Hl & Hid & Hp). exists l, p. split_and!; [done..|].
    apply (resolve_elem locs (S fuel) i _ p Hmem). by eapply rtc_r.
Qed.

Lemma getAllChildLocationIds_shape_witness :
  ∃ rest, [1; 2; 3]%N = 1%N :: rest ∧
    ∀ x, x ∈ rest →
      ∃ l p, l ∈ rwanda_locs ∧ loc_id l = x ∧ loc_parent l = Some p ∧
             p ∈ [1; 2; 3]%N.
Proof. apply (getAllChildLocationIds_shape 4 rwanda_locs 1%N). reflexivity. Defined.

Lemma find_parent_nil locs i :
  Location.find_parent locs i = [] ↔ ∀ l, l ∈ locs → loc_parent l ≠ Some i.
Proof.
  unfold Location.find_parent. split.
  - intros Hnil l Hl Hp.
    assert (l ∈ filter (λ l, loc_parent l = Some i) locs) as Hin
      by (by apply list_elem_of_filter).
    rewrite Hnil in Hin. by apply elem_of_nil in Hin.
  - intros Hnone. destruct (filter _ locs) as [|c rest] eqn:E; [done|]. exfalso.
    assert (c ∈ filter (λ l, loc_parent l = Some i) locs) as Hin
      by (rewrite E; apply list_elem_of_here).
    apply list_elem_of_filter in Hin as [Hp Hin]. by apply (Hnone c).
Qed.

(** The resolver answers with the singleton of the id it was asked for
    exactly when no stored location has that id as parent. *)
Theorem getAllChildLocationIds_leaf (fuel : nat) (locs : list LocationDoc) i :
  VenueController.getAllChildLocationIds (S fuel) locs i = Some [i]
  ↔ ∀ l, l ∈ locs → loc_parent l ≠ Some i.
Proof.
  rewrite <- find_parent_nil, resolve_unfold. split.
  - destruct (Location.find_parent locs i) as [|c cs] eqn:E; [done|].
    rewrite fmap_cons. simpl.
    destruct (VenueController.getAllChildLocationIds fuel locs (loc_id c))
      as [r|] eqn:Hc; [|done]. simpl.
    destruct (resolve_root_first _ _ _ _ Hc) as [rest ->].
    rewrite for_children_Some. intros (rs & _ & Heq). by simplify_list_eq.
  - by intros ->.
Qed.

Lemma getAllChildLocationIds_leaf_witness :
  VenueController.getAllChildLocationIds 1 rwanda_locs 3%N = Some [3%N].
Proof.
  apply (getAllChildLocationIds_leaf 0 rwanda_locs 3%N).
  apply (Forall_forall (λ l, loc_parent l ≠ Some 3%N) rwanda_locs).
  apply (bool_decide_unpack _). vm_compute. exact I.
Defined.

(** The subtree of a member is part of the subtree: when the resolver
    returns for a root and for one of the ids it returned, every id of the
    second result is in the first. *)
Theorem getAllChildLocationIds_nested (fuel fuel' : nat) (locs : list LocationDoc)
    root c ids ids' :
  VenueController.getAllChildLocationIds fuel locs root = Some ids →
  c ∈ ids →
  VenueController.getAllChildLocationIds fuel' locs c = Some ids' →
  ∀ x, x ∈ ids' → x ∈ ids.
Proof.
  intros Hroot Hc Hsub x Hx.
  apply (resolve_elem locs fuel root ids x Hroot).
  apply (resolve_elem locs fuel root ids c Hroot) in Hc.
  apply (resolve_elem locs fuel' c ids' x Hsub) in Hx.
  by etrans.
Qed.

Lemma getAllChildLocationIds_nested_witness : 3%N ∈ [1; 2; 3]%N.
Proof.
  apply (getAllChildLocationIds_nested 4 4 rwanda_locs 1%N 2%N [1; 2; 3]%N [2; 3]%N).
  - reflexivity.
  - apply (bool_decide_unpack _). vm_compute. exact I.
  - reflexivity.
  - apply (bool_decide_unpack _). vm_compute. exact I.
Defined.

(** *** When the resolver returns *)

Lemma tc_last {A} (R : relation A) x z :
  tc R x z → ∃ y, rtc R x y ∧ R y z.
Proof.
  induction 1 as [x z Hxz|x w z Hxw _ (y & Hwy & Hyz)].
  - exists x. by split.
  - exists y. split; [by eapply rtc_l|done].
Qed.

Lemma resolve_diverges locs (fuel : nat) i x :
  rtc (parent_of locs) x i → tc (parent_of locs) x x →
  VenueController.getAllChildLocationIds fuel locs i = None.
Proof.
  revert i x. induction fuel as [|fuel IH]; intros i x Hxi Hx; [done|].
  rewrite resolve_unfold.
  assert (∃ c y, parent_of locs c i ∧ rtc (parent_of locs) y c
                 ∧ tc (parent_of locs) y y) as (c & y & Hc & Hyc & Hy).
  { apply rtc_inv_r in Hxi as [->|(c & Hxc & Hc)]; [|by exists c, x].
    destruct (tc_last _ _ _ Hx) as (c & Hic & Hc). by exists c, i. }
  apply (for_children_None _ _ _ c); [by apply children_of_spec|].
  by apply (IH c y).
Qed.

Lemma resolve_total_below locs (root : ObjectId) (fuel : nat) i (path : list ObjectId) :
  (∀ x, rtc (parent_of locs) x root → ¬ tc (parent_of locs) x x) →
  rtc (parent_of locs) i root →
  NoDup path →
  (∀ v, v ∈ path → v ∈ loc_id <$> locs) →
  (∀ v, v ∈ path → rtc (parent_of locs) i v) →
  (length locs < length path + fuel)%nat →
  is_Some (VenueController.getAllChildLocationIds fuel locs i).
Proof.
  intros Hlocal. revert i path.
  induction fuel as [|fuel IH]; intros i path Hi Hnd Hin Hanc Hlen.
  - exfalso. pose proof (submseteq_length _ _ (NoDup_submseteq _ _ Hnd Hin)) as Hle.
    rewrite length_fmap in Hle. lia.
  - rewrite resolve_unfold. apply for_children_total. intros c Hc.
    pose proof (children_of_in_store locs c i Hc) as Hstore.
    apply children_of_spec in Hc.
    assert (rtc (parent_of locs) c root) as Hcroot by (by eapply rtc_l).
    apply (IH c (c :: path)); [done| | | |simpl; lia].
    + apply NoDup_cons. split; [|done]. intros Hcp.
      apply (Hlocal c Hcroot). eapply tc_rtc_r; [by apply tc_once|]. by apply Hanc.
    + intros v [->|Hv]%elem_of_cons; [done|]. by apply Hin.
    + intros v [->|Hv]%elem_of_cons; [done|].
      eapply rtc_l; [exact Hc|]. by apply Hanc.
Qed.

(** The resolver returns exactly when no location whose parent chain
    reaches the id asked for lies on a cycle of parent pointers: without such
    a cycle it returns within a recursion depth of the size of the store
    plus one, with one it does not return at any depth. *)
Theorem getAllChildLocationIds_returns (locs : list LocationDoc) (root : ObjectId) :
  ((∀ x, rtc (parent_of locs) x root → ¬ tc (parent_of locs) x x) →
   is_Some (VenueController.getAllChildLocationIds (S (length locs)) locs root)) ∧
  ((∃ x, rtc (parent_of locs) x root ∧ tc (parent_of locs) x x) →
   ∀ fuel : nat, VenueController.getAllChildLocationIds fuel locs root = None).
Proof.
  split.
  - intros Hlocal.
    apply (resolve_total_below locs root _ root []); [done..| | | |simpl; lia].
    + constructor.
    + intros v Hv. by apply elem_of_nil in Hv.
    + intros v Hv. by apply elem_of_nil in Hv.
  - intros (x & Hx & Hcycle) fuel. by eapply resolve_diverges.
Qed.

Lemma getAllChildLocationIds_returns_witness :
  is_Some (VenueController.getAllChildLocationIds 5 rwanda_locs 1%N) ∧
  ∀ fuel : nat,
    VenueController.getAllChildLocationIds fuel
      [ {| loc_id := 10%N; loc_name := "Huye"; loc_code := "HUY";
           loc_parent := Some 10%N |} ] 10%N = None.
Proof.
  split.
  - apply (proj1 (getAllChildLocationIds_returns rwanda_locs 1%N)).
    intros x _. apply rwanda_locs_acyclic.
  - apply (proj2 (getAllChildLocationIds_returns _ 10%N)).
    exists 10%N. split; [done|]. apply tc_once. eexists.
    split; [apply list_elem_of_here|]. split; reflexivity.
Defined.

(** ** Users by location *)

(** On a store with unique ids and acyclic parent pointers, the
    users-by-location query answers 200 and its data are exactly the stored
    users whose location is the id asked for or a location whose parent
    chain reaches it, each once and in the order of the store; [count] is
    their number and [locationsSearched] the number of ids resolved; the id
    asked for need not be stored. *)
Theorem getUsersByLocation_subtree (db : Db) (req : Request) (L : ObjectId) :
  unique_ids (locations db) → acyclic (locations db) →
  castObjectId (params_locationId req) = Some L →
  ∃ ids,
    NoDup ids ∧
    (∀ x, x ∈ ids ↔ in_subtree (locations db) L x) ∧
    ∀ fuel : nat, (length (locations db) < fuel)%nat →
      ∃ res count locationsSearched data,
        UserController.getUsersByLocation fuel db req = Some res ∧
        status res = 200%N ∧ success res = true ∧
        payload res = UserList count locationsSearched data ∧
        pu_doc <$> data = filter (λ u, user_location u ∈ ids) (users db) ∧
        (∀ u, u ∈ pu_doc <$> data ↔
              u ∈ users db ∧ in_subtree (locations db) L (user_location u)) ∧
        count = length data ∧
        locationsSearched = length ids.
Proof.
  intros Huniq Hacyc Hcast.
  destruct (resolve_exact (locations db) L Huniq Hacyc) as (ids & Hres & Hnd & Hin).
  exists ids. split_and!; [done..|]. intros fuel Hfuel.
  unfold UserController.getUsersByLocation.
  rewrite (castQuery_Some _ _ Hcast).
  change (UserController.getAllChildLocationIds fuel (locations db) L)
    with (VenueController.getAllChildLocationIds fuel (locations db) L).
  rewrite (Hres fuel Hfuel).
  set (found := filter (λ u, user_location u ∈ ids) (users db)).
  exists (ok 200 (UserList (length found) (length ids) (populate_user db <$> found))),
    (length found), (length ids), (populate_user db <$> found).
  split_and!; try reflexivity.
  - apply pu_doc_populate.
  - intros u. rewrite pu_doc_populate. unfold found.
    rewrite list_elem_of_filter, Hin. tauto.
  - by rewrite length_fmap.
Qed.

Lemma getUsersByLocation_subtree_witness :
  ∃ ids,
    NoDup ids ∧
    (∀ x, x ∈ ids ↔ in_subtree rwanda_locs 2%N x) ∧
    ∀ fuel : nat, (4 < fuel)%nat →
      ∃ res count locationsSearched data,
        UserController.getUsersByLocation fuel sample_db
          (request None hex2 empty_body) = Some res ∧
        status res = 200%N ∧ success res = true ∧
        payload res = UserList count locationsSearched data ∧
        pu_doc <$> data = filter (λ u, user_location u ∈ ids) sample_users ∧
        (∀ u, u ∈ pu_doc <$> data ↔
              u ∈ sample_users ∧ in_subtree rwanda_locs 2%N (user_location u)) ∧
        count = length data ∧
        locationsSearched = length ids.
Proof.
  apply (getUsersByLocation_subtree sample_db (request None hex2 empty_body) 2%N).
  - exact rwanda_locs_unique.
  - exact rwanda_locs_acyclic.
  - reflexivity.
Defined.

(** ** Invariants kept by the location controller *)

Lemma code_taken_spec locs c :
  Location.code_taken locs c = true ↔ c ∈ loc_code <$> locs.
Proof.
  unfold Location.code_taken. rewrite existsb_exists, list_elem_of_fmap. split.
  - intros (l & Hl & Heq). apply String.eqb_eq in Heq. exists l.
    split; [done|]. by apply list_elem_of_In.
  - intros (l & -> & Hl). exists l. split; [by apply list_elem_of_In|].
    apply String.eqb_refl.
Qed.

Lemma code_taken_false locs c :
  Location.code_taken locs c = false ↔ c ∉ loc_code <$> locs.
Proof.
  rewrite <- code_taken_spec. by destruct (Location.code_taken locs c).
Qed.

Lemma Location_create_Ok locs f_name f_code f_parent l locs' :
  Location.create locs f_name f_code f_parent = Ok (l, locs') →
  locs' = locs ++ [l] ∧ loc_id l = freshId locs ∧
  Location.code_taken locs (loc_code l) = false ∧
  required_string "Location name is required" trim f_name = Ok (loc_name l) ∧
  required_string "Location code is required" (λ s, toUpperCase (trim s)) f_code
  = Ok (loc_code l) ∧
  optional_ref f_parent = Ok (loc_parent l).
Proof.
  unfold Location.create.
  destruct (required_string _ trim f_name) as [n|]; [|done]. simpl.
  destruct (required_string _ _ f_code) as [c|]; [|done]. simpl.
  destruct (optional_ref f_parent) as [p|]; [|done]. simpl.
  destruct (Location.code_taken locs c) eqn:Hc; [done|].
  by intros [= <- <-].
Qed.

(** The outcomes of [createLocation]: the database is returned as it was,
    or one location is appended that has a fresh id, a code no stored
    location has, and no parent or a stored one. *)
Lemma createLocation_cases (db : Db) (req : Request) :
  (∃ res, LocationController.createLocation db req = (db, res) ∧ status res ≠ 201%N) ∨
  (∃ l,
     LocationController.createLocation db req
     = (set_locations db (locations db ++ [l]), ok 201 (LocationCreated l)) ∧
     Location.create (locations db) (name (body req)) (code (body req))
       (parent (body req)) = Ok (l, locations db ++ [l]) ∧
     truthy (name (body req)) = true ∧ truthy (code (body req)) = true ∧
     (loc_parent l = None ∨
      ∃ raw p, parent (body req) = Given raw ∧ castObjectId raw = Some p ∧
               loc_parent l = Some p ∧ is_Some (findById (locations db) p))).
Proof.
  unfold LocationController.createLocation.
  destruct (truthy (name (body req))) eqn:Hn; [|left; by eexists].
  destruct (truthy (code (body req))) eqn:Hc; [|left; by eexists].
  simpl.
  destruct (Location.create _ _ _ _) as [[l locs']|e] eqn:Hcreate.
  - pose proof (Location_create_Ok _ _ _ _ _ _ Hcreate)
      as (-> & Hid & Htaken & _ & _ & Hp).
    destruct (parent (body req)) as [| |raw] eqn:Hparent; simpl.
    + right. exists l. split_and!; try done. left. by injection Hp.
    + right. exists l. split_and!; try done. left. by injection Hp.
    + simpl in Hp. destruct (castObjectId raw) as [p|] eqn:Hcast; [|done].
      injection Hp as Hp.
      rewrite (castObjectId_truthy _ _ Hcast), (castQuery_Some _ _ Hcast). simpl.
      destruct (findById (locations db) p) as [lp|] eqn:Hlp.
      * right. exists l. split_and!; try done. right. exists raw, p.
        split_and!; done.
      * left. by eexists.
  - left. destruct (parent (body req)) as [| |raw]; simpl.
    + destruct (bool_decide _); by eexists.
    + destruct (bool_decide _); by eexists.
    + destruct (truthy_string raw); [|destruct (bool_decide _); by eexists].
      destruct (castQuery raw) as [i|e']; simpl.
      * destruct (findById (locations db) i); [|by eexists].
        destruct (bool_decide _); by eexists.
      * destruct (bool_decide _); by eexists.
Qed.

Lemma freshId_not_elem {A} `{Document A} (docs : list A) :
  freshId docs ∉ _id <$> docs.
Proof. apply findById_None, freshId_fresh. Qed.

Lemma findById_is_Some_elem {A} `{Document A} (docs : list A) i :
  is_Some (findById docs i) → i ∈ _id <$> docs.
Proof.
  intros [d Hd]. apply findById_Some in Hd as [Hd <-]. by apply list_elem_of_fmap_2.
Qed.

Section AppendLocation.
Variable locs : list LocationDoc.
Variable l : LocationDoc.
Hypothesis Hid : loc_id l = freshId locs.
Hypothesis Hparent : ∀ p, loc_parent l = Some p → p ∈ loc_id <$> locs.

Lemma append_unique_ids : unique_ids locs → unique_ids (locs ++ [l]).
Proof.
  unfold unique_ids. intros Hnd. rewrite fmap_app. apply NoDup_app. split_and!.
  - done.
  - intros x Hx [->|[]%elem_of_nil]%elem_of_cons.
    apply (freshId_not_elem locs). by rewrite <- Hid.
  - apply NoDup_singleton.
Qed.

Lemma append_parents_exist : parents_exist locs → parents_exist (locs ++ [l]).
Proof.
  intros Hpe d p Hd Hp. rewrite fmap_app, elem_of_app. left.
  apply elem_of_app in Hd as [Hd|[->|[]%elem_of_nil]%elem_of_cons].
  - by apply (Hpe d).
  - by apply Hparent.
Qed.

Lemma append_parent_of c p :
  parents_exist locs → parent_of (locs ++ [l]) c p →
  p ≠ freshId locs ∧ (c ≠ freshId locs → parent_of locs c p).
Proof.
  intros Hpe (d & Hd & Hc & Hp).
  apply elem_of_app in Hd as [Hd|[->|[]%elem_of_nil]%elem_of_cons].
  - split.
    + intros ->. apply (freshId_not_elem locs). by apply (Hpe d).
    + intros _. by exists d.
  - split.
    + intros ->. apply (freshId_not_elem locs). by apply Hparent.
    + intros Hne. by rewrite <- Hc, Hid in Hne.
Qed.

Lemma append_tc x y :
  parents_exist locs → tc (parent_of (locs ++ [l])) x y →
  y ≠ freshId locs ∧ (x ≠ freshId locs → tc (parent_of locs) x y).
Proof.
  intros Hpe. induction 1 as [x y Hxy|x z y Hxz _ [Hy IH]].
  - destruct (append_parent_of _ _ Hpe Hxy) as [Hy Hold]. split; [done|].
    intros Hx. by apply tc_once, Hold.
  - destruct (append_parent_of _ _ Hpe Hxz) as [Hz Hold]. split; [done|].
    intros Hx. eapply tc_l; [by apply Hold|by apply IH].
Qed.

Lemma append_acyclic : parents_exist locs → acyclic locs → acyclic (locs ++ [l]).
Proof.
  intros Hpe Hacyc x Hx. destruct (append_tc _ _ Hpe Hx) as [Hne Hold].
  by apply (Hacyc x), Hold.
Qed.

End AppendLocation.

(** [createLocation] keeps the store well formed: from a store with unique
    ids, unique codes, parent pointers to stored locations and no cycle, it
    gives a store with the same four properties, whatever the request, and
    leaves users and venues alone. *)
Theorem createLocation_keeps_invariants (db : Db) (req : Request) :
  unique_ids (locations db) → unique_codes (locations db) →
  parents_exist (locations db) → acyclic (locations db) →
  let db' := (LocationController.createLocation db req).1 in
  unique_ids (locations db') ∧ unique_codes (locations db') ∧
  parents_exist (locations db') ∧ acyclic (locations db') ∧
  users db' = users db ∧ venues db' = venues db.
Proof.
  intros Hids Hcodes Hpe Hacyc.
  destruct (createLocation_cases db req)
    as [(res & -> & _)|(l & -> & Hcreate & _ & _ & Hp)]; [done|].
  apply Location_create_Ok in Hcreate as (_ & Hid & Htaken & _).
  assert (∀ p, loc_parent l = Some p → p ∈ loc_id <$> locations db) as Hparent.
  { intros p Hlp. destruct Hp as [Hp|(raw & p' & _ & _ & Hp & Hfound)]; [congruence|].
    assert (p = p') as -> by congruence. by apply findById_is_Some_elem. }
  simpl. split_and!; [| | | |done..].
  - by apply append_unique_ids.
  - unfold unique_codes. rewrite fmap_app. apply NoDup_app. split_and!; [done| |].
    + intros c Hc [->|[]%elem_of_nil]%elem_of_cons.
      by apply code_taken_false in Htaken.
    + apply NoDup_singleton.
  - by apply append_parents_exist.
  - by apply append_acyclic.
Qed.

Lemma sample_unique_codes : unique_codes rwanda_locs.
Proof. apply (bool_decide_unpack _). vm_compute. exact I. Defined.

Lemma sample_parents_exist : parents_exist rwanda_locs.
Proof.
  intros l p Hl Hp. unfold rwanda_locs in Hl.
  repeat (apply elem_of_cons in Hl as [->|Hl]); [..|by apply elem_of_nil in Hl];
    simpl in Hp; try discriminate; injection Hp as <-;
    apply (bool_decide_unpack _); vm_compute; exact I.
Defined.

Lemma createLocation_keeps_invariants_witness :
  let db' := (LocationController.createLocation sample_db
                (request None ""
                   (location_body (Given "Gasabo") (Given "gsb") (Given hex2)))).1 in
  unique_ids (locations db') ∧ unique_codes (locations db') ∧
  parents_exist (locations db') ∧ acyclic (locations db') ∧
  users db' = users sample_db ∧ venues db' = venues sample_db.
Proof.
  apply (createLocation_keeps_invariants sample_db).
  - exact rwanda_locs_unique.
  - exact sample_unique_codes.
  - exact sample_parents_exist.
  - exact rwanda_locs_acyclic.
Defined.

Example createLocation_gasabo :
  locations (LocationController.createLocation sample_db
               (request None ""
                  (location_body (Given "Gasabo") (Given "gsb") (Given hex2)))).1
  = rwanda_locs ++ [ {| loc_id := 5%N; loc_name := "Gasabo"; loc_code := "GSB";
                        loc_parent := Some 2%N |} ].
Proof. vm_compute. reflexivity. Qed.

Lemma Location_create_again locs f_name f_code f_parent l locs' :
  Location.create locs f_name f_code f_parent = Ok (l, locs') →
  Location.create locs' f_name f_code f_parent = Throw DuplicateKey.
Proof.
  intros Hcreate.
  destruct (Location_create_Ok _ _ _ _ _ _ Hcreate) as (-> & _ & _ & Hn & Hc & Hp).
  unfold Location.create. rewrite Hn, Hc, Hp. simpl.
  assert (Location.code_taken (locs ++ [l]) (loc_code l) = true) as ->; [|done].
  apply code_taken_spec. rewrite fmap_app, elem_of_app. right. apply list_elem_of_here.
Qed.

(** Posting the same location twice: when [createLocation] has answered 201,
    the same request on the resulting database is answered 400 "Location code
    already exists" and stores nothing. *)
Theorem createLocation_twice (db db' : Db) (req : Request) (res : Response) :
  LocationController.createLocation db req = (db', res) → status res = 201%N →
  LocationController.createLocation db' req
  = (db', {| status := 400; success := false;
             message := Some "Location code already exists";
             error := None; payload := NoData |}).
Proof.
  intros Hfirst Hstatus.
  destruct (createLocation_cases db req)
    as [(res' & E & Hne)|(l & E & Hcreate & Hn & Hc & Hp)];
    rewrite E in Hfirst; injection Hfirst as <- <-; [done|].
  pose proof (Location_create_again _ _ _ _ _ _ Hcreate) as Hagain.
  unfold LocationController.createLocation. rewrite Hn, Hc. simpl.
  rewrite Hagain. simpl.
  destruct (parent (body req)) as [| |raw] eqn:Hparent; [done..|].
  apply Location_create_Ok in Hcreate as (_ & Hid & _ & _ & _ & Hopt).
  simpl in Hopt. destruct (castObjectId raw) as [p|] eqn:Hcast; [|done].
  injection Hopt as Hopt.
  rewrite (castObjectId_truthy _ _ Hcast), (castQuery_Some _ _ Hcast). simpl.
  destruct Hp as [Hp|(raw' & p' & [= <-] & Hcast' & _ & [lp Hlp])]; [congruence|].
  assert (p' = p) as -> by congruence.
  rewrite (findById_snoc_fresh (H:=LocationDoc_Document) (locations db) l p Hid), Hlp.
  by case_decide.
Qed.

Lemma createLocation_twice_witness :
  let req := request None ""
               (location_body (Given "Gasabo") (Given "gsb") (Given hex2)) in
  let db' := (LocationController.createLocation sample_db req).1 in
  LocationController.createLocation db' req
  = (db', {| status := 400; success := false;
             message := Some "Location code already exists";
             error := None; payload := NoData |}).
Proof.
  intros req db'.
  apply (createLocation_twice sample_db db' req
           (LocationController.createLocation sample_db req).2);
    reflexivity.
Defined.

(** The outcomes of [deleteLocation]: the database is returned as it was,
    or the path id is the id of a stored location without children and the
    documents with that id are removed. *)
Lemma deleteLocation_cases (db : Db) (req : Request) :
  (∃ res, LocationController.deleteLocation db req = (db, res) ∧ status res ≠ 200%N) ∨
  (∃ i l,
     castObjectId (params_id req) = Some i ∧
     Location.find_parent (locations db) i = [] ∧
     findById (locations db) i = Some l ∧
     LocationController.deleteLocation db req
     = (set_locations db (filter (λ d, loc_id d ≠ i) (locations db)),
        ok_message 200 "Location deleted successfully" (LocationDeleted l))).
Proof.
  unfold LocationController.deleteLocation, castQuery.
  destruct (castObjectId (params_id req)) as [i|] eqn:Hcast; [|left; by eexists].
  simpl. unfold Location.countDocuments_parent.
  destruct (Location.find_parent (locations db) i) as [|c cs] eqn:Hch;
    [|left; by eexists].
  simpl. unfold findByIdAndDelete.
  destruct (findById (locations db) i) as [l|] eqn:Hl; [|left; by eexists].
  right. by exists i, l.
Qed.

Lemma parent_of_filter locs (P : LocationDoc → Prop) `{∀ l, Decision (P l)} c p :
  parent_of (filter P locs) c p → parent_of locs c p.
Proof.
  intros (l & Hl & Hc & Hp). apply list_elem_of_filter in Hl as [_ Hl]. by exists l.
Qed.

(** [deleteLocation] keeps the store well formed: unique ids, unique codes,
    parent pointers to stored locations and the absence of cycles carry over
    to the store it returns, and users and venues are left alone. *)
Theorem deleteLocation_keeps_invariants (db : Db) (req : Request) :
  unique_ids (locations db) → unique_codes (locations db) →
  parents_exist (locations db) → acyclic (locations db) →
  let db' := (LocationController.deleteLocation db req).1 in
  unique_ids (locations db') ∧ unique_codes (locations db') ∧
  parents_exist (locations db') ∧ acyclic (locations db') ∧
  users db' = users db ∧ venues db' = venues db.
Proof.
  intros Hids Hcodes Hpe Hacyc.
  destruct (deleteLocation_cases db req)
    as [(res & -> & _)|(i & l & _ & Hleaf & _ & ->)]; [done|].
  simpl. split_and!; [| | | |done..].
  - eapply sublist_NoDup; [exact Hids|]. apply fmap_sublist, sublist_filter.
  - eapply sublist_NoDup; [exact Hcodes|]. apply fmap_sublist, sublist_filter.
  - intros d p Hd Hp. apply list_elem_of_filter in Hd as [Hdi Hd].
    pose proof (Hpe d p Hd Hp) as (dp & -> & Hdp)%list_elem_of_fmap.
    apply list_elem_of_fmap_2, list_elem_of_filter. split; [|done].
    intros Heq. apply (proj1 (find_parent_nil _ _) Hleaf d Hd). by rewrite Hp, Heq.
  - intros x Hx. apply (Hacyc x).
    eapply tc_congruence with (f := id); [|exact Hx].
    intros c p. apply parent_of_filter.
Qed.

Lemma deleteLocation_keeps_invariants_witness :
  let db' := (LocationController.deleteLocation sample_db
                (request None hex3 empty_body)).1 in
  unique_ids (locations db') ∧ unique_codes (locations db') ∧
  parents_exist (locations db') ∧ acyclic (locations db') ∧
  users db' = users sample_db ∧ venues db' = venues sample_db.
Proof.
  apply (deleteLocation_keeps_invariants sample_db).
  - exact rwanda_locs_unique.
  - exact sample_unique_codes.
  - exact sample_parents_exist.
  - exact rwanda_locs_acyclic.
Defined.

(** [deleteLocation] never removes a location that has children, and never
    one of another id than that of the path: a stored location that is
    missing afterwards has the id of the path, no stored location had it as
    parent, and the answer was 200. *)
Theorem deleteLocation_removes_only_childless (db : Db) (req : Request) d :
  d ∈ locations db →
  d ∉ locations (LocationController.deleteLocation db req).1 →
  castObjectId (params_id req) = Some (loc_id d) ∧
  (∀ c, c ∈ locations db → loc_parent c ≠ Some (loc_id d)) ∧
  status (LocationController.deleteLocation db req).2 = 200%N.
Proof.
  intros Hd Hgone.
  destruct (deleteLocation_cases db req)
    as [(res & E & _)|(i & l & Hcast & Hleaf & _ & E)]; rewrite E in *; [done|].
  simpl in Hgone.
  assert (loc_id d = i) as <-.
  { destruct (decide (loc_id d = i)) as [|Hne]; [done|]. exfalso.
    apply Hgone, list_elem_of_filter. by split. }
  split_and!; [done| |done]. by apply find_parent_nil.
Qed.

Lemma deleteLocation_removes_only_childless_witness :
  castObjectId hex3 = Some 3%N ∧
  (∀ c, c ∈ rwanda_locs → loc_parent c ≠ Some 3%N) ∧
  status (LocationController.deleteLocation sample_db
            (request None hex3 empty_body)).2 = 200%N.
Proof.
  apply (deleteLocation_removes_only_childless sample_db
           (request None hex3 empty_body) kicukiro).
  - apply (bool_decide_unpack _). vm_compute. exact I.
  - apply (bool_decide_unpack _). vm_compute. exact I.
Defined.

(** *** Updating a location *)

Lemma replace_doc_ids {A} `{Document A} (d' : A) (docs : list A) :
  _id <$> replace_doc d' docs = _id <$> docs.
Proof.
  unfold replace_doc. rewrite <- list_fmap_compose. apply list_fmap_ext.
  intros _ d _. simpl. by case_decide.
Qed.

Lemma replace_doc_elem {A} `{Document A} (d' : A) (docs : list A) x :
  x ∈ replace_doc d' docs →
  (x ∈ docs ∧ _id x ≠ _id d') ∨ (x = d' ∧ _id d' ∈ _id <$> docs).
Proof.
  unfold replace_doc. intros (d & -> & Hd)%list_elem_of_fmap.
  case_decide as E; [right|left; by split].
  split; [done|]. rewrite <- E. by apply list_elem_of_fmap_2.
Qed.

Lemma replace_doc_other {A} `{Document A} (d' : A) (docs : list A) x :
  x ∈ docs → _id x ≠ _id d' → x ∈ replace_doc d' docs.
Proof.
  intros Hx Hne. unfold replace_doc. apply list_elem_of_fmap. exists x.
  by rewrite decide_False.
Qed.

Lemma replace_doc_new {A} `{Document A} (d' : A) (docs : list A) :
  _id d' ∈ _id <$> docs → d' ∈ replace_doc d' docs.
Proof.
  intros (d & Hid & Hd)%list_elem_of_fmap. unfold replace_doc.
  apply list_elem_of_fmap. exists d. by rewrite decide_True.
Qed.

Lemma Location_update_Ok locs raw f_name f_code f_parent l' locs' :
  Location.findByIdAndUpdate locs raw f_name f_code f_parent = Ok (Some l', locs') →
  ∃ i l p,
    castObjectId raw = Some i ∧ findById locs i = Some l ∧
    loc_id l' = i ∧ locs' = replace_doc l' locs ∧
    Location.code_taken (filter (λ d, loc_id d ≠ i) locs) (loc_code l') = false ∧
    updated_optional_ref f_parent = Ok p ∧
    loc_parent l' = default (loc_parent l) p.
Proof.
  unfold Location.findByIdAndUpdate, castQuery.
  destruct (castObjectId raw) as [i|] eqn:Hcast; [|done]. simpl.
  destruct (updated_optional_ref f_parent) as [p|] eqn:Hp; [|done]. simpl.
  destruct (updated_string _ trim f_name) as [n|]; [|done]. simpl.
  destruct (updated_string _ _ f_code) as [c|]; [|done]. simpl.
  destruct (findById locs i) as [l|] eqn:Hl; [|done].
  destruct (Location.code_taken _ _) eqn:Htaken; [done|].
  intros [= <- <-]. exists i, l, p. split_and!; try done.
  by apply findById_Some in Hl as [_ Hl].
Qed.

(** The outcomes of [updateLocation]: the database is returned as it was,
    or the stored location of the path id is replaced by one with the same
    id, a code no other location has, and as parent the old one, none, or a
    stored location named by another string than the path id. *)
Lemma updateLocation_cases (db : Db) (req : Request) :
  (∃ res, LocationController.updateLocation db req = (db, res) ∧ status res ≠ 200%N) ∨
  (∃ i l l',
     castObjectId (params_id req) = Some i ∧ findById (locations db) i = Some l ∧
     loc_id l' = i ∧
     Location.code_taken (filter (λ d, loc_id d ≠ i) (locations db)) (loc_code l')
     = false ∧
     (loc_parent l' = loc_parent l ∨ loc_parent l' = None ∨
      ∃ p, loc_parent l' = Some p ∧ is_Some (findById (locations db) p)) ∧
     let db' := set_locations db (replace_doc l' (locations db)) in
     LocationController.updateLocation db req
     = (db', ok 200 (LocationUpdated (populate_location db' l')))).
Proof.
  unfold LocationController.updateLocation.
  destruct (Location.findByIdAndUpdate _ _ _ _ _) as [[[l'|] locs']|e] eqn:Hupd;
    simpl.
  - destruct (Location_update_Ok _ _ _ _ _ _ _ Hupd)
      as (i & l & p & Hcast & Hl & Hid & -> & Htaken & Hp & Hparent).
    destruct (parent (body req)) as [| |raw] eqn:Hraw; simpl.
    + right. exists i, l, l'. split_and!; try done. left.
      simpl in Hp. injection Hp as <-. done.
    + right. exists i, l, l'. split_and!; try done. right. left.
      simpl in Hp. injection Hp as <-. done.
    + destruct (truthy_string raw) eqn:Htruthy.
      * destruct (String.eqb raw (params_id req)); [left; by eexists|].
        simpl in Hp. destruct (castQuery raw) as [q|] eqn:Hq; [|done]. simpl in *.
        injection Hp as <-.
        destruct (findById (locations db) q) as [lq|] eqn:Hlq; [|left; by eexists].
        right. exists i, l, l'. split_and!; try done. right. right. exists q.
        by split.
      * left. destruct raw; [|done]. simpl in Hp. done.
  - left. destruct (parent (body req)) as [| |raw]; simpl; [by eexists..|].
    destruct (truthy_string raw); [|by eexists].
    destruct (String.eqb raw (params_id req)); [by eexists|].
    destruct (castQuery raw) as [q|]; simpl; [|by destruct (bool_decide _); eexists].
    destruct (findById (locations db) q); by eexists.
  - left. destruct (parent (body req)) as [| |raw]; simpl;
      [by destruct (bool_decide _); eexists..|].
    destruct (truthy_string raw); [|by destruct (bool_decide _); eexists].
    destruct (String.eqb raw (params_id req)); [by eexists|].
    destruct (castQuery raw) as [q|]; simpl; [|by destruct (bool_decide _); eexists].
    destruct (findById (locations db) q); [|by eexists].
    by destruct (bool_decide _); eexists.
Qed.

Lemma replace_doc_absent {A} `{Document A} (d' : A) (docs : list A) :
  _id d' ∉ _id <$> docs → replace_doc d' docs = docs.
Proof.
  intros Hnot. unfold replace_doc. rewrite <- (list_fmap_id docs) at 2.
  apply list_fmap_ext. intros k d Hd. simpl. case_decide as E; [|done].
  exfalso. apply Hnot. rewrite <- E. apply list_elem_of_fmap_2.
  by eapply list_elem_of_lookup_2.
Qed.

Lemma filter_absent {A} `{Document A} (docs : list A) i :
  i ∉ _id <$> docs → filter (λ d, _id d ≠ i) docs = docs.
Proof.
  induction docs as [|d docs IH]; [done|]. rewrite fmap_cons, not_elem_of_cons.
  intros [Hne Hnot]. rewrite filter_cons, decide_True by done. by rewrite IH.
Qed.

Lemma replace_doc_unique_codes (locs : list LocationDoc) (l' : LocationDoc) :
  unique_ids locs → unique_codes locs →
  Location.code_taken (filter (λ d, loc_id d ≠ loc_id l') locs) (loc_code l') = false →
  unique_codes (replace_doc l' locs).
Proof.
  unfold unique_ids, unique_codes.
  induction locs as [|d locs IH]; [done|].
  rewrite !fmap_cons, !NoDup_cons. intros [Hid Hids] [Hcode Hcodes] Htaken.
  unfold replace_doc. rewrite fmap_cons. fold (replace_doc l' locs).
  rewrite filter_cons in Htaken.
  destruct (decide (_id d = _id l')) as [E|E].
  - pose proof E as E'. change (loc_id d = loc_id l') in E'.
    rewrite decide_False in Htaken by (by intros ?).
    rewrite replace_doc_absent by (by rewrite <- E).
    change (filter (λ d, loc_id d ≠ loc_id l') locs)
      with (filter (λ d : LocationDoc, _id d ≠ loc_id l') locs) in Htaken.
    rewrite (filter_absent (H:=LocationDoc_Document) locs (loc_id l')) in Htaken
      by (by rewrite <- E').
    rewrite fmap_cons, NoDup_cons. split; [|done]. by apply code_taken_false.
  - change (loc_id d ≠ loc_id l') in E.
    rewrite decide_True in Htaken by done.
    apply code_taken_false in Htaken. rewrite fmap_cons, not_elem_of_cons in Htaken.
    destruct Htaken as [Hne Htaken]. apply code_taken_false in Htaken.
    rewrite fmap_cons, NoDup_cons. split; [|by apply IH].
    intros (x & Hx & Hin)%list_elem_of_fmap.
    apply replace_doc_elem in Hin as [[Hin _]|[-> _]]; [|done].
    apply Hcode. rewrite Hx. by apply list_elem_of_fmap_2.
Qed.

(** [updateLocation] keeps ids unique, codes unique and parent pointers
    inside the store, and leaves users and venues alone. *)
Theorem updateLocation_keeps_invariants (db : Db) (req : Request) :
  unique_ids (locations db) → unique_codes (locations db) →
  parents_exist (locations db) →
  let db' := (LocationController.updateLocation db req).1 in
  unique_ids (locations db') ∧ unique_codes (locations db') ∧
  parents_exist (locations db') ∧
  loc_id <$> locations db' = loc_id <$> locations db ∧
  users db' = users db ∧ venues db' = venues db.
Proof.
  intros Hids Hcodes Hpe.
  destruct (updateLocation_cases db req)
    as [(res & -> & _)|(i & l & l' & Hcast & Hl & Hid & Htaken & Hp & ->)]; [done|].
  simpl.
  pose proof (replace_doc_ids (H:=LocationDoc_Document) l' (locations db)) as Hsame.
  change (loc_id <$> replace_doc l' (locations db) = loc_id <$> locations db) in Hsame.
  split_and!; [| | |done..].
  - unfold unique_ids. by rewrite replace_doc_ids.
  - apply replace_doc_unique_codes; [done..|]. by rewrite Hid.
  - intros d p Hd Hdp. rewrite Hsame.
    apply replace_doc_elem in Hd as [[Hd _]|[-> _]]; [by apply (Hpe d)|].
    pose proof (findById_Some _ _ _ Hl) as [Hlin _].
    destruct Hp as [Hp|[Hp|(q & Hq & Hfound)]].
    + apply (Hpe l); [done|]. by rewrite <- Hp.
    + congruence.
    + assert (p = q) as -> by congruence. by apply findById_is_Some_elem.
Qed.

Lemma updateLocation_keeps_invariants_witness :
  let db' := (LocationController.updateLocation sample_db
                (request None hex3
                   (location_body (Given "Kicukiro") Undefined (Given hex1)))).1 in
  unique_ids (locations db') ∧ unique_codes (locations db') ∧
  parents_exist (locations db') ∧
  loc_id <$> locations db' = loc_id <$> locations sample_db ∧
  users db' = users sample_db ∧ venues db' = venues sample_db.
Proof.
  apply (updateLocation_keeps_invariants sample_db).
  - exact rwanda_locs_unique.
  - exact sample_unique_codes.
  - exact sample_parents_exist.
Defined.

Lemma NoDup_fmap_inj_elem {A B} (f : A → B) (l : list A) x y :
  NoDup (f <$> l) → x ∈ l → y ∈ l → f x = f y → x = y.
Proof.
  induction l as [|a l IH]; intros Hnd Hx Hy Hxy; [by apply elem_of_nil in Hx|].
  rewrite fmap_cons in Hnd. apply NoDup_cons in Hnd as [Ha Hnd].
  apply elem_of_cons in Hx as [->|Hx]; apply elem_of_cons in Hy as [->|Hy].
  - done.
  - exfalso. apply Ha. rewrite Hxy. by apply list_elem_of_fmap_2.
  - exfalso. apply Ha. rewrite <- Hxy. by apply list_elem_of_fmap_2.
  - by apply IH.
Qed.

Lemma updateLocation_update (db : Db) (req : Request) :
  (∃ res, LocationController.updateLocation db req = (db, res) ∧ status res ≠ 200%N) ∨
  (∃ l' locs',
     Location.findByIdAndUpdate (locations db) (params_id req) (name (body req))
       (code (body req)) (parent (body req)) = Ok (Some l', locs') ∧
     (LocationController.updateLocation db req).1 = set_locations db locs').
Proof.
  unfold LocationController.updateLocation.
  destruct (Location.findByIdAndUpdate _ _ _ _ _) as [[[l'|] locs']|e] eqn:Hupd;
    simpl.
  - destruct (parent (body req)) as [| |raw]; simpl; [right; eexists _, _; split; reflexivity..|].
    destruct (truthy_string raw); [|right; eexists _, _; split; reflexivity].
    destruct (String.eqb raw (params_id req)); [left; by eexists|].
    destruct (castQuery raw) as [q|]; simpl;
      [|left; destruct (bool_decide _); by eexists].
    destruct (findById (locations db) q);
      [right; eexists _, _; split; reflexivity|left; by eexists].
  - left. destruct (parent (body req)) as [| |raw]; simpl; [by eexists..|].
    destruct (truthy_string raw); [|by eexists].
    destruct (String.eqb raw (params_id req)); [by eexists|].
    destruct (castQuery raw) as [q|]; simpl; [|by destruct (bool_decide _); eexists].
    destruct (findById (locations db) q); by eexists.
  - left. destruct (parent (body req)) as [| |raw]; simpl;
      [by destruct (bool_decide _); eexists..|].
    destruct (truthy_string raw); [|by destruct (bool_decide _); eexists].
    destruct (String.eqb raw (params_id req)); [by eexists|].
    destruct (castQuery raw) as [q|]; simpl; [|by destruct (bool_decide _); eexists].
    destruct (findById (locations db) q); [|by eexists].
    by destruct (bool_decide _); eexists.
Qed.

(** An update answered 200 has replaced the stored location of the path id
    by one with the same id whose parent is the one the body gives, or the
    old one when the body gives none. *)
Lemma updateLocation_200 (db : Db) (req : Request) :
  status (LocationController.updateLocation db req).2 = 200%N →
  ∃ i l l' p,
    castObjectId (params_id req) = Some i ∧ findById (locations db) i = Some l ∧
    loc_id l' = i ∧
    updated_optional_ref (parent (body req)) = Ok p ∧
    loc_parent l' = default (loc_parent l) p ∧
    locations (LocationController.updateLocation db req).1
    = replace_doc l' (locations db).
Proof.
  intros Hst.
  destruct (updateLocation_update db req) as [(res & E & Hne)|(l' & locs' & Hupd & E)].
  - by rewrite E in Hst.
  - rewrite E. simpl.
    apply Location_update_Ok in Hupd as (i & l & p & Hcast & Hl & Hid & -> & _ & Hp & Hpar).
    by exists i, l, l', p.
Qed.

(** An update that holds only a parent, the id of a stored location
    written otherwise than the path id, is answered 200. *)
Lemma updateLocation_parent_only (db : Db) (req : Request) (A B : LocationDoc) rawB :
  unique_codes (locations db) → A ∈ locations db → B ∈ locations db →
  castObjectId (params_id req) = Some (loc_id A) →
  name (body req) = Undefined → code (body req) = Undefined →
  parent (body req) = Given rawB → rawB ≠ params_id req →
  castObjectId rawB = Some (loc_id B) →
  status (LocationController.updateLocation db req).2 = 200%N.
Proof.
  intros Hcodes HA HB Hcast Hname Hcode Hparent Hne HcastB.
  destruct (findById_elem (locations db) A HA) as [A0 HA0].
  destruct (findById_elem (locations db) B HB) as [B0 HB0].
  change (_id A) with (loc_id A) in HA0. change (_id B) with (loc_id B) in HB0.
  unfold LocationController.updateLocation, Location.findByIdAndUpdate.
  rewrite Hparent, Hname, Hcode, (castObjectId_truthy _ _ HcastB).
  assert (String.eqb rawB (params_id req) = false) as -> by (by apply String.eqb_neq).
  rewrite (castQuery_Some _ _ HcastB), (castQuery_Some _ _ Hcast). simpl.
  rewrite (castQuery_Some _ _ HcastB). simpl.
  rewrite HB0, HA0. simpl.
  assert (Location.code_taken
            (filter (λ d, loc_id d ≠ loc_id A) (locations db)) (loc_code A0) = false)
    as ->; [|done].
  apply code_taken_false. intros (d & Hd & Hin)%list_elem_of_fmap.
  apply list_elem_of_filter in Hin as [Hdne Hin]. apply Hdne.
  apply findById_Some in HA0 as [HA0in HA0id].
  by rewrite <- (NoDup_fmap_inj_elem loc_code (locations db) A0 d Hcodes HA0in Hin Hd).
Qed.

(** [updateLocation] does not look for cycles past the location itself.
    On a well-formed store, take an update that gives a location one of its
    own descendants as parent.  With a body that holds nothing but the
    parent it is answered 200; and whenever it is answered 200, whatever
    name and code the body holds, the location then lies on a cycle of
    parent pointers and the resolver does not return for it. *)
Theorem updateLocation_can_close_cycle (db : Db) (req : Request)
    (A B : LocationDoc) (rawB : string) :
  unique_ids (locations db) → unique_codes (locations db) → acyclic (locations db) →
  A ∈ locations db → B ∈ locations db →
  tc (parent_of (locations db)) (loc_id B) (loc_id A) →
  castObjectId (params_id req) = Some (loc_id A) →
  parent (body req) = Given rawB → castObjectId rawB = Some (loc_id B) →
  let db' := (LocationController.updateLocation db req).1 in
  (name (body req) = Undefined → code (body req) = Undefined →
   status (LocationController.updateLocation db req).2 = 200%N) ∧
  (status (LocationController.updateLocation db req).2 = 200%N →
   tc (parent_of (locations db')) (loc_id A) (loc_id A) ∧
   ∀ fuel : nat,
     VenueController.getAllChildLocationIds fuel (locations db') (loc_id A) = None).
Proof.
  intros Hids Hcodes Hacyc HA HB Hdesc Hcast Hparent HcastB.
  assert (loc_id A ≠ loc_id B) as Hne.
  { intros E. apply (Hacyc (loc_id A)). by rewrite E at 1. }
  split.
  - intros Hname Hcode.
    apply (updateLocation_parent_only db req A B rawB); try done.
    intros ->. congruence.
  - intros Hst.
    destruct (updateLocation_200 db req Hst)
      as (i & l & A' & p & Hi & Hl & Hid & Hp & Hpar & ->).
    assert (i = loc_id A) as -> by congruence.
    rewrite Hparent in Hp. simpl in Hp. rewrite (castQuery_Some _ _ HcastB) in Hp.
    simpl in Hp. injection Hp as <-. simpl in Hpar.
    assert (∀ c p, c ≠ loc_id A → parent_of (locations db) c p →
                   parent_of (replace_doc A' (locations db)) c p) as Hold.
    { intros c p Hc (d & Hd & Hdc & Hdp). exists d. split_and!; [|done..].
      apply replace_doc_other; [done|]. change (loc_id d ≠ loc_id A'). congruence. }
    assert (∀ x, tc (parent_of (locations db)) x (loc_id A) →
                 tc (parent_of (replace_doc A' (locations db))) x (loc_id A)) as Hchain.
    { intros x Hx. induction Hx as [x y Hxy|x z y Hxz Hzy IH].
      - apply tc_once, Hold; [|done]. intros ->. apply (Hacyc y). by apply tc_once.
      - eapply tc_l; [|by apply IH]. apply Hold; [|done].
        intros ->. apply (Hacyc y). by eapply tc_l. }
    assert (tc (parent_of (replace_doc A' (locations db))) (loc_id A) (loc_id A))
      as Hcycle.
    { eapply tc_l; [|by apply Hchain]. exists A'. split_and!; [|done..].
      apply replace_doc_new. change (loc_id A' ∈ loc_id <$> locations db).
      rewrite Hid. by apply list_elem_of_fmap_2. }
    split; [done|]. intros fuel. by eapply resolve_diverges.
Qed.

Lemma updateLocation_can_close_cycle_witness :
  let req := request None hex1 (location_body Undefined Undefined (Given hex3)) in
  let db' := (LocationController.updateLocation sample_db req).1 in
  status (LocationController.updateLocation sample_db req).2 = 200%N ∧
  tc (parent_of (locations db')) 1%N 1%N ∧
  ∀ fuel : nat, VenueController.getAllChildLocationIds fuel (locations db') 1%N = None.
Proof.
  intros req db'.
  assert (rwanda ∈ rwanda_locs) as HA
    by (apply (bool_decide_unpack _); vm_compute; exact I).
  assert (kicukiro ∈ rwanda_locs) as HB
    by (apply (bool_decide_unpack _); vm_compute; exact I).
  assert (tc (parent_of rwanda_locs) 3%N 1%N) as Hdesc.
  { eapply tc_l; [|apply tc_once].
    - exists kicukiro. split_and!; [|reflexivity..].
      apply (bool_decide_unpack _). vm_compute. exact I.
    - exists kigali. split_and!; [|reflexivity..].
      apply (bool_decide_unpack _). vm_compute. exact I. }
  destruct (updateLocation_can_close_cycle sample_db req rwanda kicukiro hex3
              rwanda_locs_unique sample_unique_codes rwanda_locs_acyclic HA HB Hdesc
              eq_refl eq_refl eq_refl) as [Hok Hcycle].
  split; [exact (Hok eq_refl eq_refl)|].
  exact (Hcycle (Hok eq_refl eq_refl)).
Defined.

(** ** Self-parenting of locations *)

(** What the code does about a location that names itself as parent.
    A creation cannot name the id of the location it creates: the id is
    given by the store after the parent lookup, and a location that
    [createLocation] adds is never its own parent.  An update whose [parent]
    is the very string of the path id is answered 400 "Location cannot be
    its own parent" and changes nothing.  The check compares strings,
    though, where the store compares ObjectIds: when [parent] is another
    spelling of the path id of a stored location (hexadecimal digits in the
    other letter case) the request is not refused as a self-parent: a 400
    is the answer to a code that is taken, and when the answer is 200, as
    it is on a store with unique codes for a body that holds only the
    parent, the location is stored as its own parent. *)
Theorem self_parent_check (db : Db) (req : Request) :
  (∀ l, l ∈ locations (LocationController.createLocation db req).1 →
        l ∉ locations db → loc_parent l ≠ Some (loc_id l)) ∧
  (∀ raw, parent (body req) = Given raw → raw ≠ "" → raw = params_id req →
     ∃ res, LocationController.updateLocation db req = (db, res) ∧
            status res = 400%N ∧ success res = false ∧
            message res = Some "Location cannot be its own parent") ∧
  (∀ raw l, parent (body req) = Given raw → raw ≠ params_id req →
     castObjectId raw = Some (loc_id l) →
     castObjectId (params_id req) = Some (loc_id l) →
     l ∈ locations db →
     let out := LocationController.updateLocation db req in
     (status out.2 = 400%N → message out.2 = Some "Location code already exists") ∧
     (status out.2 = 200%N →
      ∃ l', l' ∈ locations out.1 ∧ loc_id l' = loc_id l ∧
            loc_parent l' = Some (loc_id l')) ∧
     (unique_codes (locations db) →
      name (body req) = Undefined → code (body req) = Undefined →
      status out.2 = 200%N)).
Proof.
  split_and!.
  - intros l Hl Hnew.
    destruct (createLocation_cases db req)
      as [(res & E & _)|(l0 & E & Hcreate & _ & _ & Hp)]; rewrite E in Hl; [done|].
    simpl in Hl. apply elem_of_app in Hl as [Hl|Hl]; [done|].
    apply list_elem_of_singleton in Hl as ->.
    apply Location_create_Ok in Hcreate as (_ & Hid & _).
    destruct Hp as [Hp|(raw & p & _ & _ & Hp & Hfound)]; [congruence|].
    rewrite Hp, Hid. intros [= ->].
    apply findById_is_Some_elem in Hfound. by apply freshId_not_elem in Hfound.
  - intros raw Hparent Hne Hself. unfold LocationController.updateLocation.
    rewrite Hparent, (truthy_string_true _ Hne), <- Hself, String.eqb_refl.
    by eexists.
  - intros raw l Hparent Hne Hcast Hpath Hl out. split_and!.
    + unfold out, LocationController.updateLocation.
      rewrite Hparent, (castObjectId_truthy _ _ Hcast).
      assert (String.eqb raw (params_id req) = false) as ->
        by (by apply String.eqb_neq).
      rewrite (castQuery_Some _ _ Hcast). simpl.
      destruct (findById (locations db) (loc_id l)); [|done].
      destruct (Location.findByIdAndUpdate _ _ _ _ _) as [[[l'|] locs']|e]; simpl;
        [done..|].
      by destruct (bool_decide _).
    + intros Hst.
      destruct (updateLocation_200 db req Hst)
        as (i & l0 & l' & p & Hi & Hl0 & Hid & Hp & Hpar & Hlocs).
      assert (i = loc_id l) as -> by congruence.
      rewrite Hparent in Hp. simpl in Hp. rewrite (castQuery_Some _ _ Hcast) in Hp.
      simpl in Hp. injection Hp as <-. simpl in Hpar.
      exists l'. split_and!; [|done|by rewrite Hid].
      unfold out. rewrite Hlocs. apply replace_doc_new.
      change (loc_id l' ∈ loc_id <$> locations db).
      rewrite Hid. by apply list_elem_of_fmap_2.
    + intros Hcodes Hname Hcode.
      by apply (updateLocation_parent_only db req l l raw).
Qed.

Lemma self_parent_check_witness :
  (∃ res, LocationController.updateLocation sample_db
            (request None hex2 (location_body Undefined Undefined (Given hex2)))
          = (sample_db, res) ∧
          status res = 400%N ∧ success res = false ∧
          message res = Some "Location cannot be its own parent") ∧
  (let out := LocationController.updateLocation huye_db
                (request None "00000000000000000000000a"
                   (location_body Undefined Undefined
                      (Given "00000000000000000000000A"))) in
   status out.2 = 200%N ∧
   ∃ l', l' ∈ locations out.1 ∧ loc_id l' = 10%N ∧ loc_parent l' = Some (loc_id l')).
Proof.
  split.
  - apply (proj1 (proj2 (self_parent_check sample_db
                    (request None hex2 (location_body Undefined Undefined (Given hex2)))))
             hex2 eq_refl); [discriminate|reflexivity].
  - intros out.
    destruct (proj2 (proj2 (self_parent_check huye_db
                (request None "00000000000000000000000a"
                   (location_body Undefined Undefined
                      (Given "00000000000000000000000A")))))
                "00000000000000000000000A" huye eq_refl
                ltac:(discriminate) eq_refl eq_refl
                ltac:(apply (bool_decide_unpack _); vm_compute; exact I))
      as (_ & Hself & Hok).
    assert (unique_codes (locations huye_db)) as Hcodes
      by (apply (bool_decide_unpack _); vm_compute; exact I).
    split; [exact (Hok Hcodes eq_refl eq_refl)|].
    exact (Hself (Hok Hcodes eq_refl eq_refl)).
Defined.

(** C3 does not hold of [updateLocation]: the self-parent check at the head
    of the handler compares the strings of the body and of the path.  On a
    store that holds the location with id 00000000000000000000000a, the
    update of that path id whose [parent] is the same id written
    00000000000000000000000A is not answered 400: the answer is 200 and the
    location is stored as its own parent. *)
Example updateLocation_self_parent_other_case :
  let req := request None "00000000000000000000000a"
               (location_body Undefined Undefined (Given "00000000000000000000000A")) in
  let out := LocationController.updateLocation huye_db req in
  castObjectId (params_id req) = Some (loc_id huye) ∧
  (∃ raw, parent (body req) = Given raw ∧ castObjectId raw = Some (loc_id huye)) ∧
  status out.2 = 200%N ∧ success out.2 = true ∧
  status out.2 ≠ 400%N ∧
  locations out.1
  = [ {| loc_id := 10%N; loc_name := "Huye"; loc_code := "HUY";
         loc_parent := Some 10%N |} ] ∧
  out.1 ≠ huye_db.
Proof.
  intros req out. split_and!; try reflexivity; try discriminate.
  by eexists.
Qed.

(** After it the resolver does not return for that location. *)
Lemma resolver_diverges_on_self_parent (fuel : nat) :
  VenueController.getAllChildLocationIds fuel
    [ {| loc_id := 10%N; loc_name := "Huye"; loc_code := "HUY";
         loc_parent := Some 10%N |} ] 10%N = None.
Proof.
  induction fuel as [|fuel IH]; [done|].
  rewrite resolve_unfold. change (loc_id <$> Location.find_parent _ _) with [10%N].
  simpl. by rewrite IH.
Qed.

(** ** Reading locations *)

Lemma castObjectId_not_sentinel raw i :
  castObjectId raw = Some i →
  String.eqb raw "root" || String.eqb raw "null" = false.
Proof.
  intros Hcast. destruct (String.eqb raw "root") eqn:E1.
  - apply String.eqb_eq in E1 as ->. discriminate.
  - destruct (String.eqb raw "null") eqn:E2; [|done].
    apply String.eqb_eq in E2 as ->. discriminate.
Qed.

(** Listing by parent: the sentinels [root] and [null] give the same
    answer, the locations without parent; the string of an ObjectId gives
    the locations with that parent, and [deleteLocation] answers 400 for the
    same path parameter exactly when this listing is not empty. *)
Theorem getLocationsByParent_listing (db : Db) :
  (let roots := filter (λ l, loc_parent l = None) (locations db) in
   LocationController.getLocationsByParent db "root"
   = {| reply_head := {| status := 200; success := true; message := None;
                         error := None; payload := NoData |};
        listing := LocationList (length roots) (populate_location db <$> roots) |} ∧
   LocationController.getLocationsByParent db "null"
   = LocationController.getLocationsByParent db "root") ∧
  (∀ raw i, castObjectId raw = Some i →
     let children := filter (λ l, loc_parent l = Some i) (locations db) in
     LocationController.getLocationsByParent db raw
     = {| reply_head := {| status := 200; success := true; message := None;
                           error := None; payload := NoData |};
          listing := LocationList (length children)
                       (populate_location db <$> children) |} ∧
     ∀ req, params_id req = raw →
       status (LocationController.deleteLocation db req).2 = 400%N ↔ children ≠ []).
Proof.
  split; [done|]. intros raw i Hcast children. split.
  - unfold LocationController.getLocationsByParent.
    by rewrite (castObjectId_not_sentinel _ _ Hcast), (castQuery_Some _ _ Hcast).
  - intros req <-. unfold LocationController.deleteLocation.
    rewrite (castQuery_Some _ _ Hcast). simpl.
    unfold Location.countDocuments_parent, Location.find_parent. fold children.
    destruct children as [|c cs]; simpl.
    + unfold findByIdAndDelete. by destruct (findById (locations db) i).
    + done.
Qed.

Lemma getLocationsByParent_listing_witness :
  LocationController.getLocationsByParent sample_db hex1
  = {| reply_head := {| status := 200; success := true; message := None;
                        error := None; payload := NoData |};
       listing := LocationList 1 [populate_location sample_db kigali] |} ∧
  (status (LocationController.deleteLocation sample_db
             (request None hex1 empty_body)).2 = 400%N
   ↔ filter (λ l, loc_parent l = Some 1%N) rwanda_locs ≠ []).
Proof.
  destruct (proj2 (getLocationsByParent_listing sample_db) hex1 1%N eq_refl)
    as [Hlist Hdel].
  split; [exact Hlist|]. by apply (Hdel (request None hex1 empty_body)).
Defined.

Lemma findById_filter_ne {A} `{Document A} (docs : list A) i :
  findById (filter (λ d, _id d ≠ i) docs) i = None.
Proof.
  apply findById_None. intros (d & -> & Hd)%list_elem_of_fmap.
  by apply list_elem_of_filter in Hd as [Hne _].
Qed.

Lemma findById_snoc_new {A} `{Document A} (docs : list A) (d : A) :
  _id d = freshId docs → findById (docs ++ [d]) (_id d) = Some d.
Proof.
  intros Hd. rewrite (findById_snoc_fresh docs d (_id d) Hd). by rewrite decide_True.
Qed.

(** Reading a location back: after a creation answered 201 the new location
    is found under its id (and was not before); after an update answered 200
    the path id gives the updated location; after a deletion answered 200
    the path id gives 404. *)
Theorem location_read_after_write (db : Db) (req : Request) :
  (∀ db' res l,
     LocationController.createLocation db req = (db', res) →
     status res = 201%N → payload res = LocationCreated l →
     ∀ req', castObjectId (params_id req') = Some (loc_id l) →
       LocationController.getLocationById db req'
       = {| reply_head := {| status := 404; success := false;
                             message := Some "Location not found";
                             error := None; payload := NoData |};
            listing := NoListing |} ∧
       LocationController.getLocationById db' req'
       = {| reply_head := {| status := 200; success := true; message := None;
                             error := None; payload := NoData |};
            listing := OneLocation (populate_location db' l) |}) ∧
  (∀ db' res l,
     LocationController.updateLocation db req = (db', res) →
     status res = 200%N → payload res = LocationUpdated l →
     LocationController.getLocationById db' req
     = {| reply_head := {| status := 200; success := true; message := None;
                           error := None; payload := NoData |};
          listing := OneLocation l |}) ∧
  (∀ db' res,
     LocationController.deleteLocation db req = (db', res) → status res = 200%N →
     LocationController.getLocationById db' req
     = {| reply_head := {| status := 404; success := false;
                           message := Some "Location not found";
                           error := None; payload := NoData |};
          listing := NoListing |}).
Proof.
  split_and!.
  - intros db' res l Hcreate Hstatus Hpayload req' Hcast.
    destruct (createLocation_cases db req)
      as [(res0 & E & Hne)|(l0 & E & Hc & _)]; rewrite E in Hcreate;
      injection Hcreate as <- <-; [done|].
    + simpl in Hpayload. injection Hpayload as ->.
      apply Location_create_Ok in Hc as (_ & Hid & _).
      unfold LocationController.getLocationById.
      rewrite (castQuery_Some _ _ Hcast). simpl. split.
      * rewrite Hid. by rewrite (freshId_fresh (H:=LocationDoc_Document)).
      * assert (findById (locations db ++ [l]) (loc_id l) = Some l) as ->
          by (by apply findById_snoc_new).
        done.
  - intros db' res pl Hupd Hstatus Hpayload.
    destruct (updateLocation_cases db req)
      as [(res0 & E & Hne)|(i & l & l' & Hcast & Hl & Hid & _ & _ & E)];
      rewrite E in Hupd; injection Hupd as <- <-; [done|].
    + simpl in Hpayload. injection Hpayload as <-.
      unfold LocationController.getLocationById.
      rewrite (castQuery_Some _ _ Hcast). simpl.
      rewrite (findById_replace_doc (H:=LocationDoc_Document)), Hl. simpl.
      rewrite decide_True; [done|].
      apply findById_Some in Hl as [_ Hl]. by rewrite Hl.
  - intros db' res Hdel Hstatus.
    destruct (deleteLocation_cases db req)
      as [(res' & E & Hne)|(i & l & Hcast & _ & _ & E)]; rewrite E in Hdel;
      simplify_eq.
    unfold LocationController.getLocationById.
    rewrite (castQuery_Some _ _ Hcast). simpl.
    by rewrite (findById_filter_ne (H:=LocationDoc_Document)).
Qed.

Lemma location_read_after_write_witness :
  let created := LocationController.createLocation sample_db
                   (request None ""
                      (location_body (Given "Gasabo") (Given "gsb") (Given hex2))) in
  let deleted := LocationController.deleteLocation sample_db
                   (request None hex3 empty_body) in
  (LocationController.getLocationById sample_db (request None hex5 empty_body)
   = {| reply_head := {| status := 404; success := false;
                         message := Some "Location not found";
                         error := None; payload := NoData |};
        listing := NoListing |} ∧
   LocationController.getLocationById created.1 (request None hex5 empty_body)
   = {| reply_head := {| status := 200; success := true; message := None;
                         error := None; payload := NoData |};
        listing :=
          OneLocation
            (populate_location created.1
               {| loc_id := 5%N; loc_name := "Gasabo"; loc_code := "GSB";
                  loc_parent := Some 2%N |}) |}) ∧
  LocationController.getLocationById deleted.1 (request None hex3 empty_body)
  = {| reply_head := {| status := 404; success := false;
                        message := Some "Location not found";
                        error := None; payload := NoData |};
       listing := NoListing |}.
Proof.
  intros created deleted. split.
  - apply (proj1 (location_read_after_write sample_db
                    (request None ""
                       (location_body (Given "Gasabo") (Given "gsb") (Given hex2))))
             created.1 created.2
             {| loc_id := 5%N; loc_name := "Gasabo"; loc_code := "GSB";
                loc_parent := Some 2%N |}); reflexivity.
  - apply (proj2 (proj2 (location_read_after_write sample_db
                           (request None hex3 empty_body))) deleted.1 deleted.2);
      reflexivity.
Defined.

(** ** The user controller *)

Lemma email_taken_spec us e :
  User.email_taken us e = true ↔ e ∈ user_email <$> us.
Proof.
  unfold User.email_taken. rewrite existsb_exists, list_elem_of_fmap. split.
  - intros (u & Hu & Heq). apply String.eqb_eq in Heq. exists u.
    split; [done|]. by apply list_elem_of_In.
  - intros (u & -> & Hu). exists u. split; [by apply list_elem_of_In|].
    apply String.eqb_refl.
Qed.

Lemma email_taken_false us e :
  User.email_taken us e = false ↔ e ∉ user_email <$> us.
Proof. rewrite <- email_taken_spec. by destruct (User.email_taken us e). Qed.

Lemma User_create_Ok us f_name f_phone f_email f_role f_location u us' :
  User.create us f_name f_phone f_email f_role f_location = Ok (u, us') →
  us' = us ++ [u] ∧ user_id u = freshId us ∧
  User.email_taken us (user_email u) = false ∧
  required_string "User name is required" trim f_name = Ok (user_name u) ∧
  required_string "Phone number is required" trim f_phone = Ok (user_phone u) ∧
  required_email f_email = Ok (user_email u) ∧
  required_role f_role = Ok (user_role u) ∧
  required_ref "Location is required" f_location = Ok (user_location u).
Proof.
  unfold User.create.
  destruct (required_string _ trim f_name) as [n|]; [|done]. simpl.
  destruct (required_string _ trim f_phone) as [ph|]; [|done]. simpl.
  destruct (required_email f_email) as [e|]; [|done]. simpl.
  destruct (required_role f_role) as [r|]; [|done]. simpl.
  destruct (required_ref _ f_location) as [loc|]; [|done]. simpl.
  destruct (User.email_taken us e) eqn:He; [done|].
  by intros [= <- <-].
Qed.

Lemma createUser_cases (db : Db) (req : Request) :
  (∃ res, UserController.createUser db req = (db, res) ∧ status res ≠ 201%N) ∨
  (∃ u,
     User.create (users db) (name (body req)) (phone (body req)) (email (body req))
       (role (body req)) (location (body req)) = Ok (u, users db ++ [u]) ∧
     negb (truthy (name (body req))) || negb (truthy (phone (body req)))
     || negb (truthy (email (body req))) || negb (truthy (role (body req)))
     || negb (truthy (location (body req))) = false ∧
     let db' := set_users db (users db ++ [u]) in
     UserController.createUser db req
     = (db', ok 201 (UserCreated (populate_user db' u)))).
Proof.
  unfold UserController.createUser.
  destruct (negb (truthy (name (body req))) || _ || _ || _ || _) eqn:Hreq;
    [left; by eexists|].
  destruct (User.create _ _ _ _ _ _) as [[u us']|e] eqn:Hcreate; simpl.
  - right. pose proof (User_create_Ok _ _ _ _ _ _ _ _ Hcreate) as (-> & _).
    by exists u.
  - left. destruct (bool_decide _); [by eexists|].
    destruct (String.eqb _ _); by eexists.
Qed.

(** Posting the same user twice: when [createUser] has answered 201, the
    same request on the resulting database is answered 400 "Email already
    exists" and stores nothing. *)
Theorem createUser_twice (db db' : Db) (req : Request) (res : Response) :
  UserController.createUser db req = (db', res) → status res = 201%N →
  UserController.createUser db' req
  = (db', {| status := 400; success := false;
             message := Some "Email already exists";
             error := None; payload := NoData |}).
Proof.
  intros Hfirst Hstatus.
  destruct (createUser_cases db req) as [(res' & E & Hne)|(u & Hcreate & Hreq & E)];
    rewrite E in Hfirst; simplify_eq.
  apply User_create_Ok in Hcreate as (_ & _ & _ & Hn & Hph & He & Hr & Hloc).
  unfold UserController.createUser. rewrite Hreq. unfold User.create.
  rewrite Hn, Hph, He, Hr, Hloc. simpl.
  assert (User.email_taken (users db ++ [u]) (user_email u) = true) as ->; [|done].
  apply email_taken_spec. rewrite fmap_app, elem_of_app. right. apply list_elem_of_here.
Qed.

Lemma createUser_twice_witness :
  let req := request None "" (user_body "Eve" "0785" "Eve@Nelson.rw" "Attend" hex3) in
  let db' := (UserController.createUser sample_db req).1 in
  UserController.createUser db' req
  = (db', {| status := 400; success := false;
             message := Some "Email already exists";
             error := None; payload := NoData |}).
Proof.
  intros req db'.
  apply (createUser_twice sample_db db' req (UserController.createUser sample_db req).2);
    reflexivity.
Defined.

Lemma truthy_string_nonempty s : truthy_string s = true → s ≠ "".
Proof. by destruct s. Qed.

Lemma required_string_Ok msg f fld v :
  required_string msg f fld = Ok v → v ≠ "".
Proof.
  destruct fld as [| |s]; simpl; [done..|].
  destruct (truthy_string (f s)) eqn:E; [|done]. intros [= <-].
  by apply truthy_string_nonempty.
Qed.

Lemma updated_string_Ok msg f fld v :
  updated_string msg f fld = Ok (Some v) → v ≠ "".
Proof.
  destruct fld as [| |s]; simpl; [done..|].
  destruct (truthy_string (f s)) eqn:E; [|done]. intros [= <-].
  by apply truthy_string_nonempty.
Qed.

Lemma required_email_Ok fld e :
  required_email fld = Ok e → matches email_pattern e = true.
Proof.
  unfold required_email. destruct (required_string _ _ fld) as [e'|]; [|done]. simpl.
  destruct (matches email_pattern e') eqn:E; [|done]. by intros [= <-].
Qed.

Lemma updated_email_Ok fld e :
  User.updated_email fld = Ok (Some e) → matches email_pattern e = true.
Proof.
  destruct fld as [| |s]; simpl; [done..|].
  destruct (required_email (Given s)) as [e'|] eqn:E; [|done]. simpl.
  intros [= <-]. by apply required_email_Ok in E.
Qed.

Lemma replace_doc_unique_key {A B} `{Document A} (f : A → B) (docs : list A) (d' : A) :
  unique_ids docs → NoDup (f <$> docs) →
  f d' ∉ f <$> filter (λ d, _id d ≠ _id d') docs →
  NoDup (f <$> replace_doc d' docs).
Proof.
  unfold unique_ids. induction docs as [|d docs IH]; [done|].
  rewrite !fmap_cons, !NoDup_cons. intros [Hid Hids] [Hkey Hkeys] Hfree.
  unfold replace_doc. rewrite fmap_cons. fold (replace_doc d' docs).
  rewrite filter_cons in Hfree.
  destruct (decide (_id d = _id d')) as [E|E].
  - rewrite decide_False in Hfree by (by intros ?).
    rewrite replace_doc_absent by (by rewrite <- E).
    rewrite filter_absent in Hfree by (by rewrite <- E).
    rewrite fmap_cons, NoDup_cons. by split.
  - rewrite decide_True in Hfree by done.
    rewrite fmap_cons, not_elem_of_cons in Hfree. destruct Hfree as [Hne Hfree].
    rewrite fmap_cons, NoDup_cons. split; [|by apply IH].
    intros (x & Hx & Hin)%list_elem_of_fmap.
    apply replace_doc_elem in Hin as [[Hin _]|[-> _]]; [|done].
    apply Hkey. rewrite Hx. by apply list_elem_of_fmap_2.
Qed.

Lemma User_update_Ok us raw f_name f_phone f_email f_role f_location u' us' :
  User.findByIdAndUpdate us raw f_name f_phone f_email f_role f_location
  = Ok (Some u', us') →
  ∃ i u n ph e,
    castObjectId raw = Some i ∧ findById us i = Some u ∧
    user_id u' = i ∧ us' = replace_doc u' us ∧
    User.email_taken (filter (λ d, user_id d ≠ i) us) (user_email u') = false ∧
    updated_string "User name is required" trim f_name = Ok n ∧
    user_name u' = default (user_name u) n ∧
    updated_string "Phone number is required" trim f_phone = Ok ph ∧
    user_phone u' = default (user_phone u) ph ∧
    User.updated_email f_email = Ok e ∧
    user_email u' = default (user_email u) e.
Proof.
  unfold User.findByIdAndUpdate, castQuery.
  destruct (castObjectId raw) as [i|] eqn:Hcast; [|done]. simpl.
  destruct (updated_required_ref _ f_location) as [loc|]; [|done]. simpl.
  destruct (updated_string _ trim f_name) as [n|] eqn:Hn; [|done]. simpl.
  destruct (updated_string _ trim f_phone) as [ph|] eqn:Hph; [|done]. simpl.
  destruct (User.updated_email f_email) as [e|] eqn:He; [|done]. simpl.
  destruct (User.updated_role f_role) as [r|]; [|done]. simpl.
  destruct (findById us i) as [u|] eqn:Hu; [|done].
  destruct (User.email_taken _ _) eqn:Htaken; [done|].
  intros [= <- <-]. exists i, u, n, ph, e. split_and!; try done.
  by apply findById_Some in Hu as [_ Hu].
Qed.

Lemma updateUser_cases (db : Db) (req : Request) :
  (∃ res, UserController.updateUser db req = (db, res)
          ∧ status (reply_head res) ≠ 200%N) ∨
  (∃ u' us',
     User.findByIdAndUpdate (users db) (params_id req) (name (body req))
       (phone (body req)) (email (body req)) (role (body req)) (location (body req))
     = Ok (Some u', us') ∧
     let db' := set_users db us' in
     UserController.updateUser db req
     = (db', reply_ok 200 (OneUser (populate_user db' u')))).
Proof.
  unfold UserController.updateUser.
  destruct (User.findByIdAndUpdate _ _ _ _ _ _ _) as [[[u'|] us']|e]; simpl.
  - right. by exists u', us'.
  - left. by eexists.
  - left. destruct (bool_decide _); [by eexists|].
    destruct (String.eqb _ _); by eexists.
Qed.

Lemma deleteUser_cases (db : Db) (req : Request) :
  (∃ res, UserController.deleteUser db req = (db, res)
          ∧ status (reply_head res) ≠ 200%N) ∨
  (∃ i u,
     castObjectId (params_id req) = Some i ∧ findById (users db) i = Some u ∧
     UserController.deleteUser db req
     = (set_users db (filter (λ d, user_id d ≠ i) (users db)),
        reply_ok_message 200 "User deleted successfully" (DeletedUser u))).
Proof.
  unfold UserController.deleteUser, castQuery.
  destruct (castObjectId (params_id req)) as [i|] eqn:Hcast; [|left; by eexists].
  simpl. unfold findByIdAndDelete.
  destruct (findById (users db) i) as [u|] eqn:Hu; [|left; by eexists].
  right. by exists i, u.
Qed.

(** The user controller keeps the user collection well formed: after
    [createUser], [updateUser] or [deleteUser], with any request, ids are
    unique, emails are unique, and every user has a name and a phone that
    are not empty and an email that matches the pattern, when that held
    before; locations and venues are not touched. *)
Theorem user_controller_keeps_invariants (db : Db) (req : Request) :
  unique_ids (users db) → unique_emails (users db) → Forall valid_user (users db) →
  ∀ db',
    db' = (UserController.createUser db req).1 ∨
    db' = (UserController.updateUser db req).1 ∨
    db' = (UserController.deleteUser db req).1 →
    unique_ids (users db') ∧ unique_emails (users db') ∧
    Forall valid_user (users db') ∧
    locations db' = locations db ∧ venues db' = venues db.
Proof.
  intros Hids Hemails Hvalid db' [->|[->| ->]].
  - destruct (createUser_cases db req) as [(res & -> & _)|(u & Hcreate & _ & ->)];
      [done|].
    apply User_create_Ok in Hcreate as (_ & Hid & Htaken & Hn & Hph & He & _).
    simpl. split_and!; [| | |done..].
    + unfold unique_ids. rewrite fmap_app. apply NoDup_app. split_and!; [done| |].
      * intros x Hx [->|[]%elem_of_nil]%elem_of_cons.
        apply (freshId_not_elem (users db)). by rewrite <- Hid.
      * apply NoDup_singleton.
    + unfold unique_emails. rewrite fmap_app. apply NoDup_app. split_and!; [done| |].
      * intros x Hx [->|[]%elem_of_nil]%elem_of_cons.
        by apply email_taken_false in Htaken.
      * apply NoDup_singleton.
    + apply Forall_app. split; [done|]. apply Forall_singleton. split_and!.
      * by eapply required_string_Ok.
      * by eapply required_string_Ok.
      * by eapply required_email_Ok.
  - destruct (updateUser_cases db req) as [(res & -> & _)|(u' & us' & Hupd & ->)];
      [done|].
    apply User_update_Ok in Hupd
      as (i & u & n & ph & e & _ & Hu & Hid & -> & Htaken & Hn & Hname & Hph & Hphone
          & He & Hemail).
    pose proof (findById_Some _ _ _ Hu) as [Hin _].
    pose proof (proj1 (Forall_forall _ _) Hvalid u Hin) as (Hvn & Hvp & Hve).
    simpl. split_and!; [| | |done..].
    + unfold unique_ids. by rewrite replace_doc_ids.
    + apply (replace_doc_unique_key (H:=UserDoc_Document)); [done..|].
      apply email_taken_false in Htaken. by rewrite <- Hid in Htaken.
    + apply Forall_forall. intros x Hx.
      apply replace_doc_elem in Hx as [[Hx _]|[-> _]];
        [by apply (proj1 (Forall_forall _ _) Hvalid)|].
      split_and!.
      * rewrite Hname. destruct n as [v|]; [|done]. by eapply updated_string_Ok.
      * rewrite Hphone. destruct ph as [v|]; [|done]. by eapply updated_string_Ok.
      * rewrite Hemail. destruct e as [v|]; [|done]. by eapply updated_email_Ok.
  - destruct (deleteUser_cases db req) as [(res & -> & _)|(i & u & _ & _ & ->)];
      [done|].
    simpl. split_and!; [| | |done..].
    + eapply sublist_NoDup; [exact Hids|]. apply fmap_sublist, sublist_filter.
    + eapply sublist_NoDup; [exact Hemails|]. apply fmap_sublist, sublist_filter.
    + apply Forall_forall. intros x [_ Hx]%list_elem_of_filter.
      by apply (proj1 (Forall_forall _ _) Hvalid).
Qed.

Lemma sample_users_unique : unique_ids sample_users.
Proof. apply (bool_decide_unpack _). vm_compute. exact I. Defined.

Lemma sample_users_emails : unique_emails sample_users.
Proof. apply (bool_decide_unpack _). vm_compute. exact I. Defined.

Lemma sample_users_valid : Forall valid_user sample_users.
Proof.
  apply Forall_forall. intros u Hu. unfold sample_users in Hu.
  repeat (apply elem_of_cons in Hu as [->|Hu]); [..|by apply elem_of_nil in Hu];
    (split_and!; [discriminate|discriminate|vm_compute; reflexivity]).
Defined.

Lemma user_controller_keeps_invariants_witness :
  let db' := (UserController.updateUser sample_db
                (request None hex3
                   (user_body "Cyril" "0783" " CY@nelson.rw" "Organizer" hex4))).1 in
  unique_ids (users db') ∧ unique_emails (users db') ∧
  Forall valid_user (users db') ∧
  locations db' = locations sample_db ∧ venues db' = venues sample_db.
Proof.
  intros db'.
  apply (user_controller_keeps_invariants sample_db
           (request None hex3
              (user_body "Cyril" "0783" " CY@nelson.rw" "Organizer" hex4))
           sample_users_unique sample_users_emails sample_users_valid db').
  right. left. reflexivity.
Defined.

Example updateUser_cy :
  users (UserController.updateUser sample_db
           (request None hex3
              (user_body "Cyril" "0783" " CY@nelson.rw" "Organizer" hex4))).1
  = [ada; ben;
     {| user_id := 3%N; user_name := "Cyril"; user_phone := "0783";
        user_email := "cy@nelson.rw"; user_role := Organizer; user_location := 4%N |};
     di].
Proof. vm_compute. reflexivity. Qed.

(** Identity follows the user collection: the id of a user created with
    status 201 did not authenticate before and authenticates afterwards as
    that user; after a deletion answered 200 the deleted id is answered 401
    by [authenticateUser]. *)
Theorem user_identity_after_write (db : Db) (req : Request) :
  (∀ db' res pu raw req',
     UserController.createUser db req = (db', res) →
     status res = 201%N → payload res = UserCreated pu →
     x_user_id req' = Some raw → castObjectId raw = Some (user_id (pu_doc pu)) →
     (∃ res, Auth.authenticateUser db req' = Respond res ∧ status res = 401%N) ∧
     Auth.authenticateUser db' req'
     = Next {| x_user_id := x_user_id req'; params_id := params_id req';
               params_locationId := params_locationId req'; body := body req';
               user := Some pu |}) ∧
  (∀ db' res req',
     UserController.deleteUser db req = (db', res) →
     status (reply_head res) = 200%N →
     x_user_id req' = Some (params_id req) →
     ∃ res', Auth.authenticateUser db' req' = Respond res' ∧ status res' = 401%N).
Proof.
  split.
  - intros db' res pu raw req' Hcreate Hstatus Hpayload Hraw Hcast.
    destruct (createUser_cases db req) as [(res0 & E & Hne)|(u & Hc & _ & E)];
      rewrite E in Hcreate; injection Hcreate as <- <-; [done|].
    simpl in Hpayload. injection Hpayload as <-.
    apply User_create_Ok in Hc as (_ & Hid & _). simpl in Hcast.
    unfold Auth.authenticateUser.
    rewrite Hraw, (castObjectId_truthy _ _ Hcast), (castQuery_Some _ _ Hcast).
    simpl. split.
    + rewrite Hid, (freshId_fresh (H:=UserDoc_Document)). by eexists.
    + assert (findById (users db ++ [u]) (user_id u) = Some u) as ->
        by (by apply findById_snoc_new).
      unfold set_user. by rewrite Hraw.
  - intros db' res req' Hdel Hstatus Hraw.
    destruct (deleteUser_cases db req) as [(res' & E & Hne)|(i & u & Hcast & _ & E)];
      rewrite E in Hdel; simplify_eq.
    unfold Auth.authenticateUser.
    rewrite Hraw, (castObjectId_truthy _ _ Hcast), (castQuery_Some _ _ Hcast).
    simpl. rewrite (findById_filter_ne (H:=UserDoc_Document)). by eexists.
Qed.

Lemma user_identity_after_write_witness :
  let created := UserController.createUser sample_db
                   (request None ""
                      (user_body "Eve" "0785" "Eve@Nelson.rw" "Attend" hex3)) in
  let deleted := UserController.deleteUser sample_db (request None hex2 empty_body) in
  ((∃ res, Auth.authenticateUser sample_db (request (Some hex5) "" empty_body)
           = Respond res ∧ status res = 401%N) ∧
   ∃ pu, Auth.authenticateUser created.1 (request (Some hex5) "" empty_body)
         = Next {| x_user_id := Some hex5; params_id := ""; params_locationId := "";
                   body := empty_body; user := Some pu |} ∧
         user_name (pu_doc pu) = "Eve") ∧
  ∃ res', Auth.authenticateUser deleted.1 (request (Some hex2) "" empty_body)
          = Respond res' ∧ status res' = 401%N.
Proof.
  intros created deleted. split.
  - destruct (proj1 (user_identity_after_write sample_db
                       (request None ""
                          (user_body "Eve" "0785" "Eve@Nelson.rw" "Attend" hex3)))
                created.1 created.2
                (populate_user created.1
                   {| user_id := 5%N; user_name := "Eve"; user_phone := "0785";
                      user_email := "eve@nelson.rw"; user_role := Attend;
                      user_location := 3%N |})
                hex5 (request (Some hex5) "" empty_body)
                eq_refl eq_refl eq_refl eq_refl eq_refl)
      as [Hbefore Hafter].
    split; [exact Hbefore|]. eexists. split; [exact Hafter|reflexivity].
  - apply (proj2 (user_identity_after_write sample_db (request None hex2 empty_body))
             deleted.1 deleted.2 (request (Some hex2) "" empty_body));
      reflexivity.
Defined.

(** ** Users by role *)

(** [getUsersByRole] answers 400 for every string that is not one of the
    three role names (in their exact spelling); for a role name it lists the
    users of that role, and the three listings together count every user
    once. *)
Theorem getUsersByRole_partition (db : Db) :
  (∀ s, (∀ r, s ≠ role_name r) →
     UserController.getUsersByRole db s
     = {| reply_head := {| status := 400; success := false;
                           message := Some "Invalid role. Must be Admin, Organizer, or Attend";
                           error := None; payload := NoData |};
          listing := NoListing |}) ∧
  (∀ r,
     let found := filter (λ u, user_role u = r) (users db) in
     UserController.getUsersByRole db (role_name r)
     = {| reply_head := {| status := 200; success := true; message := None;
                           error := None; payload := NoData |};
          listing := UsersList (length found) (populate_user db <$> found) |}) ∧
  (length (filter (λ u, user_role u = Admin) (users db))
   + length (filter (λ u, user_role u = Organizer) (users db))
   + length (filter (λ u, user_role u = Attend) (users db))
   = length (users db))%nat.
Proof.
  split_and!.
  - intros s Hs. unfold UserController.getUsersByRole.
    rewrite bool_decide_eq_false_2; [done|].
    intros [->|[->|[->|[]%elem_of_nil]%elem_of_cons]%elem_of_cons]%elem_of_cons.
    + by apply (Hs Admin).
    + by apply (Hs Organizer).
    + by apply (Hs Attend).
  - intros r found. unfold UserController.getUsersByRole.
    rewrite bool_decide_eq_true_2.
    + simpl. unfold found.
      rewrite (list_filter_iff (λ u, role_name (user_role u) = role_name r)
                 (λ u, user_role u = r)); [done|].
      intros u. split; [|by intros ->]. by destruct (user_role u), r.
    + destruct r; simpl; set_solver.
  - induction (users db) as [|u us IH]; [done|].
    rewrite !filter_cons. destruct (user_role u); simpl;
      repeat (case_decide; try done); simpl; lia.
Qed.

Lemma getUsersByRole_partition_witness :
  UserController.getUsersByRole sample_db "admin"
  = {| reply_head := {| status := 400; success := false;
                        message := Some "Invalid role. Must be Admin, Organizer, or Attend";
                        error := None; payload := NoData |};
       listing := NoListing |}.
Proof.
  apply (proj1 (getUsersByRole_partition sample_db)). by intros [].
Defined.

(** ** The venue controller *)

Lemma Venue_create_fields vs f_pn f_cap f_loc creator v vs' :
  Venue.create vs f_pn f_cap f_loc creator = Ok (v, vs') →
  required_string "Venue place name is required" trim f_pn = Ok (venue_placeName v) ∧
  required_capacity f_cap = Ok (venue_capacity v) ∧
  required_ref "Location is required" f_loc = Ok (venue_location v).
Proof.
  unfold Venue.create.
  destruct (required_string _ _ _) as [pn|]; [|done]. simpl.
  destruct (required_capacity _) as [cap|]; [|done]. simpl.
  destruct (required_ref _ _) as [loc|]; [|done]. simpl.
  by intros [= <- <-].
Qed.

Lemma required_capacity_Ok f cap : required_capacity f = Ok cap → (1 ≤ cap)%Z.
Proof.
  destruct f as [| |n]; simpl; [done..|].
  destruct (1 <=? n)%Z eqn:E; [|done]. intros [= <-]. lia.
Qed.

Lemma updated_capacity_Ok f cap : updated_capacity f = Ok (Some cap) → (1 ≤ cap)%Z.
Proof.
  destruct f as [| |n]; simpl; [done..|].
  destruct (1 <=? n)%Z eqn:E; [|done]. intros [= <-]. lia.
Qed.

Lemma Venue_update_Ok vs raw upd v' vs' :
  Venue.findByIdAndUpdate vs raw upd = Ok (Some v', vs') →
  ∃ i v loc pn cap,
    castObjectId raw = Some i ∧ findById vs i = Some v ∧
    venue_id v' = i ∧ vs' = replace_doc v' vs ∧
    updated_required_ref "Location is required" (Venue.set_location upd) = Ok loc ∧
    venue_location v' = default (venue_location v) loc ∧
    updated_string "Venue place name is required" trim (Venue.set_placeName upd)
    = Ok pn ∧
    venue_placeName v' = default (venue_placeName v) pn ∧
    updated_capacity (Venue.set_capacity upd) = Ok cap ∧
    venue_capacity v' = default (venue_capacity v) cap.
Proof.
  unfold Venue.findByIdAndUpdate, castQuery.
  destruct (castObjectId raw) as [i|] eqn:Hcast; [|done]. simpl.
  destruct (updated_required_ref _ (Venue.set_location upd)) as [loc|] eqn:Hloc;
    [|done]. simpl.
  destruct (updated_required_ref _ (Venue.set_createdBy upd)) as [by_|]; [|done].
  simpl.
  destruct (updated_string _ _ _) as [pn|] eqn:Hpn; [|done]. simpl.
  destruct (updated_capacity _) as [cap|] eqn:Hcap; [|done]. simpl.
  destruct (findById vs i) as [v|] eqn:Hv; [|done].
  intros [= <- <-]. exists i, v, loc, pn, cap. split_and!; try done.
  by apply findById_Some in Hv as [_ Hv].
Qed.

(** A venue is created only with the id of a stored location. *)
Lemma createVenue_located (db : Db) (req : Request) u v vs' :
  user req = Some u →
  Venue.create (venues db) (placeName (body req)) (capacity (body req))
    (location (body req)) (user_id (pu_doc u)) = Ok (v, vs') →
  VenueController.createVenue db req
  = (set_venues db vs', ok 201 (VenueSaved (populate_venue (set_venues db vs') v))) →
  venue_location v ∈ loc_id <$> locations db.
Proof.
  intros Hu Hcreate. unfold VenueController.createVenue.
  destruct (negb (truthy (placeName (body req))) || _ || _); [intros [= _ ?]; done|].
  apply Venue_create_fields in Hcreate as (_ & _ & Hloc).
  destruct (location (body req)) as [| |raw]; [done..|]. simpl in Hloc.
  unfold castQuery. destruct (castObjectId raw) as [i|]; [|done]. simplify_eq.
  simpl. destruct (findById (locations db) (venue_location v)) as [l|] eqn:Hl.
  - intros _. apply findById_is_Some_elem. by eexists.
  - by intros [= _ ?].
Qed.

(** A venue gets a new location only when it is the id of a stored one. *)
Lemma updateVenue_located (db : Db) (req : Request) v' vs' raw i :
  VenueController.updateVenue db req
  = (set_venues db vs', ok 200 (VenueSaved (populate_venue (set_venues db vs') v'))) →
  location (body req) = Given raw → castObjectId raw = Some i →
  i ∈ loc_id <$> locations db.
Proof.
  unfold VenueController.updateVenue. intros Hres Hloc Hcast. rewrite Hloc in Hres.
  rewrite (castObjectId_truthy _ _ Hcast), (castQuery_Some _ _ Hcast) in Hres.
  simpl in Hres. destruct (findById (locations db) i) as [l|] eqn:Hl.
  - apply findById_is_Some_elem. by eexists.
  - by injection Hres.
Qed.

Lemma deleteVenue_cases (db : Db) (req : Request) :
  (∃ res, VenueController.deleteVenue db req = (db, res) ∧ status res ≠ 200%N) ∨
  (∃ i v,
     castObjectId (params_id req) = Some i ∧ findById (venues db) i = Some v ∧
     VenueController.deleteVenue db req
     = (set_venues db (filter (λ d, venue_id d ≠ i) (venues db)),
        ok_message 200 "Venue deleted successfully" (VenueDeleted v))).
Proof.
  unfold VenueController.deleteVenue, castQuery.
  destruct (castObjectId (params_id req)) as [i|] eqn:Hcast; [|left; by eexists].
  simpl. unfold findByIdAndDelete.
  destruct (findById (venues db) i) as [v|] eqn:Hv; [|left; by eexists].
  right. by exists i, v.
Qed.

(** The venue controller keeps the venue collection well formed: after
    [createVenue], [updateVenue] or [deleteVenue], with any request, ids are
    unique, every venue has a place name that is not empty and a capacity of
    at least 1, and every venue is at a stored location, when that held
    before; locations and users are not touched. *)
Theorem venue_controller_keeps_invariants (db : Db) (req : Request) :
  unique_ids (venues db) → Forall valid_venue (venues db) →
  Forall (λ v, venue_location v ∈ loc_id <$> locations db) (venues db) →
  ∀ db',
    db' = (VenueController.createVenue db req).1 ∨
    db' = (VenueController.updateVenue db req).1 ∨
    db' = (VenueController.deleteVenue db req).1 →
    unique_ids (venues db') ∧ Forall valid_venue (venues db') ∧
    Forall (λ v, venue_location v ∈ loc_id <$> locations db') (venues db') ∧
    locations db' = locations db ∧ users db' = users db.
Proof.
  intros Hids Hvalid Hlocated db' [->|[->| ->]].
  - destruct (createVenue_cases db req)
      as [(res & -> & _)|(u & v & vs' & Hu & Hcreate & E)]; [done|].
    pose proof (createVenue_located db req u v vs' Hu Hcreate E) as Hloc.
    rewrite E.
    pose proof (Venue_create_fields _ _ _ _ _ _ _ Hcreate) as (Hpn & Hcap & _).
    apply Venue_create_Ok in Hcreate as (Hid & _ & ->).
    simpl. split_and!; [| | |done..].
    + unfold unique_ids. rewrite fmap_app. apply NoDup_app. split_and!; [done| |].
      * intros x Hx [->|[]%elem_of_nil]%elem_of_cons.
        apply (freshId_not_elem (venues db)). by rewrite <- Hid.
      * apply NoDup_singleton.
    + apply Forall_app. split; [done|]. apply Forall_singleton. split.
      * by eapply required_string_Ok.
      * by eapply required_capacity_Ok.
    + apply Forall_app. split; [done|]. by apply Forall_singleton.
  - destruct (updateVenue_cases db req) as [(res & -> & _)|(v' & vs' & Hupd & E)];
      [done|].
    pose proof (λ raw i, updateVenue_located db req v' vs' raw i E) as Hnewloc.
    rewrite E.
    apply Venue_update_Ok in Hupd
      as (i & v & loc & pn & cap & _ & Hv & Hid & -> & Hloc & Hlocation & Hpn & Hname
          & Hcap & Hcapacity).
    pose proof (findById_Some _ _ _ Hv) as [Hin _].
    pose proof (proj1 (Forall_forall _ _) Hvalid v Hin) as (Hvn & Hvc).
    simpl in *. split_and!; [| | |done..].
    + unfold unique_ids. by rewrite replace_doc_ids.
    + apply Forall_forall. intros x Hx.
      apply replace_doc_elem in Hx as [[Hx _]|[-> _]];
        [by apply (proj1 (Forall_forall _ _) Hvalid)|].
      split.
      * rewrite Hname. destruct pn as [s|]; [|done]. by eapply updated_string_Ok.
      * rewrite Hcapacity. destruct cap as [n|]; [|done]. by eapply updated_capacity_Ok.
    + apply Forall_forall. intros x Hx.
      apply replace_doc_elem in Hx as [[Hx _]|[-> _]];
        [by apply (proj1 (Forall_forall _ _) Hlocated)|].
      rewrite Hlocation. destruct loc as [j|]; simpl.
      * destruct (location (body req)) as [| |raw] eqn:Hraw; simpl in Hloc;
          [done..|].
        destruct (castQuery raw) as [j'|] eqn:Hj; [|done]. simpl in Hloc.
        simplify_eq. unfold castQuery in Hj.
        destruct (castObjectId raw) as [j'|] eqn:Hcast; [|done]. simplify_eq.
        by apply (Hnewloc raw).
      * by apply (proj1 (Forall_forall _ _) Hlocated v).
  - destruct (deleteVenue_cases db req) as [(res & -> & _)|(i & v & _ & _ & ->)];
      [done|].
    simpl. split_and!; [| | |done..].
    + eapply sublist_NoDup; [exact Hids|]. apply fmap_sublist, sublist_filter.
    + apply Forall_forall. intros x [_ Hx]%list_elem_of_filter.
      by apply (proj1 (Forall_forall _ _) Hvalid).
    + apply Forall_forall. intros x [_ Hx]%list_elem_of_filter.
      by apply (proj1 (Forall_forall _ _) Hlocated).
Qed.

Lemma sample_venues_unique : unique_ids sample_venues.
Proof. apply (bool_decide_unpack _). vm_compute. exact I. Defined.

Lemma sample_venues_valid : Forall valid_venue sample_venues.
Proof.
  apply Forall_forall. intros v Hv. unfold sample_venues in Hv.
  repeat (apply elem_of_cons in Hv as [->|Hv]); [..|by apply elem_of_nil in Hv];
    (split; [discriminate|simpl; lia]).
Defined.

Lemma sample_venues_located :
  Forall (λ v, venue_location v ∈ loc_id <$> locations sample_db) (venues sample_db).
Proof. apply (bool_decide_unpack _). vm_compute. exact I. Defined.

Lemma venue_controller_keeps_invariants_witness :
  let db' := (VenueController.updateVenue sample_db
                (request None hex2
                   (venue_body (Given " Hall B ") (Given 90%Z) (Given hex4)))).1 in
  unique_ids (venues db') ∧ Forall valid_venue (venues db') ∧
  Forall (λ v, venue_location v ∈ loc_id <$> locations db') (venues db') ∧
  locations db' = locations sample_db ∧ users db' = users sample_db.
Proof.
  intros db'.
  apply (venue_controller_keeps_invariants sample_db
           (request None hex2
              (venue_body (Given " Hall B ") (Given 90%Z) (Given hex4)))
           sample_venues_unique sample_venues_valid sample_venues_located db').
  right. left. reflexivity.
Defined.

(** Reading a venue back with [getVenueById]: after a creation answered 201
    the venue is found under its id (404 before); after an update answered
    200 the path id gives the updated venue; after a deletion answered 200
    the path id gives 404. *)
Theorem venue_read_after_write (db : Db) (req : Request) :
  (∀ db' res pv req',
     VenueController.createVenue db req = (db', res) →
     status res = 201%N → payload res = VenueSaved pv →
     castObjectId (params_id req') = Some (venue_id (pv_doc pv)) →
     VenueController.getVenueById db req'
     = {| reply_head := {| status := 404; success := false;
                           message := Some "Venue not found";
                           error := None; payload := NoData |};
          listing := NoListing |} ∧
     VenueController.getVenueById db' req'
     = {| reply_head := {| status := 200; success := true; message := None;
                           error := None; payload := NoData |};
          listing := OneVenue pv |}) ∧
  (∀ db' res pv,
     VenueController.updateVenue db req = (db', res) →
     status res = 200%N → payload res = VenueSaved pv →
     VenueController.getVenueById db' req
     = {| reply_head := {| status := 200; success := true; message := None;
                           error := None; payload := NoData |};
          listing := OneVenue pv |}) ∧
  (∀ db' res,
     VenueController.deleteVenue db req = (db', res) → status res = 200%N →
     VenueController.getVenueById db' req
     = {| reply_head := {| status := 404; success := false;
                           message := Some "Venue not found";
                           error := None; payload := NoData |};
          listing := NoListing |}).
Proof.
  split_and!.
  - intros db' res pv req' Hcreate Hstatus Hpayload Hcast.
    destruct (createVenue_cases db req)
      as [(res0 & E & Hno)|(u & v & vs' & _ & Hc & E)]; rewrite E in Hcreate;
      injection Hcreate as <- <-.
    + by rewrite Hno in Hpayload.
    + simpl in Hpayload. injection Hpayload as <-.
      apply Venue_create_Ok in Hc as (Hid & _ & ->). simpl in Hcast.
      unfold VenueController.getVenueById. rewrite (castQuery_Some _ _ Hcast). simpl.
      split.
      * rewrite Hid. by rewrite (freshId_fresh (H:=VenueDoc_Document)).
      * assert (findById (venues db ++ [v]) (venue_id v) = Some v) as ->
          by (by apply findById_snoc_new).
        done.
  - intros db' res pv Hupd Hstatus Hpayload.
    destruct (updateVenue_cases db req) as [(res0 & E & Hno)|(v' & vs' & Hu & E)];
      rewrite E in Hupd; injection Hupd as <- <-.
    + by rewrite Hno in Hpayload.
    + simpl in Hpayload. injection Hpayload as <-.
      apply Venue_update_Ok in Hu as (i & v & _ & _ & _ & Hcast & Hv & Hid & -> & _).
      unfold VenueController.getVenueById. rewrite (castQuery_Some _ _ Hcast). simpl.
      rewrite (findById_replace_doc (H:=VenueDoc_Document)), Hv. simpl.
      rewrite decide_True; [done|].
      apply findById_Some in Hv as [_ Hv]. by rewrite Hv.
  - intros db' res Hdel Hstatus.
    destruct (deleteVenue_cases db req) as [(res' & E & Hne)|(i & v & Hcast & _ & E)];
      rewrite E in Hdel; simplify_eq.
    unfold VenueController.getVenueById. rewrite (castQuery_Some _ _ Hcast). simpl.
    by rewrite (findById_filter_ne (H:=VenueDoc_Document)).
Qed.

Lemma venue_read_after_write_witness :
  let upd := request None hex2
               (venue_body (Given " Hall B ") (Given 90%Z) (Given hex4)) in
  let updated := VenueController.updateVenue sample_db upd in
  let deleted := VenueController.deleteVenue sample_db (request None hex3 empty_body) in
  VenueController.getVenueById updated.1 upd
  = {| reply_head := {| status := 200; success := true; message := None;
                        error := None; payload := NoData |};
       listing :=
         OneVenue
           (populate_venue updated.1
              {| venue_id := 2%N; venue_placeName := "Hall B";
                 venue_capacity := 90%Z; venue_location := 4%N;
                 venue_createdBy := 4%N |}) |} ∧
  VenueController.getVenueById deleted.1 (request None hex3 empty_body)
  = {| reply_head := {| status := 404; success := false;
                        message := Some "Venue not found";
                        error := None; payload := NoData |};
       listing := NoListing |}.
Proof.
  intros upd updated deleted. split.
  - apply (proj1 (proj2 (venue_read_after_write sample_db upd)) updated.1 updated.2);
      reflexivity.
  - apply (proj2 (proj2 (venue_read_after_write sample_db
                           (request None hex3 empty_body))) deleted.1 deleted.2);
      reflexivity.
Defined.

(** ** Listing venues *)

(** What an authenticated caller is shown: on [GET /] an Organizer gets the
    venues that caller created and nothing else, every other role all
    venues; [GET /organizer/:id] with the caller's own id gives an Organizer
    the same venues, and answers 400 for a caller of another role. *)
Theorem venue_listing_by_role (db : Db) (req : Request) raw (u : UserDoc) :
  x_user_id req = Some raw → castObjectId raw = Some (user_id u) →
  findById (users db) (user_id u) = Some u →
  let own := filter (λ v, venue_createdBy v = user_id u) (venues db) in
  (user_role u = Organizer →
   VenueRoutes.get_root db req
   = {| reply_head := {| status := 200; success := true; message := None;
                         error := None; payload := NoData |};
        listing := VenuesList (length own) (populate_venue db <$> own) |} ∧
   VenueRoutes.get_organizer db req raw
   = {| reply_head := {| status := 200; success := true; message := None;
                         error := None; payload := NoData |};
        listing := OrganizerVenues (length own)
                     (user_id u, user_name u, user_email u)
                     (populate_venue db <$> own) |}) ∧
  (user_role u ≠ Organizer →
   VenueRoutes.get_root db req
   = {| reply_head := {| status := 200; success := true; message := None;
                         error := None; payload := NoData |};
        listing := VenuesList (length (venues db)) (populate_venue db <$> venues db) |} ∧
   VenueRoutes.get_organizer db req raw
   = {| reply_head := {| status := 400; success := false;
                         message := Some "User is not an organizer";
                         error := None; payload := NoData |};
        listing := NoListing |}).
Proof.
  intros Hraw Hcast Hu own.
  unfold VenueRoutes.get_root, VenueRoutes.get_organizer.
  rewrite (authenticateUser_resolved db req raw _ u Hraw Hcast Hu). simpl.
  unfold VenueController.getAllVenues, VenueController.getVenuesByOrganizer. simpl.
  rewrite (castQuery_Some _ _ Hcast), Hu. split.
  - intros Hrole. by rewrite !bool_decide_eq_true_2.
  - intros Hrole. by rewrite !bool_decide_eq_false_2.
Qed.

Lemma venue_listing_by_role_witness :
  (VenueRoutes.get_root sample_db (request (Some hex2) "" empty_body)
   = {| reply_head := {| status := 200; success := true; message := None;
                         error := None; payload := NoData |};
        listing := VenuesList 2 (populate_venue sample_db <$> [arena; club]) |} ∧
   VenueRoutes.get_organizer sample_db (request (Some hex2) "" empty_body) hex2
   = {| reply_head := {| status := 200; success := true; message := None;
                         error := None; payload := NoData |};
        listing := OrganizerVenues 2 (2%N, "Ben", "ben@nelson.rw")
                     (populate_venue sample_db <$> [arena; club]) |}) ∧
  (VenueRoutes.get_root sample_db (request (Some hex3) "" empty_body)
   = {| reply_head := {| status := 200; success := true; message := None;
                         error := None; payload := NoData |};
        listing := VenuesList 3 (populate_venue sample_db <$> sample_venues) |} ∧
   VenueRoutes.get_organizer sample_db (request (Some hex3) "" empty_body) hex3
   = {| reply_head := {| status := 400; success := false;
                         message := Some "User is not an organizer";
                         error := None; payload := NoData |};
        listing := NoListing |}).
Proof.
  split.
  - apply (proj1 (venue_listing_by_role sample_db (request (Some hex2) "" empty_body)
                    hex2 ben eq_refl eq_refl eq_refl)). reflexivity.
  - apply (proj2 (venue_listing_by_role sample_db (request (Some hex3) "" empty_body)
                    hex3 cy eq_refl eq_refl eq_refl)). discriminate.
Defined.

(** ** Who can write venues *)

Lemma authenticateUser_inv (db : Db) (req req1 : Request) :
  Auth.authenticateUser db req = Next req1 →
  ∃ raw i u,
    x_user_id req = Some raw ∧ castObjectId raw = Some i ∧
    findById (users db) i = Some u ∧ req1 = set_user req (populate_user db u).
Proof.
  unfold Auth.authenticateUser, castQuery.
  destruct (x_user_id req) as [raw|]; [|done].
  destruct (truthy_string raw); [|done]. simpl.
  destruct (castObjectId raw) as [i|] eqn:Hcast; [|done].
  destruct (findById (users db) i) as [u|] eqn:Hu; [|done].
  intros [= <-]. by exists raw, i, u.
Qed.

Lemma authenticateUser_401 (db : Db) (req : Request) res :
  Auth.authenticateUser db req = Respond res → status res = 401%N.
Proof.
  unfold Auth.authenticateUser, castQuery.
  destruct (x_user_id req) as [raw|]; [|by intros [= <-]].
  destruct (truthy_string raw); [|by intros [= <-]]. simpl.
  destruct (castObjectId raw) as [i|]; [|by intros [= <-]].
  destruct (findById (users db) i) as [u|]; [done|by intros [= <-]].
Qed.

Lemma checkVenueOwnership_inv (db : Db) (req req' : Request) (u : PopulatedUser) :
  user req = Some u → Auth.checkVenueOwnership db req = Next req' →
  req' = req ∧
  (user_role (pu_doc u) = Admin ∨
   ∃ j v, castObjectId (params_id req) = Some j ∧ findById (venues db) j = Some v ∧
          venue_createdBy v = user_id (pu_doc u)).
Proof.
  intros Hu. unfold Auth.checkVenueOwnership, castQuery. rewrite Hu.
  case_bool_decide as Hrole; [intros [= <-]; by split; [|left]|].
  destruct (truthy_string (params_id req)); [|done]. simpl.
  destruct (castObjectId (params_id req)) as [j|] eqn:Hcast; [|done].
  destruct (findById (venues db) j) as [v|] eqn:Hv; [|done].
  case_bool_decide as Hown; [done|]. intros [= <-]. split; [done|]. right.
  exists j, v. split_and!; [done..|]. by destruct (decide (venue_createdBy v = user_id (pu_doc u))).
Qed.

Lemma checkVenueOwnership_status (db : Db) (req : Request) (u : PopulatedUser) res :
  user req = Some u → Auth.checkVenueOwnership db req = Respond res →
  status res ≠ 401%N.
Proof.
  intros Hu. unfold Auth.checkVenueOwnership, castQuery. rewrite Hu.
  case_bool_decide; [done|].
  destruct (truthy_string (params_id req)); [|by intros [= <-]]. simpl.
  destruct (castObjectId (params_id req)) as [j|]; [|by intros [= <-]].
  destruct (findById (venues db) j) as [v|]; [|by intros [= <-]].
  case_bool_decide; [by intros [= <-]|done].
Qed.

(** Only the creator of a venue or an Admin changes it: whenever the update
    or the delete route returns another database than it was given, the
    [x-user-id] header names a stored user who is Admin or is the creator of
    the stored venue of the path id; locations and users are the same. *)
Theorem venue_write_requires_owner_or_admin (db db' : Db) (req : Request) :
  db' = (VenueRoutes.put_id db req).1 ∨ db' = (VenueRoutes.delete_id db req).1 →
  db' ≠ db →
  ∃ raw i u,
    x_user_id req = Some raw ∧ castObjectId raw = Some i ∧
    findById (users db) i = Some u ∧
    (user_role u = Admin ∨
     ∃ j v, castObjectId (params_id req) = Some j ∧ findById (venues db) j = Some v ∧
            venue_createdBy v = user_id u) ∧
    locations db' = locations db ∧ users db' = users db.
Proof.
  unfold VenueRoutes.put_id, VenueRoutes.delete_id. intros Hdb' Hchanged.
  destruct (Auth.authenticateUser db req) as [req1|res] eqn:Hauth;
    [|by destruct Hdb' as [-> | ->]].
  apply authenticateUser_inv in Hauth as (raw & i & u & Hraw & Hcast & Hu & ->).
  simpl in Hdb'.
  destruct (Auth.checkVenueOwnership db (set_user req (populate_user db u)))
    as [req2|res] eqn:Hgate; [|by destruct Hdb' as [-> | ->]].
  apply (checkVenueOwnership_inv db (set_user req (populate_user db u)) req2
           (populate_user db u) eq_refl) in Hgate as [-> Hown].
  simpl in Hdb', Hown.
  exists raw, i, u. split_and!; [done..| |].
  - destruct Hdb' as [-> | ->]; simpl.
    + by destruct (updateVenue_cases db (set_user req (populate_user db u)))
        as [(res & -> & _)|(v' & vs' & _ & ->)].
    + by destruct (deleteVenue_cases db (set_user req (populate_user db u)))
        as [(res & -> & _)|(j & v & _ & _ & ->)].
  - destruct Hdb' as [-> | ->]; simpl.
    + by destruct (updateVenue_cases db (set_user req (populate_user db u)))
        as [(res & -> & _)|(v' & vs' & _ & ->)].
    + by destruct (deleteVenue_cases db (set_user req (populate_user db u)))
        as [(res & -> & _)|(j & v & _ & _ & ->)].
Qed.

Lemma venue_write_requires_owner_or_admin_witness :
  ∃ raw i u,
    x_user_id (request (Some hex2) hex1 empty_body) = Some raw ∧
    castObjectId raw = Some i ∧ findById (users sample_db) i = Some u ∧
    (user_role u = Admin ∨
     ∃ j v, castObjectId (params_id (request (Some hex2) hex1 empty_body)) = Some j ∧
            findById (venues sample_db) j = Some v ∧
            venue_createdBy v = user_id u) ∧
    locations (VenueRoutes.delete_id sample_db (request (Some hex2) hex1 empty_body)).1
    = locations sample_db ∧
    users (VenueRoutes.delete_id sample_db (request (Some hex2) hex1 empty_body)).1
    = users sample_db.
Proof.
  apply (venue_write_requires_owner_or_admin sample_db _
           (request (Some hex2) hex1 empty_body)).
  - right. reflexivity.
  - vm_compute. discriminate.
Defined.

(** Only an Admin or an Organizer adds a venue: whenever the creation route
    returns another database than it was given, the [x-user-id] header names
    a stored user with one of these roles, and the new database has one more
    venue, created by that user, at the end of the collection. *)
Theorem venue_creation_requires_role (db : Db) (req : Request) :
  (VenueRoutes.post_root db req).1 ≠ db →
  ∃ raw i u v,
    x_user_id req = Some raw ∧ castObjectId raw = Some i ∧
    findById (users db) i = Some u ∧
    (user_role u = Admin ∨ user_role u = Organizer) ∧
    (VenueRoutes.post_root db req).1
    = {| locations := locations db; users := users db;
         venues := venues db ++ [v] |} ∧
    venue_createdBy v = user_id u ∧
    status (VenueRoutes.post_root db req).2 = 201%N.
Proof.
  unfold VenueRoutes.post_root. intros Hchanged.
  destruct (Auth.authenticateUser db req) as [req1|res] eqn:Hauth; [|done].
  apply authenticateUser_inv in Hauth as (raw & i & u & Hraw & Hcast & Hu & ->).
  simpl in *. unfold Auth.requireRole in *. simpl in *.
  destruct (bool_decide (user_role u ∈ [Admin; Organizer])) eqn:Hrole; [|done].
  apply bool_decide_eq_true_1 in Hrole. simpl in *.
  destruct (createVenue_cases db (set_user req (populate_user db u)))
    as [(res & E & _)|(pu & v & vs' & Hpu & Hcreate & E)]; rewrite E in *; [done|].
  simpl in Hpu. injection Hpu as <-.
  apply Venue_create_Ok in Hcreate as (_ & Hby & ->).
  exists raw, i, u, v. split_and!; try done.
  apply elem_of_cons in Hrole as [?|Hrole]; [by left|].
  apply list_elem_of_singleton in Hrole. by right.
Qed.

Lemma venue_creation_requires_role_witness :
  ∃ raw i u v,
    x_user_id (request (Some hex2) ""
                 (venue_body (Given "Stadium") (Given 100%Z) (Given hex2))) = Some raw ∧
    castObjectId raw = Some i ∧ findById (users sample_db) i = Some u ∧
    (user_role u = Admin ∨ user_role u = Organizer) ∧
    (VenueRoutes.post_root sample_db
       (request (Some hex2) ""
          (venue_body (Given "Stadium") (Given 100%Z) (Given hex2)))).1
    = {| locations := locations sample_db; users := users sample_db;
         venues := venues sample_db ++ [v] |} ∧
    venue_createdBy v = user_id u ∧
    status (VenueRoutes.post_root sample_db
              (request (Some hex2) ""
                 (venue_body (Given "Stadium") (Given 100%Z) (Given hex2)))).2
    = 201%N.
Proof.
  apply (venue_creation_requires_role sample_db). vm_compute. discriminate.
Defined.

(** ** Status codes of the venue routes *)

(* membership of a literal in a literal list *)
Ltac in_list :=
  simpl; repeat first [apply list_elem_of_here | apply list_elem_of_further].

Lemma createVenue_status (db : Db) (req : Request) :
  status (VenueController.createVenue db req).2 ∈ [201; 400; 404; 500]%N.
Proof.
  destruct (createVenue_cases db req) as [(res & E & _)|(u & v & vs' & _ & _ & ->)];
    [|simpl; in_list].
  clear E res. unfold VenueController.createVenue.
  destruct (negb (truthy (placeName (body req))) || _ || _); [simpl; in_list|].
  destruct (location (body req)) as [| |raw]; [simpl; in_list..|].
  destruct (castQuery raw) as [i|e]; simpl;
    [|destruct (String.eqb _ _); simpl; in_list].
  destruct (findById (locations db) i); [|simpl; in_list].
  destruct (user req) as [u|]; simpl; [|in_list].
  destruct (Venue.create _ _ _ _ _) as [[v vs']|e]; simpl; [in_list|].
  destruct (String.eqb _ _); simpl; in_list.
Qed.

Lemma updateVenue_status (db : Db) (req : Request) :
  status (VenueController.updateVenue db req).2 ∈ [200; 400; 404; 500]%N.
Proof.
  unfold VenueController.updateVenue.
  destruct (Venue.findByIdAndUpdate _ _ _) as [[[v'|] vs']|e]; simpl;
    (destruct (location (body req)) as [| |raw]; simpl;
     [try destruct (String.eqb _ _); simpl; in_list..|];
     destruct (truthy_string raw);
     [|try destruct (String.eqb _ _); simpl; in_list];
     destruct (castQuery raw) as [i|e']; simpl;
     [destruct (findById (locations db) i)|];
     try destruct (String.eqb _ _); simpl; in_list).
Qed.

Lemma deleteVenue_status (db : Db) (req : Request) :
  status (VenueController.deleteVenue db req).2 ∈ [200; 404; 500]%N.
Proof.
  destruct (deleteVenue_cases db req) as [(res & E & _)|(i & v & _ & _ & ->)];
    [|simpl; in_list].
  clear E res. unfold VenueController.deleteVenue, findByIdAndDelete.
  destruct (castQuery (params_id req)) as [i|e]; simpl; [|in_list].
  destruct (findById (venues db) i); simpl; in_list.
Qed.

Ltac not_in_list H :=
  exfalso; repeat (apply elem_of_cons in H as [H|H]; [discriminate H|]);
  by apply elem_of_nil in H.

Lemma requireRole_creators (req : Request) (u : PopulatedUser) :
  user req = Some u →
  Auth.requireRole [Admin; Organizer] req
  = if bool_decide (user_role (pu_doc u) = Attend)
    then Respond (fail 403 "Access denied. Required role(s): Admin, Organizer")
    else Next req.
Proof.
  intros Hu. unfold Auth.requireRole. rewrite Hu. by destruct (user_role (pu_doc u)).
Qed.

(** The statuses 401 and 403 of the mutating venue routes: each route
    answers 401 exactly when [authenticateUser] ends the request; creation
    answers 403 exactly for an authenticated Attend caller; update and
    delete answer 403 exactly for an authenticated caller who is not Admin,
    on a stored venue created by someone else. *)
Theorem venue_routes_401_403 (db : Db) (req : Request) :
  let unauthenticated := ∃ res, Auth.authenticateUser db req = Respond res in
  let attend := ∃ req1 u, Auth.authenticateUser db req = Next req1 ∧
                  user req1 = Some u ∧ user_role (pu_doc u) = Attend in
  let stranger := ∃ req1 u j v, Auth.authenticateUser db req = Next req1 ∧
                    user req1 = Some u ∧ user_role (pu_doc u) ≠ Admin ∧
                    castObjectId (params_id req) = Some j ∧
                    findById (venues db) j = Some v ∧
                    venue_createdBy v ≠ user_id (pu_doc u) in
  (status (VenueRoutes.post_root db req).2 = 401%N ↔ unauthenticated) ∧
  (status (VenueRoutes.put_id db req).2 = 401%N ↔ unauthenticated) ∧
  (status (VenueRoutes.delete_id db req).2 = 401%N ↔ unauthenticated) ∧
  (status (VenueRoutes.post_root db req).2 = 403%N ↔ attend) ∧
  (status (VenueRoutes.put_id db req).2 = 403%N ↔ stranger) ∧
  (status (VenueRoutes.delete_id db req).2 = 403%N ↔ stranger).
Proof.
  intros unauthenticated attend stranger. unfold unauthenticated, attend, stranger.
  unfold VenueRoutes.post_root, VenueRoutes.put_id, VenueRoutes.delete_id.
  destruct (Auth.authenticateUser db req) as [req1|res] eqn:Hauth; simpl.
  - apply authenticateUser_inv in Hauth as (raw & i & u & Hraw & Hcast & Hu & ->).
    set (req1 := set_user req (populate_user db u)).
    pose proof (createVenue_status db req1) as Hc.
    pose proof (updateVenue_status db req1) as Hp.
    pose proof (deleteVenue_status db req1) as Hd.
    rewrite (requireRole_creators req1 (populate_user db u) eq_refl). simpl.
    assert (∀ k : Request → Db * Response,
              (∀ r, status (k r).2 ≠ 401%N ∧ status (k r).2 ≠ 403%N) →
              status (VenueRoutes.chain (Auth.checkVenueOwnership db req1) db k).2
              ≠ 401%N ∧
              (status (VenueRoutes.chain (Auth.checkVenueOwnership db req1) db k).2
               = 403%N ↔
               ∃ (req2 : Request) (pu : PopulatedUser) j v,
                 Next req1 = Next req2 ∧ user req2 = Some pu ∧
                 user_role (pu_doc pu) ≠ Admin ∧
                 castObjectId (params_id req) = Some j ∧
                 findById (venues db) j = Some v ∧
                 venue_createdBy v ≠ user_id (pu_doc pu))) as Hgate.
    { intros k Hk. unfold Auth.checkVenueOwnership, castQuery. simpl.
      assert (∀ r, status (k r).2 = 403%N ↔ False) as Hk403
        by (intros r; split; [apply Hk|done]).
      case_bool_decide as Hrole; simpl.
      - split; [apply Hk|]. rewrite Hk403. split; [done|].
        intros (req2 & pu & j & v & [= <-] & [= <-] & Hne & _). done.
      - destruct (truthy_string (params_id req)) eqn:Ht; simpl.
        + destruct (castObjectId (params_id req)) as [j|] eqn:Hj; simpl.
          * destruct (findById (venues db) j) as [v|] eqn:Hv; simpl.
            -- case_bool_decide as Hown; simpl.
               ++ split; [done|]. split; [|done]. intros _.
                  exists req1, (populate_user db u), j, v. split_and!; done.
               ++ split; [apply Hk|]. rewrite Hk403. split; [done|].
                  intros (req2 & pu & j' & v' & [= <-] & [= <-] & _ & [= <-] & Hv'
                          & Hne).
                  apply Hne. simpl. rewrite Hv in Hv'. injection Hv' as <-.
                  by destruct (decide (venue_createdBy v = user_id u)).
            -- split; [done|]. split; [done|].
               intros (req2 & pu & j' & v' & _ & _ & _ & [= <-] & Hv' & _).
               congruence.
          * split; [done|]. split; [done|].
            by intros (req2 & pu & j' & v' & _ & _ & _ & ? & _).
        + split; [done|]. split; [done|].
          intros (req2 & pu & j' & v' & _ & _ & _ & Hj & _).
          by rewrite (castObjectId_truthy _ _ Hj) in Ht. }
    destruct (Hgate (VenueController.updateVenue db)) as [Hp401 Hp403].
    { intros r. pose proof (updateVenue_status db r) as H.
      split; intros E; rewrite E in H; not_in_list H. }
    destruct (Hgate (VenueController.deleteVenue db)) as [Hd401 Hd403].
    { intros r. pose proof (deleteVenue_status db r) as H.
      split; intros E; rewrite E in H; not_in_list H. }
    split_and!.
    + split; [|by intros [res [=]]]. intros E.
      case_bool_decide; simpl in E; [done|]. rewrite E in Hc. not_in_list Hc.
    + split; [done|by intros [res [=]]].
    + split; [done|by intros [res [=]]].
    + case_bool_decide as Hrole; simpl.
      * split; [|done]. intros _. exists req1, (populate_user db u).
        split_and!; done.
      * split.
        -- intros E. rewrite E in Hc. not_in_list Hc.
        -- by intros (req2 & pu & [= <-] & [= <-] & Hatt).
    + exact Hp403.
    + exact Hd403.
  - pose proof (authenticateUser_401 db req res Hauth) as H401. rewrite H401.
    split_and!; try (split; [by eexists|done]);
      (split; [done|]).
    + by intros (req1 & u & [=] & _).
    + by intros (req1 & u & j & v & [=] & _).
    + by intros (req1 & u & j & v & [=] & _).
Qed.

Lemma venue_routes_401_403_witness :
  status (VenueRoutes.delete_id sample_db (request None hex1 empty_body)).2 = 401%N.
Proof.
  apply (proj1 (venue_routes_401_403 sample_db (request None hex1 empty_body))).
  by eexists.
Defined.

(** ** Reading one venue *)

(** The filter on the creator is particular to the listing: on [GET /:id]
    every authenticated caller, of any role, is given any stored venue,
    whoever created it; a caller who is not authenticated gets 401 and no
    data. *)
Theorem venue_read_any_caller (db : Db) (req : Request) :
  (∀ raw i u j v,
     x_user_id req = Some raw → castObjectId raw = Some i →
     findById (users db) i = Some u →
     castObjectId (params_id req) = Some j → findById (venues db) j = Some v →
     VenueRoutes.get_id db req
     = {| reply_head := {| status := 200; success := true; message := None;
                           error := None; payload := NoData |};
          listing := OneVenue (populate_venue db v) |}) ∧
  (∀ res, Auth.authenticateUser db req = Respond res →
     VenueRoutes.get_id db req = {| reply_head := res; listing := NoListing |} ∧
     status res = 401%N).
Proof.
  unfold VenueRoutes.get_id. split.
  - intros raw i u j v Hraw Hcast Hu Hj Hv.
    rewrite (authenticateUser_resolved db req raw i u Hraw Hcast Hu). simpl.
    unfold VenueController.getVenueById. simpl.
    by rewrite (castQuery_Some _ _ Hj), Hv.
  - intros res Hauth. rewrite Hauth. split; [done|]. by eapply authenticateUser_401.
Qed.

Lemma venue_read_any_caller_witness :
  VenueRoutes.get_id sample_db (request (Some hex2) hex2 empty_body)
  = {| reply_head := {| status := 200; success := true; message := None;
                        error := None; payload := NoData |};
       listing := OneVenue (populate_venue sample_db hall) |}.
Proof.
  apply (proj1 (venue_read_any_caller sample_db (request (Some hex2) hex2 empty_body))
           hex2 2%N ben 2%N hall); reflexivity.
Defined.

(** ** Normalised codes and emails *)

(** *** UTF-8 sequences and the case conversions *)

Lemma append_assoc (x y z : string) : (x +:+ y) +:+ z = x +:+ (y +:+ z).
Proof.
  induction x as [|c x IH]; [reflexivity|].
  change (String c ((x +:+ y) +:+ z) = String c (x +:+ (y +:+ z))). by f_equal.
Qed.

Lemma join_app xs ys : join (xs ++ ys) = join xs +:+ join ys.
Proof.
  induction xs as [|x xs IH]; [reflexivity|].
  change (x +:+ join (xs ++ ys) = (x +:+ join xs) +:+ join ys).
  by rewrite IH, append_assoc.
Qed.

Lemma utf8_split_unit x : is_unit x = true → utf8_split x = [x].
Proof.
  destruct x as [|c t]; [done|]. unfold is_unit. revert c.
  induction t as [|d t IH]; intros c Ht; [reflexivity|].
  simpl in Ht. apply andb_true_iff in Ht as [Hd Ht].
  change (utf8_split (String c (String d t)))
    with (match utf8_split (String d t) with
          | x :: xs => if continues x then String c x :: xs
                       else String c EmptyString :: x :: xs
          | [] => [String c EmptyString]
          end).
  rewrite (IH d Ht). simpl. by rewrite Hd.
Qed.

Lemma utf8_split_head s :
  match utf8_split s with
  | x :: _ => continues x = continues s ∧ s ≠ ""
  | [] => s = ""
  end.
Proof.
  induction s as [|c s IH]; [done|]. simpl.
  destruct (utf8_split s) as [|x xs]; [done|].
  by destruct (continues x).
Qed.

Lemma utf8_split_units s :
  Forall (λ x, is_unit x = true) (utf8_split s) ∧
  Forall (λ x, continues x = false) (tail (utf8_split s)).
Proof.
  induction s as [|c s [IH1 IH2]]; [done|]. simpl.
  destruct (utf8_split s) as [|x xs] eqn:E; [by repeat constructor|].
  apply Forall_cons in IH1 as [Hx Hxs]. simpl in IH2.
  destruct (continues x) eqn:Hc; simpl.
  - split; [|done]. apply Forall_cons. split; [|done].
    destruct x as [|d t]; [done|]. simpl in *. by rewrite Hc, Hx.
  - split; by repeat constructor.
Qed.

Lemma join_utf8_split s : join (utf8_split s) = s.
Proof.
  induction s as [|c s IH]; [done|]. simpl.
  destruct (utf8_split s) as [|x xs]; [by rewrite <- IH|].
  change (join (x :: xs)) with (x +:+ join xs) in IH.
  destruct (continues x);
    change (String c (x +:+ join xs) = String c s); by rewrite IH.
Qed.

Lemma utf8_split_app x s :
  continues s = false → utf8_split (x +:+ s) = utf8_split x ++ utf8_split s.
Proof.
  intros Hs. induction x as [|c x IH]; [done|].
  change (String c x +:+ s) with (String c (x +:+ s)).
  simpl. rewrite IH.
  destruct (utf8_split x) as [|y ys] eqn:E; [|simpl; by destruct (continues y)].
  simpl.
  pose proof (utf8_split_head s) as Hhead.
  destruct (utf8_split s) as [|z zs]; [done|]. destruct Hhead as [-> _].
  by rewrite Hs.
Qed.

Lemma continues_join o os :
  o ≠ "" → continues (join (o :: os)) = continues o.
Proof. by destruct o. Qed.

Lemma utf8_split_join o os :
  Forall piece os → utf8_split (join (o :: os)) = utf8_split o ++ utf8_split (join os).
Proof.
  intros Hos. simpl. apply utf8_split_app.
  destruct os as [|p ps]; [done|]. apply Forall_cons in Hos as [[Hne Hc] _].
  by rewrite continues_join.
Qed.

Lemma utf8_split_pieces os :
  Forall piece (tail os) → utf8_split (join os) = mjoin (utf8_split <$> os).
Proof.
  induction os as [|o os IH]; [done|]. intros Hos. simpl in Hos.
  rewrite (utf8_split_join o os Hos), IH; [done|].
  destruct os as [|p ps]; [done|]. by apply Forall_cons in Hos as [_ ?].
Qed.

Lemma upper_table_settled : table_settled upper_table = true.
Proof. vm_compute. reflexivity. Qed.

Lemma lower_table_settled : table_settled lower_table = true.
Proof. vm_compute. reflexivity. Qed.

Lemma settled_spec table o :
  settled table o = true → piece o ∧ Forall (fixed table) (utf8_split o).
Proof.
  unfold settled. rewrite !andb_true_iff, !negb_true_iff.
  intros [[Hne Hc] Hall]. split; [split|].
  - intros ->. discriminate.
  - done.
  - apply Forall_forall. intros y Hy.
    rewrite forallb_forall in Hall. apply list_elem_of_In, Hall in Hy.
    apply andb_true_iff in Hy as [Hu He]. split; [done|]. by apply String.eqb_eq.
Qed.

Lemma assoc_In c table v : assoc c table = Some v → In (c, v) table.
Proof.
  induction table as [|[k w] table IH]; [done|]. simpl.
  destruct (N.eqb_spec k c) as [->|_]; [intros [= ->]; by left|].
  intros H. right. by apply IH.
Qed.

Lemma map_case_outcome table x :
  table_settled table = true → outcome table x (map_case table x).
Proof.
  intros Htable.
  destruct (code_point x ≫= λ c, assoc c table) as [v|] eqn:E.
  - assert (map_case table x = utf8 v) as -> by (unfold map_case; by rewrite E).
    right. apply settled_spec.
    destruct (code_point x) as [c|]; [|done]. simpl in E.
    apply assoc_In in E. unfold table_settled in Htable.
    rewrite forallb_forall in Htable. exact (Htable _ E).
  - assert (map_case table x = x) as Hx by (unfold map_case; by rewrite E).
    rewrite Hx. by left.
Qed.

Lemma unit_nonempty x : is_unit x = true → x ≠ "".
Proof. by intros H ->. Qed.

Lemma outcomes_split table (us os : list string) :
  Forall (λ x, is_unit x = true) us → Forall (λ x, continues x = false) (tail us) →
  Forall2 (outcome table) us os →
  utf8_split (join os) = mjoin (utf8_split <$> os) ∧
  Forall (fixed table) (mjoin (utf8_split <$> os)).
Proof.
  intros Hunits Htail Hout. split.
  - apply utf8_split_pieces.
    destruct Hout as [|x o us os Hxo Hout]; [done|]. simpl in *.
    apply Forall_cons in Hunits as [_ Hunits].
    induction Hout as [|y p us os Hyp Hout IH]; [done|].
    apply Forall_cons in Hunits as [Hy Hunits].
    apply Forall_cons in Htail as [Hc Htail].
    apply Forall_cons. split; [|by apply IH].
    destruct Hyp as [[-> _]|[Hp _]]; [|done]. split; [by apply unit_nonempty|done].
  - clear Htail. induction Hout as [|x o us os Hxo Hout IH]; [done|].
    apply Forall_cons in Hunits as [Hx Hunits].
    rewrite fmap_cons. simpl. apply Forall_app. split; [|by apply IH].
    destruct Hxo as [[-> Hfix]|[_ Hall]]; [|done].
    rewrite (utf8_split_unit x Hx). by apply Forall_singleton.
Qed.

Lemma join_split_all (os : list string) : join (mjoin (utf8_split <$> os)) = join os.
Proof.
  induction os as [|o os IH]; [done|]. rewrite fmap_cons. simpl.
  change (join (utf8_split o ++ mjoin (utf8_split <$> os)) = o +:+ join os).
  by rewrite join_app, IH, join_utf8_split.
Qed.

Lemma map_fixed table (ws : list string) :
  Forall (fixed table) ws → map_case table <$> ws = ws.
Proof.
  induction 1 as [|w ws [_ Hw] _ IH]; [done|]. rewrite fmap_cons. by rewrite Hw, IH.
Qed.

Lemma toUpperCase_idempotent s : toUpperCase (toUpperCase s) = toUpperCase s.
Proof.
  unfold toUpperCase.
  destruct (utf8_split_units s) as [Hunits Htail].
  destruct (outcomes_split upper_table (utf8_split s)
              (map_case upper_table <$> utf8_split s) Hunits Htail) as [Hsplit Hfixed].
  { apply Forall2_fmap_r, Forall_Forall2_diag, Forall_forall. intros x _.
    apply map_case_outcome, upper_table_settled. }
  by rewrite Hsplit, (map_fixed _ _ Hfixed), join_split_all.
Qed.

Lemma lower_from_outcome before us :
  Forall2 (outcome lower_table) us (lower_from before us).
Proof.
  revert before. induction us as [|x us IH]; intros before; [constructor|].
  simpl. constructor; [|apply IH].
  destruct (String.eqb x (encode 931) && final_sigma before us).
  - right. apply settled_spec. vm_compute. reflexivity.
  - apply map_case_outcome, lower_table_settled.
Qed.

Lemma lower_from_fixed before (ws : list string) :
  Forall (fixed lower_table) ws → lower_from before ws = ws.
Proof.
  intros Hws. revert before. induction Hws as [|w ws [_ Hw] _ IH]; intros before; [done|].
  simpl. rewrite IH. destruct (String.eqb_spec w (encode 931)) as [->|_]; simpl.
  - exfalso. revert Hw. vm_compute. discriminate.
  - by rewrite Hw.
Qed.

Lemma toLowerCase_idempotent s : toLowerCase (toLowerCase s) = toLowerCase s.
Proof.
  unfold toLowerCase.
  destruct (utf8_split_units s) as [Hunits Htail].
  destruct (outcomes_split lower_table (utf8_split s)
              (lower_from [] (utf8_split s)) Hunits Htail (lower_from_outcome _ _))
    as [Hsplit Hfixed].
  by rewrite Hsplit, (lower_from_fixed _ _ Hfixed), join_split_all.
Qed.

Lemma join_nonempty o os : o ≠ "" → join (o :: os) ≠ "".
Proof. by destruct o. Qed.

Lemma outcome_nonempty table x o : is_unit x = true → outcome table x o → o ≠ "".
Proof.
  intros Hx [[-> _]|[[Hne _] _]]; [by apply unit_nonempty|done].
Qed.

Lemma toUpperCase_nonempty s : s ≠ "" → toUpperCase s ≠ "".
Proof.
  intros Hs. unfold toUpperCase.
  destruct (utf8_split_units s) as [Hunits _].
  pose proof (utf8_split_head s) as Hhead.
  destruct (utf8_split s) as [|x xs]; [done|].
  apply Forall_cons in Hunits as [Hx _]. rewrite fmap_cons.
  apply join_nonempty. apply (outcome_nonempty upper_table x); [done|].
  apply map_case_outcome, upper_table_settled.
Qed.

Lemma toLowerCase_nonempty s : s ≠ "" → toLowerCase s ≠ "".
Proof.
  intros Hs. unfold toLowerCase.
  destruct (utf8_split_units s) as [Hunits _].
  pose proof (utf8_split_head s) as Hhead.
  destruct (utf8_split s) as [|x xs]; [done|].
  apply Forall_cons in Hunits as [Hx _].
  pose proof (lower_from_outcome [] (x :: xs)) as Hout.
  destruct (lower_from [] (x :: xs)) as [|o os]; [by inversion Hout|].
  apply Forall2_cons in Hout as [Hxo _].
  apply join_nonempty. by apply (outcome_nonempty lower_table x).
Qed.

Lemma required_string_setter msg f fld v :
  required_string msg f fld = Ok v → ∃ s, fld = Given s ∧ v = f s.
Proof.
  destruct fld as [| |s]; simpl; [done..|].
  destruct (truthy_string (f s)); [|done]. intros [= <-]. by exists s.
Qed.

Lemma updated_string_setter msg f fld v :
  updated_string msg f fld = Ok (Some v) → ∃ s, fld = Given s ∧ v = f s.
Proof.
  destruct fld as [| |s]; simpl; [done..|].
  destruct (truthy_string (f s)); [|done]. intros [= <-]. by exists s.
Qed.

Lemma Location_update_code locs raw f_name f_code f_parent l' locs' :
  Location.findByIdAndUpdate locs raw f_name f_code f_parent = Ok (Some l', locs') →
  locs' = replace_doc l' locs ∧
  ∃ l c, l ∈ locs ∧
    updated_string "Location code is required" (λ s, toUpperCase (trim s)) f_code
    = Ok c ∧
    loc_code l' = default (loc_code l) c.
Proof.
  unfold Location.findByIdAndUpdate, castQuery.
  destruct (castObjectId raw) as [i|]; [|done]. simpl.
  destruct (updated_optional_ref f_parent) as [p|]; [|done]. simpl.
  destruct (updated_string _ trim f_name) as [n|]; [|done]. simpl.
  destruct (updated_string _ _ f_code) as [c|] eqn:Hc; [|done]. simpl.
  destruct (findById locs i) as [l|] eqn:Hl; [|done].
  destruct (Location.code_taken _ _); [done|].
  intros [= <- <-]. split; [done|]. exists l, c. split_and!; try done.
  by apply findById_Some in Hl as [Hl _].
Qed.

(** Codes are stored in upper case and emails in lower case: when every
    stored code is its own upper-case form, this holds after
    [createLocation] and [updateLocation] with any request, and likewise
    for the lower-case form of the emails after [createUser] and
    [updateUser]. *)
Theorem stored_case_normalised (db : Db) (req : Request) :
  (Forall (λ l, toUpperCase (loc_code l) = loc_code l) (locations db) →
   Forall (λ l, toUpperCase (loc_code l) = loc_code l)
     (locations (LocationController.createLocation db req).1) ∧
   Forall (λ l, toUpperCase (loc_code l) = loc_code l)
     (locations (LocationController.updateLocation db req).1)) ∧
  (Forall (λ u, toLowerCase (user_email u) = user_email u) (users db) →
   Forall (λ u, toLowerCase (user_email u) = user_email u)
     (users (UserController.createUser db req).1) ∧
   Forall (λ u, toLowerCase (user_email u) = user_email u)
     (users (UserController.updateUser db req).1)).
Proof.
  split.
  - intros Hall. split.
    + destruct (createLocation_cases db req)
        as [(res & -> & _)|(l & -> & Hcreate & _)]; [done|].
      apply Location_create_Ok in Hcreate as (_ & _ & _ & _ & Hc & _).
      apply required_string_setter in Hc as (s & _ & Hc).
      simpl. apply Forall_app. split; [done|]. apply Forall_singleton.
      rewrite Hc. apply toUpperCase_idempotent.
    + destruct (updateLocation_update db req)
        as [(res & -> & _)|(l' & locs' & Hupd & ->)]; [done|].
      apply Location_update_code in Hupd as (-> & l & c & Hl & Hc & Hcode).
      simpl. apply Forall_forall. intros x Hx.
      apply replace_doc_elem in Hx as [[Hx _]|[-> _]];
        [by apply (proj1 (Forall_forall _ _) Hall)|].
      rewrite Hcode. destruct c as [c|]; simpl.
      * apply updated_string_setter in Hc as (s & _ & ->).
        apply toUpperCase_idempotent.
      * by apply (proj1 (Forall_forall _ _) Hall l).
  - intros Hall. split.
    + destruct (createUser_cases db req) as [(res & -> & _)|(u & Hcreate & _ & ->)];
        [done|].
      apply User_create_Ok in Hcreate as (_ & _ & _ & _ & _ & He & _).
      unfold required_email in He.
      destruct (required_string _ _ (email (body req))) as [e|] eqn:Hs; [|done].
      simpl in He. destruct (matches email_pattern e); [|done]. simplify_eq.
      apply required_string_setter in Hs as (s & _ & Hs).
      simpl. apply Forall_app. split; [done|]. apply Forall_singleton.
      rewrite Hs. apply toLowerCase_idempotent.
    + destruct (updateUser_cases db req) as [(res & -> & _)|(u' & us' & Hupd & ->)];
        [done|].
      apply User_update_Ok in Hupd
        as (i & u & n & ph & e & _ & Hu & _ & -> & _ & _ & _ & _ & _ & He & Hemail).
      simpl. apply Forall_forall. intros x Hx.
      apply replace_doc_elem in Hx as [[Hx _]|[-> _]];
        [by apply (proj1 (Forall_forall _ _) Hall)|].
      rewrite Hemail. destruct e as [e|]; simpl.
      * destruct (email (body req)) as [| |s] eqn:Hs; simpl in He; [done..|].
        unfold required_email in He.
        destruct (required_string _ _ (Given s)) as [e'|] eqn:Hr; [|done].
        apply required_string_setter in Hr as (s' & _ & ->).
        simpl in He. destruct (matches email_pattern _); [|done].
        simpl in He. injection He as <-. apply toLowerCase_idempotent.
      * pose proof (findById_Some _ _ _ Hu) as [Hin _].
        by apply (proj1 (Forall_forall _ _) Hall u).
Qed.

Lemma stored_case_normalised_witness :
  Forall (λ l, toUpperCase (loc_code l) = loc_code l)
    (locations (LocationController.createLocation sample_db
                  (request None ""
                     (location_body (Given "Gasabo") (Given "gsb") (Given hex2)))).1) ∧
  Forall (λ l, toUpperCase (loc_code l) = loc_code l)
    (locations (LocationController.updateLocation sample_db
                  (request None ""
                     (location_body (Given "Gasabo") (Given "gsb") (Given hex2)))).1).
Proof.
  apply (proj1 (stored_case_normalised sample_db
                  (request None ""
                     (location_body (Given "Gasabo") (Given "gsb") (Given hex2))))).
  apply (bool_decide_unpack _). vm_compute. exact I.
Defined.

(** A code with a sharp s: its upper-case form has two letters for it, and a
    capital sigma at the end of a word is lowered to the final form. *)
Example toUpperCase_sharp_s :
  toUpperCase (utf8 [0x73; 0x74; 0x72; 0x61; 0xDF; 0x65]%N) = "STRASSE" ∧
  toLowerCase (utf8 [0x39F; 0x394; 0x39F; 0x3A3]%N) = utf8 [0x3BF; 0x3B4; 0x3BF; 0x3C2]%N ∧
  trim (utf8 [0xA0; 0x4B; 0x47; 0x4C; 0x2028; 0xFEFF]%N) = "KGL".
Proof. vm_compute. done. Qed.

Example createLocation_sharp_s :
  loc_code <$> locations
    (LocationController.createLocation sample_db
       (request None ""
          (location_body (Given "Berlin")
             (Given (utf8 [0x20; 0x73; 0x74; 0x72; 0x61; 0xDF; 0x65]%N)) Undefined))).1
  = (loc_code <$> rwanda_locs) ++ ["STRASSE"].
Proof. vm_compute. reflexivity. Qed.

Lemma required_email_setter e v :
  required_email (Given e) = Ok v → v = toLowerCase (trim e).
Proof.
  unfold required_email. simpl.
  destruct (truthy_string (toLowerCase (trim e))); [|done]. simpl.
  destruct (matches email_pattern _); [|done]. by intros [= <-].
Qed.

(** The unique indexes compare the normalised values.  When the code of a
    creation is, trimmed and in upper case, the code of a stored location,
    [createLocation] stores nothing and does not answer 201; when moreover
    the name and the code are not blank and the parent is left out, is
    [null] or is the id of a stored location, the answer is 400 "Location
    code already exists".  When the email of a creation is, trimmed and in
    lower case, the email of a stored user, [createUser] stores nothing and
    does not answer 201; when moreover the name and the phone are not blank,
    that form of the email matches the pattern of the schema, the role is
    one of the three roles and the location is a well-formed id, the answer
    is 400 "Email already exists". *)
Theorem unique_fields_ignore_case (db : Db) (req : Request) :
  (∀ c l,
     code (body req) = Given c → l ∈ locations db →
     loc_code l = toUpperCase (trim c) →
     (LocationController.createLocation db req).1 = db ∧
     status (LocationController.createLocation db req).2 ≠ 201%N ∧
     (∀ n,
        name (body req) = Given n → trim n ≠ "" → trim c ≠ "" →
        parent (body req) = Undefined ∨ parent (body req) = Null ∨
        (∃ raw p, parent (body req) = Given raw ∧ castObjectId raw = Some p ∧
                  is_Some (findById (locations db) p)) →
        (LocationController.createLocation db req).2
        = {| status := 400; success := false;
             message := Some "Location code already exists";
             error := None; payload := NoData |})) ∧
  (∀ e u,
     email (body req) = Given e → u ∈ users db →
     user_email u = toLowerCase (trim e) →
     (UserController.createUser db req).1 = db ∧
     status (UserController.createUser db req).2 ≠ 201%N ∧
     (∀ n ph r raw i,
        name (body req) = Given n → trim n ≠ "" →
        phone (body req) = Given ph → trim ph ≠ "" →
        matches email_pattern (toLowerCase (trim e)) = true →
        role (body req) = Given (role_name r) →
        location (body req) = Given raw → castObjectId raw = Some i →
        (UserController.createUser db req).2
        = {| status := 400; success := false;
             message := Some "Email already exists";
             error := None; payload := NoData |})).
Proof.
  split.
  - intros c l Hc Hl Hcode.
    assert (Location.code_taken (locations db) (toUpperCase (trim c)) = true)
      as Htaken.
    { apply code_taken_spec. rewrite <- Hcode. by apply list_elem_of_fmap_2. }
    assert (∃ res, LocationController.createLocation db req = (db, res) ∧
                   status res ≠ 201%N) as (res & Hres & Hstatus).
    { destruct (createLocation_cases db req) as [?|(l' & _ & Hcreate & _)]; [done|].
      apply Location_create_Ok in Hcreate as (_ & _ & Hfree & _ & Hc' & _).
      rewrite Hc in Hc'. apply required_string_setter in Hc' as (s & [= <-] & Hs).
      rewrite Hs in Hfree. congruence. }
    rewrite Hres. split_and!; [done..|].
    intros n Hn Htn Htc Hp. simpl. clear Hstatus. revert Hres.
    unfold LocationController.createLocation, Location.create.
    rewrite Hn, Hc. simpl.
    rewrite (truthy_string_true _ (trim_nonempty _ Htn)),
      (truthy_string_true _ (trim_nonempty _ Htc)). simpl.
    rewrite (truthy_string_true _ Htn),
      (truthy_string_true (toUpperCase (trim c)) (toUpperCase_nonempty _ Htc)).
    simpl.
    destruct Hp as [->|[->|(raw & p & -> & Hcast & [lp Hlp])]]; simpl.
    + rewrite Htaken. by intros [= <-].
    + rewrite Htaken. by intros [= <-].
    + rewrite (castObjectId_truthy _ _ Hcast), (castQuery_Some _ _ Hcast). simpl.
      rewrite Hlp, Hcast. simpl. rewrite Htaken. by intros [= <-].
  - intros e u He Hu Hemail.
    assert (User.email_taken (users db) (toLowerCase (trim e)) = true) as Htaken.
    { apply email_taken_spec. rewrite <- Hemail. by apply list_elem_of_fmap_2. }
    assert (∃ res, UserController.createUser db req = (db, res) ∧
                   status res ≠ 201%N) as (res & Hres & Hstatus).
    { destruct (createUser_cases db req) as [?|(u' & Hcreate & _)]; [done|].
      apply User_create_Ok in Hcreate as (_ & _ & Hfree & _ & _ & He' & _).
      rewrite He in He'. apply required_email_setter in He'.
      rewrite He' in Hfree. congruence. }
    rewrite Hres. split_and!; [done..|].
    intros n ph r raw i Hn Htn Hph Htph Hmatch Hr Hraw Hcast. simpl.
    clear Hstatus. revert Hres.
    unfold UserController.createUser. rewrite Hn, Hph, He, Hraw. simpl.
    pose proof (matches_nonempty _ Hmatch) as Hlow.
    assert (e ≠ "") as Hne by (intros ->; by apply Hlow).
    rewrite (truthy_string_true _ (trim_nonempty _ Htn)),
      (truthy_string_true _ (trim_nonempty _ Htph)),
      (truthy_string_true _ Hne), (castObjectId_truthy _ _ Hcast).
    assert (truthy (role (body req)) = true) as ->
      by (rewrite Hr; by destruct r).
    simpl. unfold User.create, required_email. simpl.
    rewrite (truthy_string_true _ Htn), (truthy_string_true _ Htph),
      (truthy_string_true _ Hlow). simpl.
    rewrite Hmatch. simpl. rewrite Hr, required_role_name. simpl.
    rewrite Hcast. simpl. rewrite Htaken. by intros [= <-].
Qed.

Lemma unique_fields_ignore_case_witness :
  (LocationController.createLocation sample_db
     (request None ""
        (location_body (Given "Kigali City") (Given " kgl ") (Given hex1)))).2
  = {| status := 400; success := false;
       message := Some "Location code already exists";
       error := None; payload := NoData |} ∧
  (UserController.createUser sample_db
     (request None "" (user_body "Benoit" "0799" "BEN@Nelson.RW" "Attend" hex1))).2
  = {| status := 400; success := false;
       message := Some "Email already exists";
       error := None; payload := NoData |}.
Proof.
  split.
  - destruct (proj1 (unique_fields_ignore_case sample_db
                       (request None ""
                          (location_body (Given "Kigali City") (Given " kgl ")
                             (Given hex1))))
                " kgl " kigali) as (_ & _ & Hanswer).
    + reflexivity.
    + apply (bool_decide_unpack _). vm_compute. exact I.
    + vm_compute. reflexivity.
    + apply (Hanswer "Kigali City"); [reflexivity|vm_compute; discriminate..|].
      right. right. exists hex1, 1%N. split_and!; [reflexivity..|].
      exists rwanda. vm_compute. reflexivity.
  - destruct (proj2 (unique_fields_ignore_case sample_db
                       (request None ""
                          (user_body "Benoit" "0799" "BEN@Nelson.RW" "Attend" hex1)))
                "BEN@Nelson.RW" ben) as (_ & _ & Hanswer).
    + reflexivity.
    + apply (bool_decide_unpack _). vm_compute. exact I.
    + vm_compute. reflexivity.
    + apply (Hanswer "Benoit" "0799" Attend hex1 1%N);
        try reflexivity; vm_compute; discriminate.
Defined.
